(** * MultiClassConvolutionalTsetlinMachine.c: a shallow embedding

    The multiclass layer of pyTsetlinMachine drives one single-class
    Tsetlin machine per class.  This file embeds the functions of
    [MultiClassConvolutionalTsetlinMachine.c] as computations in a small
    state-and-error monad and proves properties of prediction, the
    pairwise update, the per-epoch shuffle, batch fitting, the clause
    transform, state transfer and creation.

    Conventions.
    - C [int] and [unsigned int] are 32 bits, [size_t] and
      [unsigned long] are 64 bits (LP64).  Values are [Z]; a conversion
      to an unsigned type is written [to_uint] / [to_size_t], and an
      [int] product that overflows is wrapped with [to_int], as the
      compiled code does.
    - An array is a [list]; an access outside it is undefined behaviour
      and is reported as [Undefined OutOfBounds].
    - A [float] scalar is carried as its bit pattern; the floating-point
      test of the dropout loops is a member of [Platform].  [double] is
      IEEE 754 binary64, rounding to nearest even.
    - [rand()] pops the head of a finite list of draws carried in the
      state; a computation that asks for a draw when none is left is
      [Starved], which is a verdict of the model and not of the program.
    - [mc_tm_destroy] only releases memory and is not embedded. *)

From Stdlib Require Import ZArith Lia Bool Floats.SpecFloat.
From stdpp Require Import base numbers list.

Local Open Scope Z_scope.

(** ** Machine integers *)

Definition to_uint (z : Z) : Z := z `mod` 2 ^ 32.
Definition to_int (z : Z) : Z := (z + 2 ^ 31) `mod` 2 ^ 32 - 2 ^ 31.
Definition to_size_t (z : Z) : Z := z `mod` 2 ^ 64.
Definition to_ulong (z : Z) : Z := z `mod` 2 ^ 64.

(** ** Outcomes of a run *)

Inductive fault : Set :=
  | OutOfBounds
  | DivisionByZero
  | NullDereference.

Inductive outcome (A : Type) : Type :=
  | Ok (a : A)
  | Undefined (f : fault)
  | Starved.

Arguments Ok {A} a.
Arguments Undefined {A} f.
Arguments Starved {A}.

(** ** The single-class engine, as this file sees it *)

Module TM.

(** Modelled from the spec: [struct TsetlinMachine] is declared in
    ConvolutionalTsetlinMachine.h, which is not part of the sources at
    hand.  The members below are the ones the multiclass layer reads or
    writes, plus the automaton state and the clause weights that the
    state accessors copy; [rest] stands for every other member. *)
Record TsetlinMachine : Type := mk {
  number_of_clauses : Z;
  number_of_clause_chunks : Z;
  number_of_features : Z;
  number_of_ta_chunks : Z;
  number_of_state_bits : Z;
  ta_state : list Z;
  clause_weights : list Z;
  clause_output : list Z;
  drop_clause : list Z;
  drop_literal : list Z;
  rest : list Z
}.

Definition set_drop_clause (v : list Z) (tm : TsetlinMachine) : TsetlinMachine :=
  mk (number_of_clauses tm) (number_of_clause_chunks tm) (number_of_features tm)
     (number_of_ta_chunks tm) (number_of_state_bits tm) (ta_state tm)
     (clause_weights tm) (clause_output tm) v (drop_literal tm) (rest tm).

Definition set_drop_literal (v : list Z) (tm : TsetlinMachine) : TsetlinMachine :=
  mk (number_of_clauses tm) (number_of_clause_chunks tm) (number_of_features tm)
     (number_of_ta_chunks tm) (number_of_state_bits tm) (ta_state tm)
     (clause_weights tm) (clause_output tm) (drop_clause tm) v (rest tm).

Definition set_ta_state (v : list Z) (tm : TsetlinMachine) : TsetlinMachine :=
  mk (number_of_clauses tm) (number_of_clause_chunks tm) (number_of_features tm)
     (number_of_ta_chunks tm) (number_of_state_bits tm) v
     (clause_weights tm) (clause_output tm) (drop_clause tm) (drop_literal tm) (rest tm).

Definition set_clause_weights (v : list Z) (tm : TsetlinMachine) : TsetlinMachine :=
  mk (number_of_clauses tm) (number_of_clause_chunks tm) (number_of_features tm)
     (number_of_ta_chunks tm) (number_of_state_bits tm) (ta_state tm)
     v (clause_output tm) (drop_clause tm) (drop_literal tm) (rest tm).

End TM.

Abbreviation TsetlinMachine := TM.TsetlinMachine.

(** What the C library fixes: the largest value of [rand()] and the
    single-precision test [((float)r)/((float)RAND_MAX) < p], where [p]
    is the bit pattern of a C [float]. *)
Class Platform : Type := {
  RAND_MAX : Z;
  float_ratio_lt : Z -> Z -> bool
}.

(** The functions of ConvolutionalTsetlinMachine.c that this file calls.
    A pointer [&X[pos]] is passed as the array [X] and the offset [pos].
    [tm_update] may draw from the shared [rand()] stream. *)
Class Engine : Type := {
  CreateTsetlinMachine :
    Z -> Z -> Z -> Z -> Z -> Z -> Z -> Z -> Z -> Z -> TsetlinMachine;
  tm_initialize : TsetlinMachine -> TsetlinMachine;
  tm_score : TsetlinMachine -> list Z -> Z -> TsetlinMachine * Z;
  tm_update : TsetlinMachine -> list Z -> Z -> Z -> list Z -> TsetlinMachine * list Z
}.

(** ** The ensemble *)

(** Modelled from the spec: [struct MultiClassTsetlinMachine] is declared
    in MultiClassConvolutionalTsetlinMachine.h, not at hand; its members
    are the ones assigned by [CreateMultiClassTsetlinMachine].  The two
    dropout probabilities are kept as the bit patterns of C floats. *)
Record MultiClassTsetlinMachine : Type := mkMC {
  number_of_classes : Z;
  tsetlin_machines : list TsetlinMachine;
  number_of_patches : Z;
  number_of_ta_chunks : Z;
  number_of_state_bits : Z;
  clause_drop_p : Z;
  literal_drop_p : Z
}.

Definition set_tsetlin_machines (v : list TsetlinMachine)
    (m : MultiClassTsetlinMachine) : MultiClassTsetlinMachine :=
  mkMC (number_of_classes m) v (number_of_patches m) (number_of_ta_chunks m)
       (number_of_state_bits m) (clause_drop_p m) (literal_drop_p m).

(** ** The monad of runs *)

(** A computation over a state [S] returns a value and a new state,
    runs into undefined behaviour, or is starved of oracle answers. *)
Definition M (S A : Type) : Type := S -> outcome (A * S).

Definition ret {S A} (a : A) : M S A := fun s => Ok (a, s).

Definition bind {S A B} (c : M S A) (k : A -> M S B) : M S B :=
  fun s =>
    match c s with
    | Ok (a, s') => k a s'
    | Undefined f => Undefined f
    | Starved => Starved
    end.

Definition crash {S A} (f : fault) : M S A := fun _ => Undefined f.
Definition starve {S A} : M S A := fun _ => Starved.

Declare Scope run_scope.
Delimit Scope run_scope with run.
Notation "'let*' x ':=' c 'in' k" := (bind c (fun x => k))
  (at level 10, x pattern, c at level 100, k at level 200) : run_scope.
Notation "c ';;;' k" := (bind c (fun _ => k))
  (at level 100, k at level 200, right associativity) : run_scope.
Local Open Scope run_scope.

(** [a[i]] as an rvalue and [a[i] = v]. *)
Definition load {S A} (a : list A) (i : Z) : M S A :=
  if decide (0 <= i) then
    match a !! Z.to_nat i with
    | Some x => ret x
    | None => crash OutOfBounds
    end
  else crash OutOfBounds.

Definition store {S A} (a : list A) (i : Z) (v : A) : M S (list A) :=
  if decide (0 <= i < Z.of_nat (length a)) then ret (<[Z.to_nat i := v]> a)
  else crash OutOfBounds.

(** [for (i = lo; i < hi; i++) a = body(i, a);] *)
Fixpoint for_range {S A} (n : nat) (i : Z) (body : Z -> A -> M S A) (a : A) : M S A :=
  match n with
  | O => ret a
  | S n' => let* a' := body i a in for_range n' (i + 1) body a'
  end.

(** The same turns, split in halves along the binary digits of their
    number: a run that stops early never unfolds the turns it skips, so a
    loop whose bound has wrapped around still evaluates. *)
Fixpoint for_pos {S A} (p : positive) (i : Z) (body : Z -> A -> M S A) (a : A) : M S A :=
  match p with
  | xH => body i a
  | xO p' =>
      let* a' := for_pos p' i body a in
      for_pos p' (i + Z.pos p') body a'
  | xI p' =>
      let* a' := body i a in
      let* a'' := for_pos p' (i + 1) body a' in
      for_pos p' (i + 1 + Z.pos p') body a''
  end.

Definition for_loop {S A} (lo hi : Z) (body : Z -> A -> M S A) (a : A) : M S A :=
  match hi - lo with
  | Z.pos p => for_pos p lo body a
  | _ => ret a
  end.

Definition for_each {S} (lo hi : Z) (body : Z -> M S unit) : M S unit :=
  for_loop lo hi (fun i _ => body i) tt.

(** [returns c s Q]: from [s] the run [c] ends normally, in a value and
    a state that satisfy [Q].  [ensures c s Q]: if it ends normally, they
    satisfy [Q]. *)
Definition returns {S A} (c : M S A) (s : S) (Q : A -> S -> Prop) : Prop :=
  exists a s', c s = Ok (a, s') /\ Q a s'.

Definition ensures {S A} (c : M S A) (s : S) (Q : A -> S -> Prop) : Prop :=
  forall a s', c s = Ok (a, s') -> Q a s'.

(** ** The engine's state accessors *)

Definition lift {S A} (o : outcome A) : M S A :=
  fun s =>
    match o with
    | Ok a => Ok (a, s)
    | Undefined f => Undefined f
    | Starved => Starved
    end.

(** Copy of the first [n] words of [src] over the first [n] words of
    [dst]; reading or writing past either array is undefined. *)
Definition bulk_copy (n : Z) (src dst : list Z) : outcome (list Z) :=
  if decide (n <= 0) then Ok dst
  else if decide (n <= Z.of_nat (length src) ∧ n <= Z.of_nat (length dst))
  then Ok (take (Z.to_nat n) src ++ drop (Z.to_nat n) dst)
  else Undefined OutOfBounds.

(** Modelled from the spec: [tm_get_ta_state], [tm_set_ta_state],
    [tm_get_clause_weights] and [tm_set_clause_weights] are defined in
    ConvolutionalTsetlinMachine.c, not at hand.  The spec describes them as
    bulk copies between the engine and a caller's buffer, of
    [number_of_clauses * number_of_ta_chunks * number_of_state_bits] words
    of automaton state and of [number_of_clauses] clause weights. *)
Definition tm_get_ta_state (tm : TsetlinMachine) (ta_state : list Z) : outcome (list Z) :=
  bulk_copy (TM.number_of_clauses tm * TM.number_of_ta_chunks tm * TM.number_of_state_bits tm)
    (TM.ta_state tm) ta_state.

(** Modelled from the spec: see [tm_get_ta_state]. *)
Definition tm_set_ta_state (tm : TsetlinMachine) (ta_state : list Z) : outcome TsetlinMachine :=
  match bulk_copy (TM.number_of_clauses tm * TM.number_of_ta_chunks tm * TM.number_of_state_bits tm)
          ta_state (TM.ta_state tm) with
  | Ok a => Ok (TM.set_ta_state a tm)
  | Undefined f => Undefined f
  | Starved => Starved
  end.

(** Modelled from the spec: see [tm_get_ta_state]. *)
Definition tm_get_clause_weights (tm : TsetlinMachine) (clause_weights : list Z)
    : outcome (list Z) :=
  bulk_copy (TM.number_of_clauses tm) (TM.clause_weights tm) clause_weights.

(** Modelled from the spec: see [tm_get_ta_state]. *)
Definition tm_set_clause_weights (tm : TsetlinMachine) (clause_weights : list Z)
    : outcome TsetlinMachine :=
  match bulk_copy (TM.number_of_clauses tm) clause_weights (TM.clause_weights tm) with
  | Ok a => Ok (TM.set_clause_weights a tm)
  | Undefined f => Undefined f
  | Starved => Starved
  end.

(** The truth value of a C scalar used as a condition. *)
Definition truth (z : Z) : bool := negb (z =? 0).

(** ** Creation *)

(** [malloc] succeeds or returns [NULL] as the next answer of an
    allocation oracle says. *)
Definition malloc : M (list bool) bool :=
  fun heap =>
    match heap with
    | [] => Starved
    | b :: heap' => Ok (b, heap')
    end.

Section Program.

Context {P : Platform} {E : Engine}.

(** Lines 38-62.  Neither [malloc] result is tested: line 45 writes
    through [mc_tm] and line 48 through [mc_tm->tsetlin_machines].  The
    engine array is filled from index 0 upwards, one
    [CreateTsetlinMachine] call per slot. *)
Definition CreateMultiClassTsetlinMachine
    (number_of_classes number_of_clauses number_of_features number_of_patches
     number_of_ta_chunks number_of_state_bits T s s_range
     boost_true_positive_feedback weighted_clauses
     clause_drop_p literal_drop_p : Z) : M (list bool) MultiClassTsetlinMachine :=
  let* mc_tm := malloc in
  if negb mc_tm then crash NullDereference else
  let* tsetlin_machines := malloc in
  let* engines :=
    for_loop 0 number_of_classes (fun i engines =>
      if negb tsetlin_machines then crash NullDereference else
      ret (engines ++
           [CreateTsetlinMachine number_of_clauses number_of_features
              number_of_patches number_of_ta_chunks number_of_state_bits
              T s s_range boost_true_positive_feedback weighted_clauses])) [] in
  ret (mkMC number_of_classes engines number_of_patches number_of_ta_chunks
            number_of_state_bits clause_drop_p literal_drop_p).

(** ** The state of a run on an ensemble *)

Record world : Type := mkWorld {
  draws : list Z;
  mc_tm : MultiClassTsetlinMachine
}.

Definition Run (A : Type) : Type := M world A.

(** [rand()] *)
Definition rand : Run Z :=
  fun w =>
    match draws w with
    | [] => Starved
    | r :: rs => Ok (r, mkWorld rs (mc_tm w))
    end.

Definition get_mc : Run MultiClassTsetlinMachine := fun w => Ok (mc_tm w, w).
Definition remaining_draws : Run nat := fun w => Ok (length (draws w), w).

(** [mc_tm->tsetlin_machines[i]], read and written through the pointer. *)
Definition tm_at (i : Z) : Run TsetlinMachine :=
  fun w => load (tsetlin_machines (mc_tm w)) i w.

Definition set_tm (i : Z) (tm : TsetlinMachine) : Run unit :=
  fun w =>
    match store (tsetlin_machines (mc_tm w)) i tm w with
    | Ok (l, _) => Ok (tt, mkWorld (draws w) (set_tsetlin_machines l (mc_tm w)))
    | Undefined f => Undefined f
    | Starved => Starved
    end.

(** [tm_initialize(mc_tm->tsetlin_machines[i])] and its siblings. *)
Definition tm_initialize_at (i : Z) : Run unit :=
  let* tm := tm_at i in set_tm i (tm_initialize tm).

Definition tm_score_at (i : Z) (X : list Z) (pos : Z) : Run Z :=
  let* tm := tm_at i in
  let '(tm', class_sum) := tm_score tm X pos in
  set_tm i tm' ;;; ret class_sum.

Definition tm_update_at (i : Z) (Xi : list Z) (pos : Z) (target : Z) : Run unit :=
  let* tm := tm_at i in
  fun w =>
    let '(tm', rs) := tm_update tm Xi pos target (draws w) in
    set_tm i tm' (mkWorld rs (mc_tm w)).

(** Lines 64-69. *)
Definition mc_tm_initialize : Run unit :=
  let* m := get_mc in
  for_each 0 (number_of_classes m) tm_initialize_at.

(** ** Prediction, lines 85-112 *)

(** Lines 95-104: the class with the largest output on the example at
    [pos]. *)
Definition largest_class (X : list Z) (pos : Z) : Run Z :=
  let* m := get_mc in
  let* max_class_sum := tm_score_at 0 X pos in
  let* (_, max_class) :=
    for_loop 1 (number_of_classes m) (fun i '(max_class_sum, max_class) =>
      let* class_sum := tm_score_at i X pos in
      if decide (max_class_sum < class_sum) then ret (class_sum, i)
      else ret (max_class_sum, max_class)) (max_class_sum, 0) in
  ret max_class.

Definition mc_tm_predict (X : list Z) (y : list Z) (number_of_examples : Z)
    : Run (list Z) :=
  let* m := get_mc in
  let step_size := to_uint (number_of_patches m * number_of_ta_chunks m) in
  let* (y, _) :=
    for_loop 0 number_of_examples (fun l '(y, pos) =>
      let* max_class := largest_class X pos in
      let* y := store y l max_class in
      ret (y, to_uint (pos + step_size))) (y, 0) in
  ret y.

(** ** Online training, lines 121-131 *)

(** An integer converted to [double], and a [double] converted to an
    integer type, which drops its fraction. *)
Definition double_of_int (z : Z) : spec_float := binary_normalize 53 1024 z 0 false.

Definition int_of_double (f : spec_float) : Z :=
  match f with
  | S754_finite s m e =>
      let magnitude := if 0 <=? e then Z.pos m * 2 ^ e else Z.pos m `div` 2 ^ (- e) in
      if s then - magnitude else magnitude
  | _ => 0
  end.

(** [number_of_classes * 1.0*rand()/divisor] in double arithmetic, for
    the draw [r]: the product is rounded to a double, then the quotient. *)
Definition rounded_quotient (number_of_classes r divisor : Z) : spec_float :=
  SFdiv 53 1024
    (SFmul 53 1024
       (SFmul 53 1024 (double_of_int number_of_classes) (double_of_int 1))
       (double_of_int r))
    (double_of_int divisor).

(** [(unsigned int)number_of_classes * 1.0*rand()/((unsigned int)RAND_MAX + 1)],
    converted back to [unsigned int], for the draw [r].  A product below
    2^53 is a double as it is, and its quotient by the divisor, rounded
    to a double and cut to an integer, is the integer quotient; a larger
    product is rounded before it is divided. *)
Definition class_of_draw (number_of_classes r : Z) : Z :=
  let product := to_uint number_of_classes * r in
  let divisor := to_uint (to_uint RAND_MAX + 1) in
  if decide (product < 2 ^ 53) then to_uint (product `div` divisor)
  else to_uint (int_of_double (rounded_quotient (to_uint number_of_classes) r divisor)).

Definition draw_class : Run Z :=
  let* m := get_mc in
  let* r := rand in
  ret (class_of_draw (number_of_classes m) r).

(** The [while] loop of lines 127-129.  Every turn takes one draw, so the
    number of draws left bounds the number of turns. *)
Fixpoint redraw (fuel : nat) (target_class negative_target_class : Z) : Run Z :=
  if decide (negative_target_class = to_uint target_class) then
    match fuel with
    | O => starve
    | S fuel' =>
        let* c := draw_class in redraw fuel' target_class c
    end
  else ret negative_target_class.

Definition mc_tm_update (Xi : list Z) (pos : Z) (target_class : Z) : Run unit :=
  tm_update_at target_class Xi pos 1 ;;;
  let* negative_target_class := draw_class in
  let* fuel := remaining_draws in
  let* negative_target_class := redraw fuel target_class negative_target_class in
  tm_update_at negative_target_class Xi pos 0.

(** ** Batch training *)

(** Lines 137-146; [n] and [i] are [size_t]. *)
Definition shuffle (array : list Z) (n : Z) : Run (list Z) :=
  for_loop 0 (to_size_t (n - 1)) (fun i array =>
    let* r := rand in
    if decide (to_size_t (n - i) = 0) then crash DivisionByZero else
    let d := to_size_t (to_size_t RAND_MAX `div` to_size_t (n - i) + 1) in
    if decide (d = 0) then crash DivisionByZero else
    let j := to_size_t (i + to_size_t r `div` d) in
    let* t := load array j in
    let* a_i := load array i in
    let* array := store array j a_i in
    store array i t) array.

(** [tm->drop_clause[j]] and [tm->drop_literal[k]] for
    [tm = mc_tm->tsetlin_machines[i]]. *)
Definition drop_clause_load (i j : Z) : Run Z :=
  let* tm := tm_at i in load (TM.drop_clause tm) j.

Definition drop_clause_store (i j v : Z) : Run unit :=
  let* tm := tm_at i in
  let* a := store (TM.drop_clause tm) j v in
  set_tm i (TM.set_drop_clause a tm).

Definition drop_literal_load (i k : Z) : Run Z :=
  let* tm := tm_at i in load (TM.drop_literal tm) k.

Definition drop_literal_store (i k v : Z) : Run unit :=
  let* tm := tm_at i in
  let* a := store (TM.drop_literal tm) k v in
  set_tm i (TM.set_drop_literal a tm).

(** Lines 165-167 and 206-208. *)
Definition clear_drop_clause (i : Z) : Run unit :=
  let* tm := tm_at i in
  for_each 0 (TM.number_of_clause_chunks tm) (fun j => drop_clause_store i j 0).

(** Lines 181-183 and 210-212. *)
Definition clear_drop_literal (i : Z) : Run unit :=
  let* tm := tm_at i in
  for_each 0 (TM.number_of_ta_chunks tm) (fun k => drop_literal_store i k 0).

(** Lines 169-175. *)
Definition draw_drop_clause (i : Z) : Run unit :=
  let* tm := tm_at i in
  for_each 0 (TM.number_of_clauses tm) (fun j =>
    let* r := rand in
    let* m := get_mc in
    if float_ratio_lt r (clause_drop_p m) then
      let clause_chunk := to_uint (j `quot` 32) in
      let clause_chunk_pos := to_uint (j `rem` 32) in
      let* old := drop_clause_load i clause_chunk in
      drop_clause_store i clause_chunk (Z.lor old (to_uint (1 ≪ clause_chunk_pos)))
    else ret tt).

(** Lines 185-191. *)
Definition draw_drop_literal (i : Z) : Run unit :=
  let* tm := tm_at i in
  for_each 0 (TM.number_of_features tm) (fun k =>
    let* r := rand in
    let* m := get_mc in
    if float_ratio_lt r (literal_drop_p m) then
      let ta_chunk := to_uint (k `quot` 32) in
      let ta_chunk_pos := to_uint (k `rem` 32) in
      let* old := drop_literal_load i ta_chunk in
      drop_literal_store i ta_chunk (Z.lor old (to_uint (1 ≪ ta_chunk_pos)))
    else ret tt).

(** The body of the loop of lines 158-192, for class [i]. *)
Definition regenerate_dropout (i : Z) : Run unit :=
  clear_drop_clause i ;;;
  draw_drop_clause i ;;;
  clear_drop_literal i ;;;
  draw_drop_literal i.

(** The body of the loop of lines 203-213, for class [i]. *)
Definition turn_off_dropout (i : Z) : Run unit :=
  clear_drop_clause i ;;;
  clear_drop_literal i.

(** One turn of the epoch loop, lines 156-213.  The offset of an example
    in [X] is a product of three [int]s, computed in [int]: an overflow,
    which C leaves undefined, wraps around as in the compiled code, so
    that the offset passed on can be negative. *)
Definition epoch (X y : list Z) (number_of_examples : Z) (index : list Z)
    : Run (list Z) :=
  let* index := shuffle index (to_size_t number_of_examples) in
  let* m := get_mc in
  for_each 0 (number_of_classes m) regenerate_dropout ;;;
  for_each 0 number_of_examples (fun i =>
    let* index_i := load index i in
    let* y_i := load y index_i in
    let* m := get_mc in
    mc_tm_update X
      (to_int (to_int (index_i * number_of_patches m) * number_of_ta_chunks m)) y_i) ;;;
  let* m := get_mc in
  for_each 0 (number_of_classes m) turn_off_dropout ;;;
  ret index.

(** Lines 148-217.  [malloc(sizeof(int)*number_of_examples)] is taken to
    succeed for a count that is not negative; a negative count asks for
    more than the address space and leaves [index] without storage. *)
Definition mc_tm_fit (X y : list Z) (number_of_examples epochs : Z) : Run unit :=
  let* index :=
    for_loop 0 number_of_examples (fun i index => store index i i)
      (replicate (Z.to_nat number_of_examples) 0) in
  for_loop 0 epochs (fun _ index => epoch X y number_of_examples index) index ;;;
  ret tt.

(** ** Storing and loading of state, lines 242-256 *)

Definition mc_tm_get_state (class : Z) (clause_weights ta_state : list Z)
    : Run (list Z * list Z) :=
  let* tm := tm_at class in
  let* ta_state := lift (tm_get_ta_state tm ta_state) in
  let* tm := tm_at class in
  let* clause_weights := lift (tm_get_clause_weights tm clause_weights) in
  ret (clause_weights, ta_state).

Definition mc_tm_set_state (class : Z) (clause_weights ta_state : list Z) : Run unit :=
  let* tm := tm_at class in
  let* tm' := lift (tm_set_ta_state tm ta_state) in
  set_tm class tm' ;;;
  let* tm := tm_at class in
  let* tm' := lift (tm_set_clause_weights tm clause_weights) in
  set_tm class tm'.

(** ** Clause-based transformation, lines 262-293 *)

(** Lines 273-286, for clause [j] of class [i]. *)
Definition transform_clause (i j invert : Z) (out : list Z * Z) : Run (list Z * Z) :=
  let '(X_transformed, transformed_feature) := out in
  let clause_chunk := j `quot` 32 in
  let clause_pos := j `rem` 32 in
  let* tm := tm_at i in
  let* word := load (TM.clause_output tm) clause_chunk in
  let clause_output :=
    if decide (0 < Z.land word (to_uint (1 ≪ clause_pos))) then 1 else 0 in
  let* X_transformed :=
    (if truth clause_output && negb (truth invert)
     then store X_transformed transformed_feature 1
     else if negb (truth clause_output) && truth invert
     then store X_transformed transformed_feature 1
     else store X_transformed transformed_feature 0) in
  ret (X_transformed, to_ulong (transformed_feature + 1)).

(** Lines 270-287, for class [i] and the example at [pos]. *)
Definition transform_class (X : list Z) (pos invert i : Z) (out : list Z * Z)
    : Run (list Z * Z) :=
  tm_score_at i X pos ;;;
  let* tm := tm_at i in
  for_loop 0 (TM.number_of_clauses tm) (fun j out => transform_clause i j invert out) out.

Definition mc_tm_transform (X X_transformed : list Z) (invert number_of_examples : Z)
    : Run (list Z) :=
  let* m := get_mc in
  let step_size := to_uint (number_of_patches m * number_of_ta_chunks m) in
  let* (out, _) :=
    for_loop 0 number_of_examples (fun l '(out, pos) =>
      let* m := get_mc in
      let* out :=
        for_loop 0 (number_of_classes m)
          (fun i out => transform_class X pos invert i out) out in
      ret (out, to_ulong (pos + step_size))) ((X_transformed, 0), 0) in
  ret (fst out).

End Program.

(** ** A platform and an engine to run the model on *)

(** glibc on x86-64: [RAND_MAX] is 2^31 - 1 and [float] arithmetic is
    IEEE 754 binary32, rounding to nearest even. *)
Module Glibc.

Definition float_of_bits (b : Z) : spec_float :=
  let s := Z.testbit b 31 in
  let e := (b `div` 2 ^ 23) `mod` 2 ^ 8 in
  let m := b `mod` 2 ^ 23 in
  if e =? 0 then
    if m =? 0 then S754_zero s else S754_finite s (Z.to_pos m) (-149)
  else if e =? 255 then
    if m =? 0 then S754_infinity s else S754_nan
  else S754_finite s (Z.to_pos (m + 2 ^ 23)) (e - 150).

Definition float_of_int (r : Z) : spec_float := binary_normalize 24 128 r 0 false.

Definition platform : Platform := {|
  RAND_MAX := 2147483647;
  float_ratio_lt r p :=
    SFltb (SFdiv 24 128 (float_of_int r) (float_of_int 2147483647)) (float_of_bits p)
|}.

(** The bit patterns of [0.0f], [0.5f] and [1.0f]. *)
Definition zero_f : Z := 0.
Definition half_f : Z := 1056964608.
Definition one_f : Z := 1065353216.

End Glibc.

(** A small stand-in for the single-class engine.  A clause fires on an
    example when the first word of the example has the clause's bit set;
    the score is the sum of the weights of the firing clauses; an update
    takes one draw if there is one and moves every weight by one. *)
Module Toy.

Definition chunks (n : Z) : Z := (n - 1) `div` 32 + 1.

Definition Create (number_of_clauses number_of_features number_of_patches
    number_of_ta_chunks number_of_state_bits T s s_range
    boost_true_positive_feedback weighted_clauses : Z) : TsetlinMachine :=
  TM.mk number_of_clauses (chunks number_of_clauses) number_of_features
    number_of_ta_chunks number_of_state_bits
    (replicate (Z.to_nat (number_of_clauses * number_of_ta_chunks * number_of_state_bits)) 0)
    (replicate (Z.to_nat number_of_clauses) 0)
    (replicate (Z.to_nat (chunks number_of_clauses)) 0)
    (replicate (Z.to_nat (chunks number_of_clauses)) 0)
    (replicate (Z.to_nat number_of_ta_chunks) 0)
    [number_of_patches; T; s; s_range; boost_true_positive_feedback; weighted_clauses].

Definition initialize (tm : TsetlinMachine) : TsetlinMachine :=
  TM.set_clause_weights (replicate (length (TM.clause_weights tm)) 1) tm.

Definition set_clause_output (v : list Z) (tm : TsetlinMachine) : TsetlinMachine :=
  TM.mk (TM.number_of_clauses tm) (TM.number_of_clause_chunks tm)
    (TM.number_of_features tm) (TM.number_of_ta_chunks tm)
    (TM.number_of_state_bits tm) (TM.ta_state tm) (TM.clause_weights tm) v
    (TM.drop_clause tm) (TM.drop_literal tm) (TM.rest tm).

Fixpoint votes (j : Z) (x : Z) (weights : list Z) : Z :=
  match weights with
  | [] => 0
  | w :: weights' =>
      (if Z.testbit x (j `mod` 32) then w else 0) + votes (j + 1) x weights'
  end.

Definition score (tm : TsetlinMachine) (X : list Z) (pos : Z) : TsetlinMachine * Z :=
  let x := default 0 (X !! Z.to_nat pos) in
  (set_clause_output (replicate (length (TM.clause_output tm)) x) tm,
   votes 0 x (TM.clause_weights tm)).

Definition update (tm : TsetlinMachine) (X : list Z) (pos target : Z) (rs : list Z)
    : TsetlinMachine * list Z :=
  (TM.set_clause_weights
     ((fun w => if target =? 1 then w + 1 else Z.max 0 (w - 1)) <$> TM.clause_weights tm)
     tm,
   tail rs).

Definition engine : Engine := {|
  CreateTsetlinMachine := Create;
  tm_initialize := initialize;
  tm_score := score;
  tm_update := update
|}.

(** Three classes, four clauses each, one word per example, as
    [CreateMultiClassTsetlinMachine] and [mc_tm_initialize] leave it. *)
Definition machine : MultiClassTsetlinMachine :=
  mkMC 3 (replicate 3 (initialize (Create 4 2 1 1 2 10 0 0 0 0))) 1 1 2
    Glibc.half_f Glibc.zero_f.

Definition start (rs : list Z) : world := mkWorld rs machine.

(** The same ensemble with a bit left set in every clause mask. *)
Definition stale (rs : list Z) : world :=
  mkWorld rs
    (set_tsetlin_machines (TM.set_drop_clause [5] <$> tsetlin_machines machine) machine).

(** The ensemble after one update towards class 2, see
    [Toy_trained_by_update]. *)
Definition trained (rs : list Z) : world :=
  mkWorld rs
    (set_tsetlin_machines
       ((fun weight =>
           TM.set_clause_weights (replicate 4 weight)
             (initialize (Create 4 2 1 1 2 10 0 0 0 0))) <$> [0; 1; 2])
       machine).

(** Draws of the classes 1, 0 and 2, over and over. *)
Definition stream : list Z := concat (replicate 50 [1000000000; 17; 2000000000]).

End Toy.

(** ** Notions used in the statements *)

Section Specification.

Context {P : Platform} {E : Engine}.

Definition machines (w : world) : list TsetlinMachine := tsetlin_machines (mc_tm w).

Definition with_machines (l : list TsetlinMachine) (w : world) : world :=
  mkWorld (draws w) (set_tsetlin_machines l (mc_tm w)).

(** The engine array has as many entries as the ensemble counts classes. *)
Definition well_formed (w : world) : Prop :=
  number_of_classes (mc_tm w) = Z.of_nat (length (machines w)).

(** A draw is a value that [rand()] can return. *)
Definition valid_draw (r : Z) : Prop := 0 <= r <= RAND_MAX.

(** [scored tm X pos l] is the engine [tm] once it has scored, in order,
    the examples at offsets [pos 0], ..., [pos (l - 1)] of [X], and
    [class_sum tm X pos l] is the score it then gives to example [l]. *)
Fixpoint scored (tm : TsetlinMachine) (X : list Z) (pos : nat -> Z) (l : nat)
    : TsetlinMachine :=
  match l with
  | O => tm
  | S l' => fst (tm_score (scored tm X pos l') X (pos l'))
  end.

Definition class_sum (tm : TsetlinMachine) (X : list Z) (pos : nat -> Z) (l : nat) : Z :=
  snd (tm_score (scored tm X pos l) X (pos l)).

(** [c] is the lowest index at which [sums] takes its largest value. *)
Definition first_maximum (sums : list Z) (c : Z) : Prop :=
  exists v,
    0 <= c /\ sums !! Z.to_nat c = Some v /\
    (forall k s, sums !! k = Some s -> s <= v) /\
    (forall k s, sums !! k = Some s -> Z.of_nat k < c -> s < v).

(** The offset of example [l] as [mc_tm_predict] steps it, in
    [unsigned int] arithmetic. *)
Definition predict_pos (m : MultiClassTsetlinMachine) (l : nat) : Z :=
  to_uint (Z.of_nat l * to_uint (number_of_patches m * number_of_ta_chunks m)).

End Specification.

Section Sampling.

Context {P : Platform}.

(** The first draw of [rs] whose class is not [target_class], with the
    draws that follow it. *)
Fixpoint first_other_class (number_of_classes target_class : Z) (rs : list Z)
    : option (Z * list Z) :=
  match rs with
  | [] => None
  | r :: rs' =>
      if decide (class_of_draw number_of_classes r = to_uint target_class)
      then first_other_class number_of_classes target_class rs'
      else Some (class_of_draw number_of_classes r, rs')
  end.

(** The outcome of the sampling of lines 126-129 on the draws [rs]. *)
Definition sampled (rs : list Z) (m : MultiClassTsetlinMachine) (target_class : Z)
    : outcome (Z * world) :=
  match first_other_class (number_of_classes m) target_class rs with
  | Some (negative, rs') => Ok (negative, mkWorld rs' m)
  | None => Starved
  end.


End Sampling.

Section Dropout.

Context {P : Platform} {E : Engine}.

(** The two dropout masks of an engine have as many words as the loops
    of [mc_tm_fit] clear: one per clause chunk and one per automaton
    chunk. *)
Definition masks_fit (tm : TsetlinMachine) : Prop :=
  Z.of_nat (length (TM.drop_clause tm)) = TM.number_of_clause_chunks tm /\
  Z.of_nat (length (TM.drop_literal tm)) = TM.number_of_ta_chunks tm.

(** Training an engine leaves the extent of its masks alone. *)
Definition update_keeps_masks : Prop :=
  forall tm Xi pos target rs,
    masks_fit tm -> masks_fit (fst (tm_update tm Xi pos target rs)).

Definition shaped (w : world) : Prop :=
  well_formed w /\ Forall masks_fit (machines w).

(** Both masks of the engine are entirely zero. *)
Definition dropout_off (tm : TsetlinMachine) : Prop :=
  Forall (fun word => word = 0) (TM.drop_clause tm) /\
  Forall (fun word => word = 0) (TM.drop_literal tm).

(** The run [c] keeps the property [Inv] of the state whenever it ends
    normally. *)
Definition keeps {A} (Inv : world -> Prop) (c : Run A) : Prop :=
  forall w, Inv w -> ensures c w (fun _ w' => Inv w').

End Dropout.

Section TransformSpecification.

Context {P : Platform} {E : Engine}.

(** The offset of example [l] as [mc_tm_transform] steps it, in
    [unsigned long] arithmetic. *)
Definition transform_pos (m : MultiClassTsetlinMachine) (l : nat) : Z :=
  to_ulong (Z.of_nat l * to_uint (number_of_patches m * number_of_ta_chunks m)).

(** The bit of clause [j] in the packed [clause_output] of the engine. *)
Definition clause_fires (tm : TsetlinMachine) (j : Z) : bool :=
  Z.testbit (default 0 (TM.clause_output tm !! Z.to_nat (j `div` 32))) (j `mod` 32).

(** 1 exactly when the clause bit differs from [invert], read as a
    truth value. *)
Definition emitted (fires : bool) (invert : Z) : Z :=
  if xorb fires (truth invert) then 1 else 0.

(** The entries of one engine, in clause order. *)
Definition cells (invert : Z) (tm : TsetlinMachine) : list Z :=
  (fun j => emitted (clause_fires tm j) invert) <$> seqZ 0 (TM.number_of_clauses tm).

(** The row of example [l]: the entries of every class, in class order,
    each engine having just scored example [l]. *)
Definition row (engines : list TsetlinMachine) (X : list Z) (pos : nat -> Z)
    (invert : Z) (l : nat) : list Z :=
  mjoin ((fun tm => cells invert (scored tm X pos (S l))) <$> engines).

(** The rows of the first [n] examples, in example order. *)
Definition rows (engines : list TsetlinMachine) (X : list Z) (pos : nat -> Z)
    (invert : Z) (n : nat) : list Z :=
  mjoin (row engines X pos invert <$> seq 0 n).

(** The engine has [number_of_clauses] clauses and its [clause_output]
    has a bit for each of them. *)
Definition holds_clauses (number_of_clauses : Z) (tm : TsetlinMachine) : Prop :=
  TM.number_of_clauses tm = number_of_clauses /\
  number_of_clauses <= 32 * Z.of_nat (length (TM.clause_output tm)).

(** Scoring changes neither the number of clauses of an engine nor the
    extent of its [clause_output]. *)
Definition score_keeps_clauses (number_of_clauses : Z) : Prop :=
  forall tm X pos,
    holds_clauses number_of_clauses tm ->
    holds_clauses number_of_clauses (fst (tm_score tm X pos)).

(** The output buffer and the running index once [written] has been
    emitted over the front of [X_transformed]. *)
Definition emitted_so_far (X_transformed written : list Z) (out : list Z * Z) : Prop :=
  fst out = written ++ drop (length written) X_transformed /\
  snd out = Z.of_nat (length written).

End TransformSpecification.

Section StateTransfer.

Context {P : Platform} {E : Engine}.

(** The automaton state and the clause weights of the engine have the
    extents that the state accessors copy. *)
Definition state_fits (tm : TsetlinMachine) : Prop :=
  Z.of_nat (length (TM.ta_state tm))
    = Z.max 0 (TM.number_of_clauses tm * TM.number_of_ta_chunks tm * TM.number_of_state_bits tm) /\
  Z.of_nat (length (TM.clause_weights tm)) = Z.max 0 (TM.number_of_clauses tm).

(** Two engines of one configuration.  [TM.rest] stands for every other
    member of the engine, the arguments of [CreateTsetlinMachine] among
    them and whatever else the engine keeps and may change as it trains
    or scores; [hyperparameters] picks from it the members that creation
    fixes. *)
Definition same_configuration (hyperparameters : list Z -> list Z)
    (tm1 tm2 : TsetlinMachine) : Prop :=
  TM.number_of_clauses tm1 = TM.number_of_clauses tm2 /\
  TM.number_of_clause_chunks tm1 = TM.number_of_clause_chunks tm2 /\
  TM.number_of_features tm1 = TM.number_of_features tm2 /\
  TM.number_of_ta_chunks tm1 = TM.number_of_ta_chunks tm2 /\
  TM.number_of_state_bits tm1 = TM.number_of_state_bits tm2 /\
  hyperparameters (TM.rest tm1) = hyperparameters (TM.rest tm2).

(** The dropout masks of the two engines hold the same. *)
Definition same_masks (tm1 tm2 : TsetlinMachine) : Prop :=
  TM.drop_clause tm1 = TM.drop_clause tm2 /\
  TM.drop_literal tm1 = TM.drop_literal tm2.

(** Two engines of one configuration that have learned the same and
    drop the same. *)
Definition alike (hyperparameters : list Z -> list Z)
    (tm1 tm2 : TsetlinMachine) : Prop :=
  same_configuration hyperparameters tm1 tm2 /\
  TM.ta_state tm1 = TM.ta_state tm2 /\
  TM.clause_weights tm1 = TM.clause_weights tm2 /\
  same_masks tm1 tm2.

(** Modelled from the spec: what [tm_score] reads is defined in
    ConvolutionalTsetlinMachine.c, not at hand.  The spec has the engine
    own "automaton state and clause weights for one class" besides its
    configuration and its dropout masks, has [clause_output] "populated
    as a side effect of score", and gives scoring "no training side
    effects": the score of an example is decided by the configuration,
    the automaton state, the clause weights and the dropout masks, and
    scoring leaves those as they are.  What else the engine keeps, the
    clause outputs of the last example among it, has no part in the
    score. *)
Definition score_reads_learned_state (hyperparameters : list Z -> list Z) : Prop :=
  forall tm1 tm2 X pos,
    alike hyperparameters tm1 tm2 ->
    snd (tm_score tm1 X pos) = snd (tm_score tm2 X pos) /\
    alike hyperparameters (fst (tm_score tm1 X pos)) (fst (tm_score tm2 X pos)).

(** Modelled from the spec: the round trip of its testable properties.
    The caller reads the state of [class] out of the ensemble [source]
    with [mc_tm_get_state], into buffers of the sizes that the spec
    prescribes, and writes it into the same class of the running ensemble
    with [mc_tm_set_state]. *)
Definition transfer_state (source : world) (class : Z) : Run unit :=
  fun w =>
    match tm_at class source with
    | Ok (tm, _) =>
        let clause_weights := replicate (Z.to_nat (TM.number_of_clauses tm)) 0 in
        let ta_state :=
          replicate
            (Z.to_nat (TM.number_of_clauses tm * TM.number_of_ta_chunks tm
                       * TM.number_of_state_bits tm)) 0 in
        match mc_tm_get_state class clause_weights ta_state source with
        | Ok ((clause_weights, ta_state), _) =>
            mc_tm_set_state class clause_weights ta_state w
        | Undefined f => Undefined f
        | Starved => Starved
        end
    | Undefined f => Undefined f
    | Starved => Starved
    end.

(** The class ids that [mc_tm_predict] writes, or nothing if the run
    does not end normally. *)
Definition predictions (X y : list Z) (number_of_examples : Z) (w : world)
    : option (list Z) :=
  match mc_tm_predict X y number_of_examples w with
  | Ok (y', _) => Some y'
  | _ => None
  end.

End StateTransfer.

(** ** The inspection functions, lines 219-236 *)

(** The two inspection functions of ConvolutionalTsetlinMachine.c that
    the multiclass layer forwards to.  Both read the engine and return an
    [int]. *)
Class EngineInspection : Type := {
  tm_ta_state : TsetlinMachine -> Z -> Z -> Z;
  tm_ta_action : TsetlinMachine -> Z -> Z -> Z
}.

Section Inspection.

Context {P : Platform} {E : Engine} {I : EngineInspection}.

(** Lines 219-222. *)
Definition mc_tm_ta_state (class clause ta : Z) : Run Z :=
  let* tm := tm_at class in ret (tm_ta_state tm clause ta).

(** Lines 224-227. *)
Definition mc_tm_ta_action (class clause ta : Z) : Run Z :=
  let* tm := tm_at class in ret (tm_ta_action tm clause ta).

(** Lines 229-236.  The [int] that [tm_ta_action] returns is stored in an
    [unsigned int]. *)
Definition mc_tm_clause_configuration (class clause : Z) (clause_configuration : list Z)
    : Run (list Z) :=
  let* tm := tm_at class in
  for_loop 0 (TM.number_of_features tm) (fun k clause_configuration =>
    let* tm := tm_at class in
    store clause_configuration k (to_uint (tm_ta_action tm clause k)))
    clause_configuration.

End Inspection.

Section MoreNotions.

Context {P : Platform} {E : Engine}.

(** What no function of the layer is meant to change once the ensemble
    is created: the hyperparameters and the number of engines. *)
Definition header (w : world)
    : Z * nat * Z * Z * Z * Z * Z :=
  (number_of_classes (mc_tm w), length (machines w), number_of_patches (mc_tm w),
   number_of_ta_chunks (mc_tm w), number_of_state_bits (mc_tm w),
   clause_drop_p (mc_tm w), literal_drop_p (mc_tm w)).

(** Bit [j] of a packed mask: bit [j mod 32] of word [j / 32]. *)
Definition mask_bit (mask : list Z) (j : Z) : bool :=
  Z.testbit (default 0 (mask !! Z.to_nat (j `div` 32))) (j `mod` 32).

(** Whether draw number [j] of [rs] passes the dropout test against the
    probability [p]. *)
Definition dropped (p : Z) (rs : list Z) (j : Z) : bool :=
  match rs !! Z.to_nat j with
  | Some r => float_ratio_lt r p
  | None => false
  end.

(** Every word of a mask is an [unsigned int]. *)
Definition words (mask : list Z) : Prop := Forall (fun v => 0 <= v < 2 ^ 32) mask.

(** From every state the run [c] either ends normally or reads or writes
    out of bounds: it fails in no other way and never waits for a draw. *)
Definition only_out_of_bounds {S A} (c : M S A) : Prop :=
  forall s,
    match c s with
    | Ok _ => True
    | Undefined f => f = OutOfBounds
    | Starved => False
    end.

End MoreNotions.

(** ** The toy engine, inspected *)

Module ToyInspection.

(** The state of automaton [ta] of a clause is the weight of the clause
    plus [ta], and its action is the parity of that state. *)
Definition ta_state (tm : TsetlinMachine) (clause ta : Z) : Z :=
  default 0 (TM.clause_weights tm !! Z.to_nat clause) + ta.

Definition ta_action (tm : TsetlinMachine) (clause ta : Z) : Z :=
  Z.b2z (Z.odd (ta_state tm clause ta)).

Definition inspection : EngineInspection := {|
  tm_ta_state := ta_state;
  tm_ta_action := ta_action
|}.

(** One class, as [CreateMultiClassTsetlinMachine] and [mc_tm_initialize]
    leave it. *)
Definition single (rs : list Z) : world :=
  mkWorld rs
    (mkMC 1 [Toy.initialize (Toy.Create 4 2 1 1 2 10 0 0 0 0)] 1 1 2
       Glibc.half_f Glibc.zero_f).

End ToyInspection.

(** ** A second engine to run the model on *)

(** A stand-in engine that keeps more than it learns and that scores
    under its masks: behind the six creation arguments, [rest] holds a
    count of the updates of the engine, and a clause whose bit is set in
    [drop_clause] has no vote in the score. *)
Module Masked.

Definition Create (number_of_clauses number_of_features number_of_patches
    number_of_ta_chunks number_of_state_bits T s s_range
    boost_true_positive_feedback weighted_clauses : Z) : TsetlinMachine :=
  TM.mk number_of_clauses (Toy.chunks number_of_clauses) number_of_features
    number_of_ta_chunks number_of_state_bits
    (replicate (Z.to_nat (number_of_clauses * number_of_ta_chunks * number_of_state_bits)) 0)
    (replicate (Z.to_nat number_of_clauses) 0)
    (replicate (Z.to_nat (Toy.chunks number_of_clauses)) 0)
    (replicate (Z.to_nat (Toy.chunks number_of_clauses)) 0)
    (replicate (Z.to_nat number_of_ta_chunks) 0)
    [number_of_patches; T; s; s_range; boost_true_positive_feedback; weighted_clauses; 0].

Definition hyperparameters (rest : list Z) : list Z := take 6 rest.

Definition set_rest (v : list Z) (tm : TsetlinMachine) : TsetlinMachine :=
  TM.mk (TM.number_of_clauses tm) (TM.number_of_clause_chunks tm)
    (TM.number_of_features tm) (TM.number_of_ta_chunks tm)
    (TM.number_of_state_bits tm) (TM.ta_state tm) (TM.clause_weights tm)
    (TM.clause_output tm) (TM.drop_clause tm) (TM.drop_literal tm) v.

Fixpoint votes (j : Z) (x : Z) (mask : list Z) (weights : list Z) : Z :=
  match weights with
  | [] => 0
  | w :: weights' =>
      (if Z.testbit x (j `mod` 32) && negb (mask_bit mask j) then w else 0)
      + votes (j + 1) x mask weights'
  end.

Definition score (tm : TsetlinMachine) (X : list Z) (pos : Z) : TsetlinMachine * Z :=
  let x := default 0 (X !! Z.to_nat pos) in
  (Toy.set_clause_output (replicate (length (TM.clause_output tm)) x) tm,
   votes 0 x (TM.drop_clause tm) (TM.clause_weights tm)).

Definition update (tm : TsetlinMachine) (X : list Z) (pos target : Z) (rs : list Z)
    : TsetlinMachine * list Z :=
  (set_rest (hyperparameters (TM.rest tm) ++ [default 0 (TM.rest tm !! 6%nat) + 1])
     (TM.set_clause_weights
        ((fun w => if target =? 1 then w + 1 else Z.max 0 (w - 1)) <$> TM.clause_weights tm)
        tm),
   tail rs).

Definition engine : Engine := {|
  CreateTsetlinMachine := Create;
  tm_initialize := Toy.initialize;
  tm_score := score;
  tm_update := update
|}.

(** Three classes, four clauses each, as creation and initialisation
    leave them. *)
Definition machine : MultiClassTsetlinMachine :=
  mkMC 3 (replicate 3 (Toy.initialize (Create 4 2 1 1 2 10 0 0 0 0))) 1 1 2
    Glibc.half_f Glibc.zero_f.

Definition start (rs : list Z) : world := mkWorld rs machine.

(** The engine of a class with the clause weight [weight] after
    [updates] updates. *)
Definition learned (weight updates : Z) : TsetlinMachine :=
  set_rest [1; 10; 0; 0; 0; 0; updates]
    (TM.set_clause_weights (replicate 4 weight)
       (Toy.initialize (Create 4 2 1 1 2 10 0 0 0 0))).

(** The ensemble after one update towards class 2, see
    [Masked_trained_by_update]. *)
Definition trained (rs : list Z) : world :=
  mkWorld rs (set_tsetlin_machines [learned 0 1; learned 1 0; learned 2 1] machine).

(** The trained ensemble with every clause of class 2 left masked. *)
Definition stale (rs : list Z) : world :=
  mkWorld rs
    (set_tsetlin_machines
       [learned 0 1; learned 1 0; TM.set_drop_clause [15] (learned 2 1)] machine).

End Masked.

Section CountingNotions.

Context {P : Platform} {E : Engine}.

(** The state has the class count [nc] and each of its engines has
    [ncl] clauses. *)
Definition fit_for (nc ncl : Z) (w : world) : Prop :=
  number_of_classes (mc_tm w) = nc /\
  Forall (holds_clauses ncl) (machines w).

(** The buffer of [room] entries and the running index of
    [mc_tm_transform] once [count] entries have been written. *)
Definition counted (room count : Z) (out : list Z * Z) : Prop :=
  Z.of_nat (length (fst out)) = room /\ snd out = count /\ count <= room.

End CountingNotions.

(** * Reasoning about runs *)

Section Rules.

Context {S : Type}.

Lemma bind_Ok {A B} (c : M S A) (k : A -> M S B) s r :
  bind c k s = Ok r <-> exists a s', c s = Ok (a, s') /\ k a s' = Ok r.
Proof.
  unfold bind. split.
  - destruct (c s) as [[a s']| |]; try discriminate. eauto.
  - intros (a & s' & -> & Hk). exact Hk.
Qed.

Lemma bind_ext {A B} (c : M S A) (k1 k2 : A -> M S B) s :
  (forall a s', k1 a s' = k2 a s') -> bind c k1 s = bind c k2 s.
Proof. intros Hk. unfold bind. destruct (c s) as [[a s']| |]; auto. Qed.

Lemma bind_assoc {A B C} (c : M S A) (k : A -> M S B) (k' : B -> M S C) s :
  bind (bind c k) k' s = bind c (fun a => bind (k a) k') s.
Proof. unfold bind. destruct (c s) as [[a s']| |]; auto. Qed.

Lemma for_range_add {A} (n m : nat) i (body : Z -> A -> M S A) a s :
  for_range (n + m) i body a s =
  bind (for_range n i body a) (fun a' => for_range m (i + Z.of_nat n) body a') s.
Proof.
  revert i a s. induction n as [|n IH]; intros i a s.
  - simpl. unfold bind, ret. by rewrite Z.add_0_r.
  - change (for_range (Datatypes.S n + m) i body a s)
      with (bind (body i a) (fun a' => for_range (n + m) (i + 1) body a') s).
    change (for_range (Datatypes.S n) i body a)
      with (bind (body i a) (fun a' => for_range n (i + 1) body a')).
    rewrite bind_assoc. apply bind_ext. intros a' s'.
    rewrite IH. apply bind_ext. intros a'' s''. f_equal. lia.
Qed.

Lemma for_pos_range {A} (p : positive) i (body : Z -> A -> M S A) a s :
  for_pos p i body a s = for_range (Pos.to_nat p) i body a s.
Proof.
  revert i a s. induction p as [p IH|p IH|]; intros i a s.
  - rewrite Pos2Nat.inj_xI.
    replace (Datatypes.S (2 * Pos.to_nat p)) with (1 + (Pos.to_nat p + Pos.to_nat p))%nat by lia.
    change (for_range (1 + (Pos.to_nat p + Pos.to_nat p)) i body a s)
      with (bind (body i a)
              (fun a' => for_range (Pos.to_nat p + Pos.to_nat p) (i + 1) body a') s).
    simpl for_pos. apply bind_ext. intros a' s'.
    rewrite for_range_add. unfold bind. rewrite IH.
    destruct (for_range (Pos.to_nat p) (i + 1) body a' s') as [[a'' s'']| |]; auto.
    rewrite IH. f_equal. lia.
  - rewrite Pos2Nat.inj_xO.
    replace (2 * Pos.to_nat p)%nat with (Pos.to_nat p + Pos.to_nat p)%nat by lia.
    rewrite for_range_add. simpl for_pos. unfold bind. rewrite IH.
    destruct (for_range (Pos.to_nat p) i body a s) as [[a' s']| |]; auto.
    rewrite IH. f_equal. lia.
  - simpl. unfold bind, ret. destruct (body i a s) as [[a' s']| |]; auto.
Qed.

Lemma for_loop_range {A} lo hi (body : Z -> A -> M S A) a s :
  for_loop lo hi body a s = for_range (Z.to_nat (hi - lo)) lo body a s.
Proof.
  unfold for_loop. destruct (hi - lo) as [|p|p]; try reflexivity.
  rewrite for_pos_range. by rewrite Z2Nat.inj_pos.
Qed.

Lemma for_loop_empty {A} lo hi (body : Z -> A -> M S A) a s :
  hi <= lo -> for_loop lo hi body a s = Ok (a, s).
Proof.
  intros Hle. rewrite for_loop_range.
  replace (Z.to_nat (hi - lo)) with 0%nat by lia. reflexivity.
Qed.

Lemma for_loop_first {A} lo hi (body : Z -> A -> M S A) a s :
  lo < hi ->
  for_loop lo hi body a s = bind (body lo a) (fun a' => for_loop (lo + 1) hi body a') s.
Proof.
  intros Hlt. rewrite for_loop_range.
  replace (Z.to_nat (hi - lo)) with (Datatypes.S (Z.to_nat (hi - (lo + 1)))) by lia.
  simpl. apply bind_ext. intros a' s'. by rewrite for_loop_range.
Qed.

Lemma for_loop_last {A} lo hi (body : Z -> A -> M S A) a s :
  lo < hi ->
  for_loop lo hi body a s = bind (for_loop lo (hi - 1) body a) (body (hi - 1)) s.
Proof.
  intros Hlt. rewrite for_loop_range.
  replace (Z.to_nat (hi - lo)) with (Z.to_nat (hi - 1 - lo) + 1)%nat by lia.
  rewrite for_range_add. unfold bind. rewrite <- for_loop_range.
  destruct (for_loop lo (hi - 1) body a s) as [[a' s']| |]; auto.
  simpl. unfold bind, ret.
  replace (lo + Z.of_nat (Z.to_nat (hi - 1 - lo))) with (hi - 1) by lia.
  destruct (body (hi - 1) a' s') as [[a'' s'']| |]; auto.
Qed.

(** [returns c s Q]: from [s] the run [c] ends normally, in a value and
    a state that satisfy [Q].  [ensures c s Q]: if it ends normally, they
    satisfy [Q]. *)

Lemma returns_ret {A} (a : A) (s : S) (Q : A -> S -> Prop) :
  Q a s -> returns (ret a) s Q.
Proof. intros HQ. exists a, s. auto. Qed.

Lemma returns_bind {A B} (c : M S A) (k : A -> M S B) s (Q : B -> S -> Prop) :
  returns c s (fun a s' => returns (k a) s' Q) -> returns (bind c k) s Q.
Proof.
  intros (a & s' & Hc & b & s'' & Hk & HQ). exists b, s''. split; [|done].
  apply bind_Ok. eauto.
Qed.

Lemma returns_mono {A} (c : M S A) s (Q Q' : A -> S -> Prop) :
  returns c s Q -> (forall a s', Q a s' -> Q' a s') -> returns c s Q'.
Proof. intros (a & s' & Hc & HQ) Himp. exists a, s'. auto. Qed.

Lemma returns_for_range {A} (I : Z -> A -> S -> Prop) n i (body : Z -> A -> M S A) a s :
  I i a s ->
  (forall k a s, i <= k < i + Z.of_nat n -> I k a s -> returns (body k a) s (I (k + 1))) ->
  returns (for_range n i body a) s (I (i + Z.of_nat n)).
Proof.
  revert i a s. induction n as [|n IH]; intros i a s Hi Hbody.
  - simpl. apply returns_ret. by rewrite Z.add_0_r.
  - simpl for_range. apply returns_bind.
    eapply returns_mono; [apply Hbody; [lia|done]|].
    intros a' s' Hi'. simpl in Hi'.
    replace (i + Z.of_nat (Datatypes.S n)) with (i + 1 + Z.of_nat n) by lia.
    apply IH; [done|]. intros k a0 s0 Hk. apply Hbody. lia.
Qed.

Lemma returns_for_loop {A} (I : Z -> A -> S -> Prop) lo hi (body : Z -> A -> M S A) a s :
  lo <= hi ->
  I lo a s ->
  (forall k a s, lo <= k < hi -> I k a s -> returns (body k a) s (I (k + 1))) ->
  returns (for_loop lo hi body a) s (I hi).
Proof.
  intros Hle Hi Hbody.
  pose proof (returns_for_range I (Z.to_nat (hi - lo)) lo body a s Hi) as Hr.
  replace (lo + Z.of_nat (Z.to_nat (hi - lo))) with hi in Hr by lia.
  unfold returns in *. rewrite for_loop_range. apply Hr.
  intros k a0 s0 Hk. apply Hbody. lia.
Qed.

Lemma ensures_ret {A} (a : A) (s : S) (Q : A -> S -> Prop) :
  Q a s -> ensures (ret a) s Q.
Proof. intros HQ a' s' [= <- <-]. done. Qed.

Lemma ensures_bind {A B} (c : M S A) (k : A -> M S B) s (Q : B -> S -> Prop) :
  ensures c s (fun a s' => ensures (k a) s' Q) -> ensures (bind c k) s Q.
Proof.
  intros Hc b s'' (a & s' & Ha & Hk)%bind_Ok. exact (Hc a s' Ha b s'' Hk).
Qed.

Lemma ensures_mono {A} (c : M S A) s (Q Q' : A -> S -> Prop) :
  ensures c s Q -> (forall a s', Q a s' -> Q' a s') -> ensures c s Q'.
Proof. intros Hc Himp a s' Ha. auto. Qed.

Lemma ensures_for_range {A} (I : Z -> A -> S -> Prop) n i (body : Z -> A -> M S A) a s :
  I i a s ->
  (forall k a s, i <= k < i + Z.of_nat n -> I k a s -> ensures (body k a) s (I (k + 1))) ->
  ensures (for_range n i body a) s (I (i + Z.of_nat n)).
Proof.
  revert i a s. induction n as [|n IH]; intros i a s Hi Hbody.
  - simpl. apply ensures_ret. by rewrite Z.add_0_r.
  - simpl for_range. apply ensures_bind.
    eapply ensures_mono; [apply Hbody; [lia|done]|].
    intros a' s' Hi'. simpl in Hi'.
    replace (i + Z.of_nat (Datatypes.S n)) with (i + 1 + Z.of_nat n) by lia.
    apply IH; [done|]. intros k a0 s0 Hk. apply Hbody. lia.
Qed.

Lemma ensures_for_loop {A} (I : Z -> A -> S -> Prop) lo hi (body : Z -> A -> M S A) a s :
  lo <= hi ->
  I lo a s ->
  (forall k a s, lo <= k < hi -> I k a s -> ensures (body k a) s (I (k + 1))) ->
  ensures (for_loop lo hi body a) s (I hi).
Proof.
  intros Hle Hi Hbody.
  pose proof (ensures_for_range I (Z.to_nat (hi - lo)) lo body a s Hi) as Hr.
  replace (lo + Z.of_nat (Z.to_nat (hi - lo))) with hi in Hr by lia.
  intros a' s'. rewrite for_loop_range. apply Hr.
  intros k a0 s0 Hk. apply Hbody. lia.
Qed.

Lemma returns_load {A} (l : list A) i x (s : S) (Q : A -> S -> Prop) :
  0 <= i -> l !! Z.to_nat i = Some x -> Q x s -> returns (load l i) s Q.
Proof.
  intros Hi Hl HQ. unfold load. rewrite decide_True by done. rewrite Hl.
  by apply returns_ret.
Qed.

Lemma returns_store {A} (l : list A) i v (s : S) (Q : list A -> S -> Prop) :
  0 <= i < Z.of_nat (length l) -> Q (<[Z.to_nat i := v]> l) s -> returns (store l i v) s Q.
Proof.
  intros Hi HQ. unfold store. rewrite decide_True by done. by apply returns_ret.
Qed.

Lemma load_Ok {A} (l : list A) i (s : S) r :
  load l i s = Ok r <-> 0 <= i /\ l !! Z.to_nat i = Some (fst r) /\ snd r = s.
Proof.
  unfold load. destruct r as [x s']. simpl. case_decide.
  - destruct (l !! Z.to_nat i) as [x'|]; unfold ret, crash; split.
    + intros [= -> ->]. auto.
    + intros (_ & [= ->] & ->). done.
    + discriminate.
    + intros (_ & [=] & _).
  - unfold crash. split; [discriminate|]. intros (? & _). lia.
Qed.

Lemma store_Ok {A} (l : list A) i v (s : S) r :
  store l i v s = Ok r <->
  0 <= i < Z.of_nat (length l) /\ fst r = <[Z.to_nat i := v]> l /\ snd r = s.
Proof.
  unfold store. destruct r as [l' s']. simpl. case_decide; unfold ret, crash; split.
  - intros [= <- <-]. auto.
  - intros (_ & -> & ->). done.
  - discriminate.
  - intros (? & _). lia.
Qed.

End Rules.

(** * The program *)

Section Shuffle.

Context {P : Platform} {E : Engine}.

Lemma to_size_t_small z : 0 <= z < 2 ^ 64 -> to_size_t z = z.
Proof. intros Hz. unfold to_size_t. by apply Z.mod_small. Qed.

Lemma to_uint_small z : 0 <= z < 2 ^ 32 -> to_uint z = z.
Proof. intros Hz. unfold to_uint. by apply Z.mod_small. Qed.

Lemma to_ulong_small z : 0 <= z < 2 ^ 64 -> to_ulong z = z.
Proof. intros Hz. unfold to_ulong. by apply Z.mod_small. Qed.

(** ** The index array and its shuffle *)

(** The divisor of line 141 keeps the swap partner inside the array. *)
Lemma shuffle_partner_in_range (rand_max m r : Z) :
  0 <= rand_max -> 0 < m -> 0 <= r <= rand_max ->
  0 <= r `div` (rand_max `div` m + 1) < m.
Proof.
  intros Hmax Hm Hr.
  assert (0 <= rand_max `div` m) by (apply Z.div_pos; lia).
  split; [apply Z.div_pos; lia|].
  apply Z.div_lt_upper_bound; [lia|].
  pose proof (Z.div_mod rand_max m ltac:(lia)) as Hdm.
  pose proof (Z.mod_pos_bound rand_max m Hm). nia.
Qed.

Lemma index_initialised (n : Z) (w : world) :
  for_loop 0 n (fun i index => store index i i) (replicate (Z.to_nat n) 0) w
  = Ok (seqZ 0 n, w).
Proof.
  destruct (decide (n <= 0)) as [Hn|Hn].
  { rewrite for_loop_empty by done. rewrite seqZ_nil by done.
    by replace (Z.to_nat n) with 0%nat by lia. }
  pose (I := fun (i : Z) (index : list Z) (w' : world) =>
    index = seqZ 0 i ++ replicate (Z.to_nat (n - i)) 0 /\ w' = w).
  destruct (returns_for_loop I 0 n (fun i index => store index i i)
              (replicate (Z.to_nat n) 0) w) as (index & w' & Hrun & Hindex & ->).
  - lia.
  - split; [|done]. by rewrite Z.sub_0_r.
  - intros i index w' Hi [-> ->]. apply returns_store.
    + rewrite length_app, length_seqZ, length_replicate. lia.
    + split; [|done].
      replace (Z.to_nat i) with (length (seqZ 0 i) + 0)%nat
        by (rewrite length_seqZ; lia).
      rewrite insert_app_r.
      replace (Z.to_nat (n - i)) with (Datatypes.S (Z.to_nat (n - (i + 1)))) by lia.
      simpl. rewrite (seqZ_app 0 i 1), <- app_assoc by lia.
      rewrite (seqZ_cons (0 + i) 1), (seqZ_nil _ (Z.pred 1)) by lia. by rewrite Z.add_0_l.
  - rewrite Hrun. rewrite Hindex, Z.sub_diag. simpl. by rewrite app_nil_r.
Qed.

Lemma shuffle_permutes (array : list Z) (n : Z) (w : world) :
  0 <= RAND_MAX < 2 ^ 64 ->
  1 <= n < 2 ^ 64 ->
  Z.of_nat (length array) = n ->
  n - 1 <= Z.of_nat (length (draws w)) ->
  Forall (fun r => 0 <= r <= RAND_MAX) (draws w) ->
  returns (shuffle array n) w (fun array' w' =>
    array' ≡ₚ array /\
    draws w' = drop (Z.to_nat (n - 1)) (draws w) /\
    mc_tm w' = mc_tm w).
Proof.
  intros Hmax Hn Hlen Hdraws Hvalid. unfold shuffle.
  rewrite (to_size_t_small (n - 1)) by lia.
  pose (I := fun (i : Z) (array' : list Z) (w' : world) =>
    array' ≡ₚ array /\ draws w' = drop (Z.to_nat i) (draws w) /\ mc_tm w' = mc_tm w).
  apply (returns_for_loop I); [lia|by repeat split|].
  intros i array' w' Hi (Hperm & Hrs & Hmc).
  assert (Hlen' : Z.of_nat (length array') = n) by (by rewrite Hperm).
  destruct (lookup_lt_is_Some_2 (draws w) (Z.to_nat i)) as [r Hr]; [lia|].
  assert (Hr' : 0 <= r <= RAND_MAX).
  { eapply (proj1 (Forall_lookup _ _) Hvalid); eauto. }
  apply returns_bind. exists r, (mkWorld (drop (Z.to_nat (i + 1)) (draws w)) (mc_tm w')).
  split.
  { unfold rand. rewrite Hrs. rewrite (drop_S _ r) by done.
    by replace (Z.to_nat (i + 1)) with (Datatypes.S (Z.to_nat i)) by lia. }
  rewrite (to_size_t_small (n - i)) by lia.
  rewrite decide_False by lia.
  rewrite (to_size_t_small RAND_MAX) by lia.
  rewrite (to_size_t_small r) by lia.
  assert (Hj : 0 <= r `div` (RAND_MAX `div` (n - i) + 1) < n - i)
    by (apply shuffle_partner_in_range; lia).
  assert (0 <= RAND_MAX `div` (n - i) < 2 ^ 64 - 1).
  { split; [apply Z.div_pos; lia|].
    apply Z.div_lt_upper_bound; [lia|]. nia. }
  rewrite (to_size_t_small (RAND_MAX `div` (n - i) + 1)) by lia.
  rewrite decide_False by lia.
  set (q := r `div` (RAND_MAX `div` (n - i) + 1)) in *.
  rewrite (to_size_t_small (i + q)) by lia.
  destruct (lookup_lt_is_Some_2 array' (Z.to_nat (i + q))) as [t Ht]; [lia|].
  destruct (lookup_lt_is_Some_2 array' (Z.to_nat i)) as [a_i Hai]; [lia|].
  apply returns_bind, (returns_load _ _ t); [lia|done|].
  apply returns_bind, (returns_load _ _ a_i); [lia|done|].
  apply returns_bind, returns_store; [lia|].
  apply returns_store; [rewrite length_insert; lia|].
  split; [|by split].
  etrans; [|exact Hperm]. by apply Permutation_insert_swap.
Qed.

(** C4.  The index array that [mc_tm_fit] fills is 0, 1, ...,
    [number_of_examples - 1].  For at least one example, on that array and
    on every rearrangement of it that an earlier epoch has left,
    [shuffle] returns, for every sequence of draws in the range of
    [rand()] that is long enough for its [number_of_examples - 1] turns:
    the array it leaves is a permutation of [0, number_of_examples), so
    every index of that range occurs in it exactly once and nothing else
    does. *)
Theorem shuffle_yields_permutation
    (number_of_examples : Z) (index : list Z) (w : world) :
  0 < RAND_MAX < 2 ^ 31 ->
  1 <= number_of_examples < 2 ^ 31 ->
  index ≡ₚ seqZ 0 number_of_examples ->
  number_of_examples - 1 <= Z.of_nat (length (draws w)) ->
  Forall valid_draw (draws w) ->
  for_loop 0 number_of_examples (fun i index => store index i i)
    (replicate (Z.to_nat number_of_examples) 0) w
  = Ok (seqZ 0 number_of_examples, w) /\
  returns (shuffle index (to_size_t number_of_examples)) w (fun index' w' =>
    index' ≡ₚ seqZ 0 number_of_examples /\
    Z.of_nat (length index') = number_of_examples /\
    (forall k, 0 <= k < number_of_examples -> count_occ Z.eq_dec index' k = 1%nat) /\
    (forall k, k ∈ index' -> 0 <= k < number_of_examples) /\
    draws w' = drop (Z.to_nat (number_of_examples - 1)) (draws w) /\
    mc_tm w' = mc_tm w).
Proof.
  intros Hmax Hn Hperm Hdraws Hvalid. split; [apply index_initialised|].
  rewrite to_size_t_small by lia.
  assert (Hlen : Z.of_nat (length index) = number_of_examples).
  { rewrite Hperm, length_seqZ. lia. }
  eapply returns_mono.
  - apply shuffle_permutes; try done; lia.
  - intros index' w' (Hperm' & Hrs & Hmc). cbv beta.
    assert (Hp : index' ≡ₚ seqZ 0 number_of_examples) by (by etrans).
    repeat split; try done.
    + rewrite Hp, length_seqZ. lia.
    + intros k Hk.
      rewrite (proj1 (Permutation.Permutation_count_occ Z.eq_dec _ _) Hp).
      apply (proj1 (NoDup_count_occ' Z.eq_dec _)
               (proj1 (NoDup_ListNoDup _) (NoDup_seqZ 0 number_of_examples))).
      apply list_elem_of_In, elem_of_seqZ. lia.
    + rewrite Hp, elem_of_seqZ in H. lia.
    + rewrite Hp, elem_of_seqZ in H. lia.
Qed.

End Shuffle.

(** ** Access to the engines *)

Section Machines.

Context {P : Platform} {E : Engine}.

Lemma machines_with_machines l w : machines (with_machines l w) = l.
Proof. reflexivity. Qed.

Lemma with_machines_twice l l' w :
  with_machines l (with_machines l' w) = with_machines l w.
Proof. reflexivity. Qed.

Lemma with_machines_same w : with_machines (machines w) w = w.
Proof. by destruct w as [rs []]. Qed.

Lemma tm_at_Ok i w tm :
  0 <= i -> machines w !! Z.to_nat i = Some tm -> tm_at i w = Ok (tm, w).
Proof.
  intros Hi Htm. unfold tm_at, load. rewrite decide_True by done.
  fold (machines w). by rewrite Htm.
Qed.

Lemma tm_at_inv i w tm w' :
  tm_at i w = Ok (tm, w') -> 0 <= i /\ machines w !! Z.to_nat i = Some tm /\ w' = w.
Proof. unfold tm_at. by intros ?%load_Ok. Qed.

Lemma set_tm_Ok i tm w :
  0 <= i < Z.of_nat (length (machines w)) ->
  set_tm i tm w = Ok (tt, with_machines (<[Z.to_nat i := tm]> (machines w)) w).
Proof.
  intros Hi. unfold set_tm, store. fold (machines w). by rewrite decide_True by done.
Qed.

Lemma set_tm_inv i tm w u w' :
  set_tm i tm w = Ok (u, w') ->
  0 <= i < Z.of_nat (length (machines w)) /\
  w' = with_machines (<[Z.to_nat i := tm]> (machines w)) w.
Proof.
  unfold set_tm, store. fold (machines w). case_decide; [|discriminate].
  intros [= <- <-]. done.
Qed.

Lemma tm_score_at_Ok i X pos w tm :
  0 <= i -> machines w !! Z.to_nat i = Some tm ->
  tm_score_at i X pos w =
  Ok (snd (tm_score tm X pos),
      with_machines (<[Z.to_nat i := fst (tm_score tm X pos)]> (machines w)) w).
Proof.
  intros Hi Htm. unfold tm_score_at, bind. rewrite (tm_at_Ok i w tm) by done.
  destruct (tm_score tm X pos) as [tm' class_sum]. simpl.
  rewrite set_tm_Ok; [done|]. apply lookup_lt_Some in Htm. lia.
Qed.

Lemma insert_take_drop {A} (l1 l2 : list A) (i : nat) (x : A) :
  length l1 = length l2 -> l1 !! i = Some x ->
  <[i := x]> (take i l1 ++ drop i l2) = take (Datatypes.S i) l1 ++ drop (Datatypes.S i) l2.
Proof.
  intros Hlen Hx. pose proof (lookup_lt_Some _ _ _ Hx) as Hi.
  destruct (lookup_lt_is_Some_2 l2 i) as [y Hy]; [lia|].
  rewrite (take_S_r _ _ x) by done. rewrite (drop_S _ y i) by done.
  replace i with (length (take i l1) + 0)%nat at 1 by (rewrite length_take; lia).
  rewrite insert_app_r. simpl. by rewrite <- app_assoc.
Qed.

Lemma lookup_take_drop {A} (l1 l2 : list A) (i : nat) :
  (i <= length l1)%nat -> (take i l1 ++ drop i l2) !! i = l2 !! i.
Proof.
  intros Hi. rewrite lookup_app_r by (rewrite length_take; lia).
  rewrite length_take, lookup_drop. f_equal. lia.
Qed.

(** Scoring class [i] on example [l] when the classes below [i] have
    already scored it. *)
Lemma tm_score_at_next (X : list Z) (pos : nat -> Z) (l : nat)
    (machines0 : list TsetlinMachine) (i : Z) (w : world) :
  0 <= i < Z.of_nat (length machines0) ->
  machines w =
    take (Z.to_nat i) ((fun tm => scored tm X pos (Datatypes.S l)) <$> machines0) ++
    drop (Z.to_nat i) ((fun tm => scored tm X pos l) <$> machines0) ->
  exists tm,
    machines0 !! Z.to_nat i = Some tm /\
    tm_score_at i X (pos l) w =
    Ok (class_sum tm X pos l,
        with_machines
          (take (Z.to_nat (i + 1)) ((fun tm => scored tm X pos (Datatypes.S l)) <$> machines0) ++
           drop (Z.to_nat (i + 1)) ((fun tm => scored tm X pos l) <$> machines0)) w).
Proof.
  intros Hi Hw.
  destruct (lookup_lt_is_Some_2 machines0 (Z.to_nat i)) as [tm Htm]; [lia|].
  exists tm. split; [done|].
  rewrite (tm_score_at_Ok i X (pos l) w (scored tm X pos l)); [|lia|].
  - unfold class_sum. do 2 f_equal. rewrite Hw.
    replace (Z.to_nat (i + 1)) with (Datatypes.S (Z.to_nat i)) by lia.
    f_equal. apply insert_take_drop; [by rewrite !length_fmap|].
    by rewrite list_lookup_fmap, Htm.
  - rewrite Hw, lookup_take_drop by (rewrite length_fmap; lia).
    by rewrite list_lookup_fmap, Htm.
Qed.

End Machines.

(** ** Prediction *)

Section Predict.

Context {P : Platform} {E : Engine}.

Lemma returns_Ok {S A} (c : M S A) s a s' (Q : A -> S -> Prop) :
  c s = Ok (a, s') -> Q a s' -> returns c s Q.
Proof. intros Hc HQ. exists a, s'. auto. Qed.

Lemma predict_pos_next m l :
  to_uint (predict_pos m l + to_uint (number_of_patches m * number_of_ta_chunks m))
  = predict_pos m (Datatypes.S l).
Proof.
  unfold predict_pos, to_uint. rewrite Zplus_mod_idemp_l. f_equal. lia.
Qed.

Lemma largest_class_first_maximum (X : list Z) (pos : nat -> Z) (l : nat)
    (machines0 : list TsetlinMachine) (w : world) :
  well_formed w ->
  (1 <= length machines0)%nat ->
  machines w = (fun tm => scored tm X pos l) <$> machines0 ->
  returns (largest_class X (pos l)) w (fun c w' =>
    first_maximum ((fun tm => class_sum tm X pos l) <$> machines0) c /\
    w' = with_machines ((fun tm => scored tm X pos (Datatypes.S l)) <$> machines0) w).
Proof.
  intros Hwf Hnc Hw.
  assert (Hlen : length (machines w) = length machines0) by (by rewrite Hw, length_fmap).
  set (B := (fun tm => scored tm X pos l) <$> machines0) in *.
  set (B' := (fun tm => scored tm X pos (Datatypes.S l)) <$> machines0).
  set (sums := (fun tm => class_sum tm X pos l) <$> machines0).
  unfold largest_class. apply returns_bind. eapply returns_Ok; [reflexivity|].
  destruct (tm_score_at_next X pos l machines0 0 w) as (tm0 & Htm0 & Hscore0); [lia|done|].
  apply returns_bind. eapply returns_Ok; [exact Hscore0|].
  change (Z.to_nat 0) with 0%nat in Htm0.
  apply returns_bind.
  pose (J := fun (i : Z) (r : Z * Z) (w' : world) =>
    w' = with_machines (take (Z.to_nat i) B' ++ drop (Z.to_nat i) B) w /\
    0 <= snd r < i /\
    sums !! Z.to_nat (snd r) = Some (fst r) /\
    (forall k s, sums !! k = Some s -> Z.of_nat k < i -> s <= fst r) /\
    (forall k s, sums !! k = Some s -> Z.of_nat k < snd r -> s < fst r)).
  eapply returns_mono.
  - apply (returns_for_loop J).
    + unfold well_formed in Hwf. lia.
    + repeat split; simpl; try lia.
      * change (Z.to_nat 0) with 0%nat. unfold sums. by rewrite list_lookup_fmap, Htm0.
      * intros k s Hk Hlt. assert (k = 0%nat) as -> by lia.
        unfold sums in Hk. rewrite list_lookup_fmap, Htm0 in Hk.
        injection Hk as <-. lia.
    + intros i [max_class_sum max_class] w' Hi (-> & Hmc & Hsum & Hle & Hlt).
      simpl in *.
      destruct (tm_score_at_next X pos l machines0 i
                  (with_machines (take (Z.to_nat i) B' ++ drop (Z.to_nat i) B) w))
        as (tm & Htm & Hscore); [unfold well_formed in Hwf; lia|done|].
      apply returns_bind. eapply returns_Ok; [exact Hscore|].
      rewrite with_machines_twice. fold B B'.
      assert (Hsi : sums !! Z.to_nat i = Some (class_sum tm X pos l)).
      { unfold sums. by rewrite list_lookup_fmap, Htm. }
      case_decide as Hcmp; apply returns_ret; repeat split; simpl; try lia; try done.
      * intros k s Hk Hki.
        destruct (decide (Z.of_nat k = i)) as [<-|Hne].
        -- rewrite Nat2Z.id in Hsi. rewrite Hsi in Hk. injection Hk as <-. lia.
        -- specialize (Hle k s Hk). lia.
      * intros k s Hk Hki. specialize (Hle k s Hk). lia.
      * intros k s Hk Hki.
        destruct (decide (Z.of_nat k = i)) as [<-|Hne].
        -- rewrite Nat2Z.id in Hsi. rewrite Hsi in Hk. injection Hk as <-. lia.
        -- specialize (Hle k s Hk). lia.
  - intros [max_class_sum max_class] w' (-> & Hmc & Hsum & Hle & Hlt). simpl in *.
    apply returns_ret. split.
    + exists max_class_sum. repeat split; try done; try lia.
      intros k s Hk. apply (Hle k s Hk).
      apply lookup_lt_Some in Hk. unfold sums in Hk. rewrite length_fmap in Hk.
      unfold well_formed in Hwf. lia.
    + f_equal. unfold well_formed in Hwf.
      rewrite take_ge, drop_ge, app_nil_r; [done| |];
        unfold B, B'; rewrite length_fmap; lia.
Qed.

Lemma well_formed_with_machines l w :
  length l = length (machines w) -> well_formed w -> well_formed (with_machines l w).
Proof. unfold well_formed, machines. simpl. intros Hl Hw. by rewrite Hl. Qed.

Lemma mc_tm_predict_returns
    (X y : list Z) (number_of_examples : Z) (w : world) :
  well_formed w ->
  1 <= number_of_classes (mc_tm w) ->
  number_of_examples <= Z.of_nat (length y) ->
  returns (mc_tm_predict X y number_of_examples) w (fun y' w' =>
    length y' = length y /\
    (forall l : nat, Z.of_nat l < number_of_examples ->
       exists c, y' !! l = Some c /\
         first_maximum
           ((fun tm => class_sum tm X (predict_pos (mc_tm w)) l) <$> machines w) c) /\
    (forall l : nat, number_of_examples <= Z.of_nat l -> y' !! l = y !! l) /\
    w' = with_machines
           ((fun tm => scored tm X (predict_pos (mc_tm w)) (Z.to_nat number_of_examples))
              <$> machines w) w).
Proof.
  intros Hwf Hnc Hy. unfold mc_tm_predict.
  apply returns_bind. eapply returns_Ok; [reflexivity|].
  set (m := mc_tm w). set (pos := predict_pos m).
  apply returns_bind.
  destruct (decide (number_of_examples <= 0)) as [Hn|Hn].
  { eapply returns_Ok; [by apply for_loop_empty|]. apply returns_ret.
    repeat split; try done.
    - intros l Hl. lia.
    - replace (Z.to_nat number_of_examples) with 0%nat by lia. simpl.
      by rewrite list_fmap_id, with_machines_same. }
  pose (K := fun (l : Z) (r : list Z * Z) (w' : world) =>
    length (fst r) = length y /\
    snd r = pos (Z.to_nat l) /\
    w' = with_machines ((fun tm => scored tm X pos (Z.to_nat l)) <$> machines w) w /\
    (forall k : nat, Z.of_nat k < l ->
       exists c, fst r !! k = Some c /\
         first_maximum ((fun tm => class_sum tm X pos k) <$> machines w) c) /\
    (forall k : nat, l <= Z.of_nat k -> fst r !! k = y !! k)).
  eapply returns_mono.
  - apply (returns_for_loop K); [lia| |].
    + repeat split; simpl; try done.
      * by rewrite list_fmap_id, with_machines_same.
      * intros k Hk. lia.
    + intros l [y' p] w' Hl (Hlen & Hp & -> & Hdone & Hrest). simpl in *. subst p.
      apply returns_bind. eapply returns_mono.
      * apply (largest_class_first_maximum X pos (Z.to_nat l) (machines w)).
        -- apply well_formed_with_machines; [by rewrite length_fmap|done].
        -- unfold well_formed in Hwf. lia.
        -- reflexivity.
      * intros c w' (Hc & ->). simpl.
        apply returns_bind, returns_store; [lia|]. apply returns_ret.
        unfold K. simpl. rewrite with_machines_twice.
        replace (Z.to_nat (l + 1)) with (Datatypes.S (Z.to_nat l)) by lia.
        repeat split; simpl.
        -- by rewrite length_insert.
        -- apply predict_pos_next.
        -- intros k Hk. destruct (decide (k = Z.to_nat l)) as [->|Hne].
           ++ exists c. split; [|done]. apply list_lookup_insert_eq. lia.
           ++ rewrite list_lookup_insert_ne by lia. apply Hdone. lia.
        -- intros k Hk. rewrite list_lookup_insert_ne by lia. apply Hrest. lia.
  - intros [y' p] w' (Hlen & Hp & -> & Hdone & Hrest). simpl in *.
    apply returns_ret. repeat split; done.
Qed.

(** C3.  [mc_tm_predict] returns for every ensemble with at least one
    class and writes one class id per example, in the order of the
    examples: entry [l] of the output is the lowest class index at which
    the class sums of example [l] are largest, each class sum being the
    score of that class engine after it has scored the examples before
    [l].  Entries past the last example are left as they were. *)
Theorem predict_lowest_index_of_largest_sum
    (X y : list Z) (number_of_examples : Z) (w : world) :
  well_formed w ->
  1 <= number_of_classes (mc_tm w) ->
  number_of_examples <= Z.of_nat (length y) ->
  returns (mc_tm_predict X y number_of_examples) w (fun y' w' =>
    length y' = length y /\
    (forall l : nat, Z.of_nat l < number_of_examples ->
       exists c, y' !! l = Some c /\
         first_maximum
           ((fun tm => class_sum tm X (predict_pos (mc_tm w)) l) <$> machines w) c) /\
    (forall l : nat, number_of_examples <= Z.of_nat l -> y' !! l = y !! l) /\
    w' = with_machines
           ((fun tm => scored tm X (predict_pos (mc_tm w)) (Z.to_nat number_of_examples))
              <$> machines w) w).
Proof. apply mc_tm_predict_returns. Qed.

End Predict.

(** ** Online training *)

Section Update.

Context {P : Platform} {E : Engine}.

Lemma redraw_first_other_class (rs : list Z) (m : MultiClassTsetlinMachine)
    (target_class c : Z) :
  redraw (length rs) target_class c (mkWorld rs m) =
  if decide (c = to_uint target_class) then sampled rs m target_class
  else Ok (c, mkWorld rs m).
Proof.
  revert c. induction rs as [|r rs IH]; intros c; simpl; case_decide; try done.
  unfold bind, draw_class, get_mc, rand, sampled. simpl.
  rewrite IH. by case_decide.
Qed.

Lemma sampling_first_other_class (target_class : Z) (w : world) :
  (let* negative_target_class := draw_class in
   let* fuel := remaining_draws in
   redraw fuel target_class negative_target_class) w
  = sampled (draws w) (mc_tm w) target_class.
Proof.
  destruct w as [[|r rs] m]; [done|].
  unfold bind, draw_class, get_mc, rand, remaining_draws, sampled. simpl.
  rewrite redraw_first_other_class. by case_decide.
Qed.

Lemma tm_update_at_Ok i Xi pos target w tm :
  0 <= i -> machines w !! Z.to_nat i = Some tm ->
  tm_update_at i Xi pos target w =
  Ok (tt, mkWorld (snd (tm_update tm Xi pos target (draws w)))
            (set_tsetlin_machines
               (<[Z.to_nat i := fst (tm_update tm Xi pos target (draws w))]> (machines w))
               (mc_tm w))).
Proof.
  intros Hi Htm. unfold tm_update_at, bind. rewrite (tm_at_Ok i w tm) by done.
  destruct (tm_update tm Xi pos target (draws w)) as [tm' rs]. simpl.
  rewrite set_tm_Ok; [done|]. apply lookup_lt_Some in Htm. unfold machines in *.
  simpl. lia.
Qed.


(** What [mc_tm_update] computes, step by step. *)
Lemma mc_tm_update_unfold (Xi : list Z) (pos target_class : Z) (w : world)
    (tm_t : TsetlinMachine) :
  0 <= target_class ->
  machines w !! Z.to_nat target_class = Some tm_t ->
  mc_tm_update Xi pos target_class w =
  let positive := tm_update tm_t Xi pos 1 (draws w) in
  let trained := <[Z.to_nat target_class := fst positive]> (machines w) in
  match first_other_class (number_of_classes (mc_tm w)) target_class (snd positive) with
  | None => Starved
  | Some (negative, rs) =>
      tm_update_at negative Xi pos 0
        (mkWorld rs (set_tsetlin_machines trained (mc_tm w)))
  end.
Proof.
  intros Ht Htm. unfold mc_tm_update.
  unfold bind at 1. rewrite (tm_update_at_Ok _ _ _ _ _ tm_t) by done.
  pose proof (sampling_first_other_class target_class
    (mkWorld (snd (tm_update tm_t Xi pos 1 (draws w)))
       (set_tsetlin_machines
          (<[Z.to_nat target_class := fst (tm_update tm_t Xi pos 1 (draws w))]> (machines w))
          (mc_tm w)))) as Hs.
  unfold bind in Hs |- *. simpl in Hs |- *.
  destruct (draw_class _) as [[c w1]| |] eqn:Hdraw.
  - simpl in Hs |- *. unfold remaining_draws in Hs |- *.
    destruct (redraw _ _ _ _) as [[negative w2]| |] eqn:Hredraw;
      unfold sampled in Hs; simpl in Hs;
      destruct (first_other_class _ _ _) as [[negative' rs]|]; try discriminate; try done.
    by injection Hs as -> ->.
  - unfold sampled in Hs; simpl in Hs.
    by destruct (first_other_class _ _ _) as [[negative' rs]|].
  - unfold sampled in Hs; simpl in Hs.
    by destruct (first_other_class _ _ _) as [[negative' rs]|].
Qed.



(** Under the bound on the class count every product is exact, and the
    class of a draw is the integer quotient. *)
Lemma class_of_draw_floor nc r :
  0 < RAND_MAX < 2 ^ 31 -> 1 <= nc < 2 ^ 31 -> nc * RAND_MAX < 2 ^ 53 ->
  valid_draw r ->
  class_of_draw nc r = (nc * r) `div` (RAND_MAX + 1).
Proof.
  intros Hmax Hnc Hexact [Hr0 Hr]. unfold class_of_draw.
  rewrite (to_uint_small nc), (to_uint_small RAND_MAX) by lia.
  rewrite (to_uint_small (RAND_MAX + 1)) by lia. cbv zeta.
  rewrite decide_True by nia.
  assert (0 <= (nc * r) `div` (RAND_MAX + 1) < nc).
  { split; [apply Z.div_pos; nia|]. apply Z.div_lt_upper_bound; nia. }
  by rewrite to_uint_small by lia.
Qed.

(** The class of a draw that [rand()] can return is a class id. *)
Lemma class_of_draw_in_range nc r :
  0 < RAND_MAX < 2 ^ 31 -> 1 <= nc < 2 ^ 31 -> nc * RAND_MAX < 2 ^ 53 ->
  valid_draw r ->
  0 <= class_of_draw nc r < nc.
Proof.
  intros Hmax Hnc Hexact Hr. rewrite class_of_draw_floor by done.
  destruct Hr as [Hr0 Hr].
  split; [apply Z.div_pos; nia|]. apply Z.div_lt_upper_bound; nia.
Qed.






End Update.

(** ** Batch training *)

Section Fit.

Context {P : Platform} {E : Engine}.

Lemma keeps_ret {A} Inv (a : A) : keeps Inv (ret a).
Proof. intros w Hw. by apply ensures_ret. Qed.

Lemma keeps_bind_value {A B} Inv (R : A -> Prop) (c : Run A) (k : A -> Run B) :
  (forall w, Inv w -> ensures c w (fun a w' => Inv w' /\ R a)) ->
  (forall a, R a -> keeps Inv (k a)) ->
  keeps Inv (bind c k).
Proof.
  intros Hc Hk w Hw. apply ensures_bind. eapply ensures_mono; [by apply Hc|].
  intros a w' [Hw' Ha]. by apply Hk.
Qed.

Lemma keeps_bind {A B} Inv (c : Run A) (k : A -> Run B) :
  keeps Inv c -> (forall a, keeps Inv (k a)) -> keeps Inv (bind c k).
Proof.
  intros Hc Hk. apply (keeps_bind_value Inv (fun _ => True)); [|auto].
  intros w Hw. eapply ensures_mono; [by apply Hc|]. auto.
Qed.

Lemma keeps_for_loop {A} Inv lo hi (body : Z -> A -> Run A) a :
  (forall i a, keeps Inv (body i a)) -> keeps Inv (for_loop lo hi body a).
Proof.
  intros Hbody w Hw. destruct (decide (lo <= hi)) as [Hle|Hgt].
  - apply (ensures_for_loop (fun _ _ w' => Inv w')); [done..|].
    intros k a' w' _ Hw'. by apply Hbody.
  - intros a' w'. rewrite for_loop_empty by lia. by intros [= <- <-].
Qed.

Lemma keeps_for_each Inv lo hi (body : Z -> Run unit) :
  (forall i, keeps Inv (body i)) -> keeps Inv (for_each lo hi body).
Proof. intros Hbody. apply keeps_for_loop. auto. Qed.

Lemma keeps_load {A} Inv (l : list A) i : keeps Inv (load l i).
Proof. intros w Hw a w' (_ & _ & Hs)%load_Ok. simpl in Hs. by subst. Qed.

Lemma keeps_store {A} Inv (l : list A) i v : keeps Inv (store l i v).
Proof. intros w Hw a w' (_ & _ & Hs)%store_Ok. simpl in Hs. by subst. Qed.

Lemma keeps_get_mc Inv : keeps Inv get_mc.
Proof. by intros w Hw a w' [= <- <-]. Qed.

Lemma keeps_remaining_draws Inv : keeps Inv remaining_draws.
Proof. by intros w Hw a w' [= <- <-]. Qed.

Lemma keeps_crash {A} Inv f : keeps Inv (crash f : Run A).
Proof. by intros w Hw a w'. Qed.

Lemma keeps_starve {A} Inv : keeps Inv (starve : Run A).
Proof. by intros w Hw a w'. Qed.

Lemma shaped_draws rs rs' m : shaped (mkWorld rs m) -> shaped (mkWorld rs' m).
Proof. done. Qed.

Lemma keeps_rand : keeps shaped rand.
Proof.
  intros [rs m] Hw r w'. unfold rand. simpl. destruct rs as [|r' rs]; [done|].
  intros [= <- <-]. by eapply shaped_draws.
Qed.

Lemma store_length {S A} (l : list A) i v (s : S) l' s' :
  store l i v s = Ok (l', s') -> length l' = length l.
Proof. intros (_ & Hl & _)%store_Ok. simpl in Hl. subst l'. apply length_insert. Qed.

Lemma tm_at_shaped i w :
  shaped w -> ensures (tm_at i) w (fun tm w' => shaped w' /\ masks_fit tm).
Proof.
  intros Hw tm w' (Hi & Htm & ->)%tm_at_inv. split; [done|].
  destruct Hw as [_ Hall]. by eapply (proj1 (Forall_lookup _ _) Hall).
Qed.

Lemma set_tm_shaped i tm : masks_fit tm -> keeps shaped (set_tm i tm).
Proof.
  intros Htm w [Hwf Hall] u w' (Hi & ->)%set_tm_inv. split.
  - apply well_formed_with_machines; [by rewrite length_insert|done].
  - rewrite machines_with_machines. by apply Forall_insert.
Qed.

Lemma keeps_tm_update_at i Xi pos target :
  update_keeps_masks -> keeps shaped (tm_update_at i Xi pos target).
Proof.
  intros Hupd. unfold tm_update_at.
  apply (keeps_bind_value shaped masks_fit); [apply tm_at_shaped|].
  intros tm Htm w Hw u w'.
  pose proof (Hupd tm Xi pos target (draws w) Htm) as Htm'.
  destruct (tm_update tm Xi pos target (draws w)) as [tm' rs]. simpl in Htm'.
  apply (set_tm_shaped i tm' Htm'). exact Hw.
Qed.

Lemma keeps_drop_clause_store i j v : keeps shaped (drop_clause_store i j v).
Proof.
  unfold drop_clause_store.
  apply (keeps_bind_value shaped masks_fit); [apply tm_at_shaped|].
  intros tm [Hc Hl] w Hw u w'. intros (a & w1 & Hst & Hset)%bind_Ok.
  pose proof (store_length _ _ _ _ _ _ Hst) as Hlen.
  apply store_Ok in Hst as (_ & _ & Hw1). simpl in Hw1. subst w1.
  revert Hset. apply set_tm_shaped; [|done]. split; simpl; [by rewrite Hlen|done].
Qed.

Lemma keeps_drop_literal_store i k v : keeps shaped (drop_literal_store i k v).
Proof.
  unfold drop_literal_store.
  apply (keeps_bind_value shaped masks_fit); [apply tm_at_shaped|].
  intros tm [Hc Hl] w Hw u w'. intros (a & w1 & Hst & Hset)%bind_Ok.
  pose proof (store_length _ _ _ _ _ _ Hst) as Hlen.
  apply store_Ok in Hst as (_ & _ & Hw1). simpl in Hw1. subst w1.
  revert Hset. apply set_tm_shaped; [|done]. split; simpl; [done|by rewrite Hlen].
Qed.

Lemma keeps_tm_at i : keeps shaped (tm_at i).
Proof. intros w Hw tm w' (_ & _ & ->)%tm_at_inv. done. Qed.

Create HintDb keeps.

#[local] Hint Resolve keeps_ret keeps_load keeps_store keeps_get_mc keeps_remaining_draws
  keeps_crash keeps_starve keeps_rand keeps_tm_at keeps_drop_clause_store
  keeps_drop_literal_store : keeps.

Ltac keeps_shaped :=
  repeat first
    [ progress auto with keeps
    | apply keeps_bind
    | apply keeps_for_each
    | apply keeps_for_loop
    | match goal with |- forall _, _ => intro end
    | match goal with |- keeps _ (if ?b then _ else _) => destruct b end ].

Lemma keeps_regenerate_dropout i : keeps shaped (regenerate_dropout i).
Proof.
  unfold regenerate_dropout, clear_drop_clause, draw_drop_clause,
    clear_drop_literal, draw_drop_literal, drop_clause_load, drop_literal_load.
  keeps_shaped.
Qed.

Lemma keeps_turn_off_dropout i : keeps shaped (turn_off_dropout i).
Proof.
  unfold turn_off_dropout, clear_drop_clause, clear_drop_literal. keeps_shaped.
Qed.

Lemma keeps_shuffle array n : keeps shaped (shuffle array n).
Proof. unfold shuffle. keeps_shaped. Qed.

Lemma keeps_redraw fuel target_class c : keeps shaped (redraw fuel target_class c).
Proof.
  revert c. induction fuel as [|fuel IH]; intros c; simpl; unfold draw_class;
    keeps_shaped.
Qed.

Lemma keeps_mc_tm_update Xi pos target_class :
  update_keeps_masks -> keeps shaped (mc_tm_update Xi pos target_class).
Proof.
  intros Hupd. unfold mc_tm_update, draw_class.
  pose proof keeps_redraw. pose proof (keeps_tm_update_at).
  keeps_shaped.
Qed.

Lemma keeps_epoch X y number_of_examples index :
  update_keeps_masks -> keeps shaped (epoch X y number_of_examples index).
Proof.
  intros Hupd. unfold epoch.
  pose proof keeps_shuffle. pose proof keeps_regenerate_dropout.
  pose proof keeps_turn_off_dropout. pose proof (keeps_mc_tm_update).
  keeps_shaped.
Qed.

(** *** Clearing the masks *)

Lemma set_drop_clause_same tm : TM.set_drop_clause (TM.drop_clause tm) tm = tm.
Proof. by destruct tm. Qed.

Lemma set_drop_literal_same tm : TM.set_drop_literal (TM.drop_literal tm) tm = tm.
Proof. by destruct tm. Qed.

Lemma drop_clause_store_Ok i j v w tm :
  0 <= i -> machines w !! Z.to_nat i = Some tm ->
  0 <= j < Z.of_nat (length (TM.drop_clause tm)) ->
  drop_clause_store i j v w =
  Ok (tt, with_machines
            (<[Z.to_nat i := TM.set_drop_clause (<[Z.to_nat j := v]> (TM.drop_clause tm)) tm]>
               (machines w)) w).
Proof.
  intros Hi Htm Hj. unfold drop_clause_store, bind.
  rewrite (tm_at_Ok i w tm) by done. unfold store. rewrite decide_True by done.
  simpl. apply set_tm_Ok. apply lookup_lt_Some in Htm. lia.
Qed.

Lemma drop_literal_store_Ok i k v w tm :
  0 <= i -> machines w !! Z.to_nat i = Some tm ->
  0 <= k < Z.of_nat (length (TM.drop_literal tm)) ->
  drop_literal_store i k v w =
  Ok (tt, with_machines
            (<[Z.to_nat i := TM.set_drop_literal (<[Z.to_nat k := v]> (TM.drop_literal tm)) tm]>
               (machines w)) w).
Proof.
  intros Hi Htm Hk. unfold drop_literal_store, bind.
  rewrite (tm_at_Ok i w tm) by done. unfold store. rewrite decide_True by done.
  simpl. apply set_tm_Ok. apply lookup_lt_Some in Htm. lia.
Qed.

Lemma clear_drop_clause_Ok i w tm :
  0 <= i -> machines w !! Z.to_nat i = Some tm -> masks_fit tm ->
  clear_drop_clause i w =
  Ok (tt, with_machines
            (<[Z.to_nat i :=
                 TM.set_drop_clause (replicate (length (TM.drop_clause tm)) 0) tm]>
               (machines w)) w).
Proof.
  intros Hi Htm [Hc _]. unfold clear_drop_clause, bind.
  rewrite (tm_at_Ok i w tm) by done. unfold for_each.
  set (zeros := replicate (length (TM.drop_clause tm)) 0).
  pose (J := fun (j : Z) (_ : unit) (w' : world) =>
    w' = with_machines
           (<[Z.to_nat i :=
                TM.set_drop_clause
                  (take (Z.to_nat j) zeros ++ drop (Z.to_nat j) (TM.drop_clause tm)) tm]>
              (machines w)) w).
  destruct (returns_for_loop J 0 (TM.number_of_clause_chunks tm)
              (fun j _ => drop_clause_store i j 0) tt w) as ([] & w' & -> & ->).
  - lia.
  - unfold J. simpl. rewrite drop_0, set_drop_clause_same, list_insert_id by done.
    by rewrite with_machines_same.
  - intros j [] w' Hj ->.
    eapply returns_Ok.
    + apply drop_clause_store_Ok; [done| |].
      * rewrite machines_with_machines. apply list_lookup_insert_eq.
        apply lookup_lt_Some in Htm. lia.
      * simpl. rewrite length_app, length_take, length_drop. unfold zeros.
        rewrite length_replicate. lia.
    + unfold J. rewrite machines_with_machines, with_machines_twice, list_insert_insert_eq.
      do 2 f_equal. unfold TM.set_drop_clause. simpl. f_equal.
      replace (Z.to_nat (j + 1)) with (Datatypes.S (Z.to_nat j)) by lia.
      apply insert_take_drop; [unfold zeros; by rewrite length_replicate|].
      unfold zeros. apply lookup_replicate_2. lia.
  - do 5 f_equal. rewrite take_ge, drop_ge, app_nil_r; [done|lia|].
    unfold zeros. rewrite length_replicate. lia.
Qed.

Lemma clear_drop_literal_Ok i w tm :
  0 <= i -> machines w !! Z.to_nat i = Some tm -> masks_fit tm ->
  clear_drop_literal i w =
  Ok (tt, with_machines
            (<[Z.to_nat i :=
                 TM.set_drop_literal (replicate (length (TM.drop_literal tm)) 0) tm]>
               (machines w)) w).
Proof.
  intros Hi Htm [_ Hl]. unfold clear_drop_literal, bind.
  rewrite (tm_at_Ok i w tm) by done. unfold for_each.
  set (zeros := replicate (length (TM.drop_literal tm)) 0).
  pose (J := fun (k : Z) (_ : unit) (w' : world) =>
    w' = with_machines
           (<[Z.to_nat i :=
                TM.set_drop_literal
                  (take (Z.to_nat k) zeros ++ drop (Z.to_nat k) (TM.drop_literal tm)) tm]>
              (machines w)) w).
  destruct (returns_for_loop J 0 (TM.number_of_ta_chunks tm)
              (fun k _ => drop_literal_store i k 0) tt w) as ([] & w' & -> & ->).
  - lia.
  - unfold J. simpl. rewrite drop_0, set_drop_literal_same, list_insert_id by done.
    by rewrite with_machines_same.
  - intros k [] w' Hk ->.
    eapply returns_Ok.
    + apply drop_literal_store_Ok; [done| |].
      * rewrite machines_with_machines. apply list_lookup_insert_eq.
        apply lookup_lt_Some in Htm. lia.
      * simpl. rewrite length_app, length_take, length_drop. unfold zeros.
        rewrite length_replicate. lia.
    + unfold J. rewrite machines_with_machines, with_machines_twice, list_insert_insert_eq.
      do 2 f_equal. unfold TM.set_drop_literal. simpl. f_equal.
      replace (Z.to_nat (k + 1)) with (Datatypes.S (Z.to_nat k)) by lia.
      apply insert_take_drop; [unfold zeros; by rewrite length_replicate|].
      unfold zeros. apply lookup_replicate_2. lia.
  - do 5 f_equal. rewrite take_ge, drop_ge, app_nil_r; [done|lia|].
    unfold zeros. rewrite length_replicate. lia.
Qed.

(** Lines 203-213 for one class: both masks of the engine end up zero and
    no other engine is touched. *)
Lemma turn_off_dropout_Ok i w tm :
  0 <= i -> machines w !! Z.to_nat i = Some tm -> masks_fit tm ->
  exists tm',
    dropout_off tm' /\ masks_fit tm' /\
    turn_off_dropout i w = Ok (tt, with_machines (<[Z.to_nat i := tm']> (machines w)) w).
Proof.
  intros Hi Htm Hfit.
  exists (TM.set_drop_literal (replicate (length (TM.drop_literal tm)) 0)
            (TM.set_drop_clause (replicate (length (TM.drop_clause tm)) 0) tm)).
  destruct Hfit as [Hc Hl]. split; [|split].
  - split; simpl; by apply Forall_replicate.
  - split; simpl; rewrite length_replicate; done.
  - unfold turn_off_dropout, bind.
    rewrite (clear_drop_clause_Ok i w tm) by done.
    rewrite (clear_drop_literal_Ok i _
               (TM.set_drop_clause (replicate (length (TM.drop_clause tm)) 0) tm)).
    + by rewrite machines_with_machines, with_machines_twice, list_insert_insert_eq.
    + done.
    + rewrite machines_with_machines. apply list_lookup_insert_eq.
      apply lookup_lt_Some in Htm. lia.
    + split; simpl; [by rewrite length_replicate|done].
Qed.

Lemma turn_off_all_Ok w :
  shaped w ->
  returns (for_each 0 (number_of_classes (mc_tm w)) turn_off_dropout) w (fun _ w' =>
    shaped w' /\ draws w' = draws w /\ Forall dropout_off (machines w')).
Proof.
  intros Hw. unfold for_each.
  pose (J := fun (i : Z) (_ : unit) (w' : world) =>
    shaped w' /\ draws w' = draws w /\
    number_of_classes (mc_tm w') = number_of_classes (mc_tm w) /\
    Forall dropout_off (take (Z.to_nat i) (machines w'))).
  eapply returns_mono.
  - apply (returns_for_loop J).
    + destruct Hw as [Hwf _]. unfold well_formed in Hwf. lia.
    + repeat split; try apply Hw. simpl. constructor.
    + intros i [] w' Hi ([Hwf Hall] & Hrs & Hnc & Hoff).
      unfold well_formed in Hwf.
      destruct (lookup_lt_is_Some_2 (machines w') (Z.to_nat i)) as [tm Htm]; [lia|].
      destruct (turn_off_dropout_Ok i w' tm) as (tm' & Hoff' & Hfit' & Hrun); [lia|done| |].
      { by eapply (proj1 (Forall_lookup _ _) Hall). }
      eapply returns_Ok; [exact Hrun|]. repeat split; try done.
      * apply well_formed_with_machines; [by rewrite length_insert|done].
      * rewrite machines_with_machines. by apply Forall_insert.
      * rewrite machines_with_machines.
        replace (Z.to_nat (i + 1)) with (Datatypes.S (Z.to_nat i)) by lia.
        rewrite (take_S_r _ _ tm') by (apply list_lookup_insert_eq; lia).
        rewrite take_insert_ge by lia. apply Forall_app. split; [done|].
        by constructor.
  - intros [] w' (Hshaped & Hrs & Hnc & Hoff). repeat split; try apply Hshaped; [done|].
    destruct Hshaped as [Hwf _]. unfold well_formed in Hwf.
    rewrite take_ge in Hoff by lia. done.
Qed.

(** *** Whole runs of [mc_tm_fit] *)

Lemma returns_ensures {S A} (c : M S A) s (Q : A -> S -> Prop) :
  returns c s Q -> ensures c s Q.
Proof. intros (a & s' & Hc & HQ) a' s'' Hc'. rewrite Hc in Hc'. by injection Hc' as <- <-. Qed.

Lemma fit_without_epochs (X y : list Z) (number_of_examples epochs : Z) (w : world) :
  epochs <= 0 -> mc_tm_fit X y number_of_examples epochs w = Ok (tt, w).
Proof.
  intros He. unfold mc_tm_fit, bind. rewrite index_initialised.
  by rewrite for_loop_empty by lia.
Qed.

Lemma epoch_turns_dropout_off (X y : list Z) (number_of_examples : Z)
    (index : list Z) (w : world) :
  update_keeps_masks -> shaped w ->
  ensures (epoch X y number_of_examples index) w (fun _ w' =>
    shaped w' /\ Forall dropout_off (machines w')).
Proof.
  intros Hupd Hw. unfold epoch.
  apply ensures_bind. eapply ensures_mono; [by apply keeps_shuffle|].
  intros index1 w1 Hw1. simpl in Hw1.
  apply ensures_bind. intros m w1' [= <- <-].
  apply ensures_bind. eapply ensures_mono.
  { apply keeps_for_each; [|exact Hw1]. apply keeps_regenerate_dropout. }
  intros [] w2 Hw2. simpl in Hw2.
  apply ensures_bind. eapply ensures_mono.
  { apply keeps_for_each; [|exact Hw2]. intros i.
    pose proof (keeps_mc_tm_update) as Hk.
    keeps_shaped. }
  intros [] w3 Hw3. simpl in Hw3.
  apply ensures_bind. intros m w3' [= <- <-].
  apply ensures_bind. eapply ensures_mono.
  { apply returns_ensures, turn_off_all_Ok, Hw3. }
  intros [] w4 (Hw4 & _ & Hoff). by apply ensures_ret.
Qed.

(** C1, amended.  When at least one epoch runs and [mc_tm_fit] returns,
    both dropout masks of every engine are entirely zero, whatever they
    held at the call, provided each mask has the extent that the clearing
    loops assume and training an engine does not change that extent.
    When no epoch runs, [mc_tm_fit] returns the state it was given, masks
    included. *)
Theorem fit_leaves_dropout_off
    (X y : list Z) (number_of_examples epochs : Z) (w w' : world) :
  update_keeps_masks ->
  shaped w ->
  mc_tm_fit X y number_of_examples epochs w = Ok (tt, w') ->
  (1 <= epochs -> Forall dropout_off (machines w')) /\
  (epochs <= 0 -> w' = w).
Proof.
  intros Hupd Hw Hrun. split; intros He.
  - unfold mc_tm_fit in Hrun.
    apply bind_Ok in Hrun as (index & w0 & Hinit & Hrun).
    rewrite index_initialised in Hinit. injection Hinit as <- <-.
    apply bind_Ok in Hrun as (index' & w1 & Hloop & Hret).
    injection Hret as <-.
    rewrite for_loop_last in Hloop by lia.
    apply bind_Ok in Hloop as (index1 & w2 & Hfirst & Hlast).
    assert (Hw2 : shaped w2).
    { revert Hfirst. apply keeps_for_loop; [|done].
      intros i a. by apply keeps_epoch. }
    by apply (epoch_turns_dropout_off _ _ _ _ _ Hupd Hw2) in Hlast as [_ Hoff].
  - rewrite fit_without_epochs in Hrun by done. by injection Hrun as <-.
Qed.

End Fit.

(** ** The clause transform *)

Section Transform.

Context {P : Platform} {E : Engine}.

Lemma land_pow2 (a p : Z) :
  0 <= p -> Z.land a (2 ^ p) = if Z.testbit a p then 2 ^ p else 0.
Proof.
  intros Hp. apply Z.bits_inj'. intros n Hn.
  rewrite Z.land_spec, Z.pow2_bits_eqb by done.
  destruct (Z.eqb_spec p n) as [->|Hne].
  - destruct (Z.testbit a n); simpl; [by rewrite Z.pow2_bits_true|by rewrite Z.bits_0].
  - rewrite andb_false_r.
    destruct (Z.testbit a p); [by rewrite Z.pow2_bits_false|by rewrite Z.bits_0].
Qed.

(** The test of line 276 reads the bit of the clause. *)
Lemma clause_test (word p : Z) :
  0 <= p < 32 ->
  truth (if decide (0 < Z.land word (to_uint (1 ≪ p))) then 1 else 0) = Z.testbit word p.
Proof.
  intros Hp. rewrite Z.shiftl_1_l.
  assert (0 < 2 ^ p < 2 ^ 32).
  { split; [apply Z.pow_pos_nonneg; lia|apply Z.pow_lt_mono_r; lia]. }
  rewrite to_uint_small by lia. rewrite land_pow2 by lia.
  destruct (Z.testbit word p); case_decide; try done; lia.
Qed.

Lemma emitted_cases (fires : bool) (invert : Z) {A} (a b : A) :
  (if fires && negb (truth invert) then a
   else if negb fires && truth invert then a else b)
  = if xorb fires (truth invert) then a else b.
Proof. by destruct fires, (truth invert). Qed.

Lemma length_cells invert tm :
  Z.of_nat (length (cells invert tm)) = Z.max 0 (TM.number_of_clauses tm).
Proof. unfold cells. rewrite length_fmap, length_seqZ. lia. Qed.

Lemma emitted_so_far_store X_transformed written out v (w : world) :
  emitted_so_far X_transformed written out ->
  Z.of_nat (length written) < Z.of_nat (length X_transformed) < 2 ^ 64 ->
  exists X_transformed',
    store (fst out) (snd out) v w = Ok (X_transformed', w) /\
    emitted_so_far X_transformed (written ++ [v])
      (X_transformed', to_ulong (snd out + 1)).
Proof.
  intros [Hbuf Htf] Hlen. destruct out as [buf tf]. simpl in *. subst buf tf.
  destruct (lookup_lt_is_Some_2 X_transformed (length written)) as [x Hx]; [lia|].
  eexists. split.
  - unfold store. rewrite decide_True; [reflexivity|].
    rewrite length_app, length_drop. lia.
  - split; simpl.
    + rewrite Nat2Z.id.
      replace (length written) with (length written + 0)%nat at 1 by lia.
      rewrite insert_app_r, (drop_S _ x) by done. simpl.
      rewrite <- app_assoc, length_app. simpl.
      by replace (length written + 1)%nat with (Datatypes.S (length written)) by lia.
    + rewrite to_ulong_small by lia. rewrite length_app. simpl. lia.
Qed.

Lemma transform_clause_Ok X_transformed written out invert i j (w : world) tm :
  0 <= i -> machines w !! Z.to_nat i = Some tm ->
  holds_clauses (TM.number_of_clauses tm) tm ->
  0 <= j < TM.number_of_clauses tm ->
  emitted_so_far X_transformed written out ->
  Z.of_nat (length written) < Z.of_nat (length X_transformed) < 2 ^ 64 ->
  exists out',
    transform_clause i j invert out w = Ok (out', w) /\
    emitted_so_far X_transformed
      (written ++ [emitted (clause_fires tm j) invert]) out'.
Proof.
  intros Hi Htm [_ Hfit] Hj Hout Hlen.
  destruct (emitted_so_far_store X_transformed written out
              (emitted (clause_fires tm j) invert) w Hout Hlen) as (buf & Hst & Hout').
  exists (buf, to_ulong (snd out + 1)). split; [|done].
  unfold transform_clause. destruct out as [buf0 tf]. simpl in Hst.
  unfold bind. rewrite (tm_at_Ok i w tm) by done.
  rewrite Z.quot_div_nonneg, Z.rem_mod_nonneg by lia.
  assert (Hchunk : 0 <= j `div` 32 < Z.of_nat (length (TM.clause_output tm))).
  { split; [apply Z.div_pos; lia|]. apply Z.div_lt_upper_bound; lia. }
  destruct (lookup_lt_is_Some_2 (TM.clause_output tm) (Z.to_nat (j `div` 32)))
    as [word Hword]; [lia|].
  unfold load. rewrite decide_True by lia. rewrite Hword. simpl.
  rewrite clause_test by (apply Z.mod_pos_bound; lia).
  rewrite emitted_cases.
  assert (Hfires : Z.testbit word (j `mod` 32) = clause_fires tm j).
  { unfold clause_fires. by rewrite Hword. }
  rewrite Hfires.
  change (if xorb (clause_fires tm j) (truth invert)
          then store buf0 tf 1 else store buf0 tf 0)
    with (if xorb (clause_fires tm j) (truth invert)
          then @store world Z buf0 tf 1 else @store world Z buf0 tf 0).
  replace (if xorb (clause_fires tm j) (truth invert)
           then @store world Z buf0 tf 1 else @store world Z buf0 tf 0)
    with (@store world Z buf0 tf (emitted (clause_fires tm j) invert))
    by (unfold emitted; by destruct (xorb _ _)).
  by rewrite Hst.
Qed.

Lemma join_snoc {A} (ls : list (list A)) (l : list A) : mjoin (ls ++ [l]) = mjoin ls ++ l.
Proof. rewrite join_app. simpl. by rewrite app_nil_r. Qed.

Lemma scored_holds_clauses ncl tm X pos l :
  score_keeps_clauses ncl -> holds_clauses ncl tm ->
  holds_clauses ncl (scored tm X pos l).
Proof. intros Hkeep Htm. induction l as [|l IH]; simpl; auto. Qed.

(** Lines 272-287: the clauses of one class. *)
Lemma transform_cells X_transformed written out invert i (w : world) tm :
  0 <= i -> machines w !! Z.to_nat i = Some tm ->
  holds_clauses (TM.number_of_clauses tm) tm ->
  emitted_so_far X_transformed written out ->
  Z.of_nat (length written) + Z.max 0 (TM.number_of_clauses tm)
    <= Z.of_nat (length X_transformed) ->
  Z.of_nat (length X_transformed) < 2 ^ 64 ->
  returns (for_loop 0 (TM.number_of_clauses tm)
             (fun j out => transform_clause i j invert out) out) w
    (fun out' w' => w' = w /\
       emitted_so_far X_transformed (written ++ cells invert tm) out').
Proof.
  intros Hi Htm Hfit Hout Hlen Hmax.
  destruct (decide (TM.number_of_clauses tm <= 0)) as [Hn|Hn].
  { eapply returns_Ok; [by apply for_loop_empty|]. split; [done|].
    unfold cells. rewrite seqZ_nil by done. simpl. by rewrite app_nil_r. }
  pose (J := fun (j : Z) (out' : list Z * Z) (w' : world) =>
    w' = w /\
    emitted_so_far X_transformed (written ++ take (Z.to_nat j) (cells invert tm)) out').
  eapply returns_mono.
  - apply (returns_for_loop J); [lia| |].
    + split; [done|]. simpl. by rewrite app_nil_r.
    + intros j out' w' Hj [-> Hout'].
      assert (Hcell : cells invert tm !! Z.to_nat j
                      = Some (emitted (clause_fires tm j) invert)).
      { unfold cells. rewrite list_lookup_fmap.
        rewrite (proj2 (lookup_seqZ 0 _ (Z.to_nat j) j)) by lia. done. }
      destruct (transform_clause_Ok X_transformed
                  (written ++ take (Z.to_nat j) (cells invert tm)) out' invert i j w tm)
        as (out'' & Hrun & Hout''); try done.
      { rewrite length_app, length_take. pose proof (length_cells invert tm). lia. }
      eapply returns_Ok; [exact Hrun|]. split; [done|].
      replace (Z.to_nat (j + 1)) with (Datatypes.S (Z.to_nat j)) by lia.
      by rewrite (take_S_r _ _ _ Hcell), app_assoc.
  - intros out' w' [-> Hout']. split; [done|].
    rewrite take_ge in Hout'; [done|]. pose proof (length_cells invert tm). lia.
Qed.

(** Lines 270-287: one class on one example. *)
Lemma transform_class_Ok X_transformed written out invert
    (X : list Z) (pos : nat -> Z) (l : nat) (machines0 : list TsetlinMachine)
    (i : Z) (w : world) (ncl : Z) :
  score_keeps_clauses ncl ->
  Forall (holds_clauses ncl) machines0 ->
  0 <= i < Z.of_nat (length machines0) ->
  machines w =
    take (Z.to_nat i) ((fun tm => scored tm X pos (Datatypes.S l)) <$> machines0) ++
    drop (Z.to_nat i) ((fun tm => scored tm X pos l) <$> machines0) ->
  emitted_so_far X_transformed written out ->
  Z.of_nat (length written) + Z.max 0 ncl <= Z.of_nat (length X_transformed) ->
  Z.of_nat (length X_transformed) < 2 ^ 64 ->
  exists tm,
    machines0 !! Z.to_nat i = Some tm /\
    returns (transform_class X (pos l) invert i out) w (fun out' w' =>
      w' = with_machines
             (take (Z.to_nat (i + 1)) ((fun tm => scored tm X pos (Datatypes.S l)) <$> machines0) ++
              drop (Z.to_nat (i + 1)) ((fun tm => scored tm X pos l) <$> machines0)) w /\
      emitted_so_far X_transformed
        (written ++ cells invert (scored tm X pos (Datatypes.S l))) out').
Proof.
  intros Hkeep Hall Hi Hw Hout Hlen Hmax.
  destruct (tm_score_at_next X pos l machines0 i w Hi Hw) as (tm & Htm & Hscore).
  exists tm. split; [done|].
  set (w1 := with_machines _ w) in *.
  assert (Htm' : machines w1 !! Z.to_nat i = Some (scored tm X pos (Datatypes.S l))).
  { unfold w1. rewrite machines_with_machines.
    rewrite lookup_app_l by (rewrite length_take, length_fmap; lia).
    rewrite lookup_take_lt by lia. by rewrite list_lookup_fmap, Htm. }
  assert (Hfit : holds_clauses ncl (scored tm X pos (Datatypes.S l))).
  { apply scored_holds_clauses; [done|].
    by eapply (proj1 (Forall_lookup _ _) Hall). }
  pose proof Hfit as [Hncl _].
  unfold transform_class. apply returns_bind. eapply returns_Ok; [exact Hscore|].
  apply returns_bind. eapply returns_Ok; [by apply tm_at_Ok; [lia|]|].
  eapply returns_mono.
  - apply (transform_cells X_transformed written); try done; try lia.
    by rewrite Hncl.
  - intros out' w' [-> Hout']. done.
Qed.

(** The loop of lines 269-288: every class on one example. *)
Lemma transform_row X_transformed written out invert
    (X : list Z) (pos : nat -> Z) (l : nat) (machines0 : list TsetlinMachine)
    (w : world) (ncl : Z) :
  score_keeps_clauses ncl ->
  Forall (holds_clauses ncl) machines0 ->
  0 <= ncl ->
  well_formed w ->
  machines w = (fun tm => scored tm X pos l) <$> machines0 ->
  emitted_so_far X_transformed written out ->
  Z.of_nat (length written) + Z.of_nat (length machines0) * ncl
    <= Z.of_nat (length X_transformed) ->
  Z.of_nat (length X_transformed) < 2 ^ 64 ->
  returns (for_loop 0 (number_of_classes (mc_tm w))
             (fun i out => transform_class X (pos l) invert i out) out) w
    (fun out' w' =>
       w' = with_machines ((fun tm => scored tm X pos (Datatypes.S l)) <$> machines0) w /\
       emitted_so_far X_transformed (written ++ row machines0 X pos invert l) out' /\
       Z.of_nat (length (row machines0 X pos invert l))
         = Z.of_nat (length machines0) * ncl).
Proof.
  intros Hkeep Hall Hncl Hwf Hw Hout Hlen Hmax.
  assert (Hnc : number_of_classes (mc_tm w) = Z.of_nat (length machines0)).
  { unfold well_formed in Hwf. by rewrite Hwf, Hw, length_fmap. }
  set (B := (fun tm => scored tm X pos l) <$> machines0) in *.
  set (B' := (fun tm => scored tm X pos (Datatypes.S l)) <$> machines0).
  set (C := (fun tm => cells invert (scored tm X pos (Datatypes.S l))) <$> machines0).
  assert (HC : forall k, (k <= length machines0)%nat ->
            Z.of_nat (length (mjoin (take k C))) = Z.of_nat k * ncl).
  { intros k Hk. rewrite length_join.
    rewrite (sum_list_fmap_same (Z.to_nat ncl)).
    - rewrite length_take. unfold C. rewrite length_fmap. nia.
    - apply Forall_take. unfold C. apply Forall_fmap.
      eapply Forall_impl; [exact Hall|]. intros tm Htm. cbv beta.
      apply (scored_holds_clauses _ _ X pos (Datatypes.S l) Hkeep) in Htm as [Htm _].
      pose proof (length_cells invert (scored tm X pos (Datatypes.S l))).
      unfold compose. lia. }
  pose (J := fun (i : Z) (out' : list Z * Z) (w' : world) =>
    w' = with_machines (take (Z.to_nat i) B' ++ drop (Z.to_nat i) B) w /\
    emitted_so_far X_transformed (written ++ mjoin (take (Z.to_nat i) C)) out').
  eapply returns_mono.
  - apply (returns_for_loop J); [lia| |].
    + split; simpl; [|by rewrite app_nil_r].
      change (Z.to_nat 0) with 0%nat. by rewrite drop_0, <- Hw, with_machines_same.
    + intros i out' w' Hi [-> Hout'].
      destruct (transform_class_Ok X_transformed
                  (written ++ mjoin (take (Z.to_nat i) C)) out' invert X pos l
                  machines0 i (with_machines (take (Z.to_nat i) B' ++ drop (Z.to_nat i) B) w) ncl)
        as (tm & Htm & Hrun); try done; try lia.
      { rewrite length_app, Nat2Z.inj_add, HC by lia. nia. }
      eapply returns_mono; [exact Hrun|].
      intros out'' w'' [-> Hout'']. split; [by rewrite with_machines_twice|].
      replace (Z.to_nat (i + 1)) with (Datatypes.S (Z.to_nat i)) by lia.
      rewrite (take_S_r C _ (cells invert (scored tm X pos (Datatypes.S l)))).
      * by rewrite join_snoc, app_assoc.
      * unfold C. by rewrite list_lookup_fmap, Htm.
  - intros out' w' [-> Hout']. rewrite Hnc, Nat2Z.id in Hout' |- *.
    rewrite take_ge in Hout' by (unfold C; rewrite length_fmap; lia).
    repeat split.
    + by rewrite take_ge, drop_ge, app_nil_r by (unfold B, B'; rewrite length_fmap; lia).
    + apply Hout'.
    + apply Hout'.
    + fold C in HC. unfold row. fold C.
      rewrite <- (take_ge C (length machines0)) by (unfold C; rewrite length_fmap; lia).
      by apply HC.
Qed.

Lemma transform_pos_next m l :
  to_ulong (transform_pos m l + to_uint (number_of_patches m * number_of_ta_chunks m))
  = transform_pos m (Datatypes.S l).
Proof.
  unfold transform_pos, to_ulong. rewrite Zplus_mod_idemp_l. f_equal. lia.
Qed.

Lemma rows_S engines X pos invert n :
  rows engines X pos invert (Datatypes.S n)
  = rows engines X pos invert n ++ row engines X pos invert n.
Proof. unfold rows. rewrite seq_S, fmap_app, join_app. simpl. by rewrite app_nil_r. Qed.

(** What [mc_tm_transform] leaves in the buffer and in the engines. *)
Lemma transform_writes_rows
    (X X_transformed : list Z) (invert number_of_examples : Z) (w : world) (ncl : Z) :
  well_formed w ->
  score_keeps_clauses ncl ->
  Forall (holds_clauses ncl) (machines w) ->
  0 <= ncl ->
  Z.max 0 number_of_examples * (number_of_classes (mc_tm w) * ncl)
    <= Z.of_nat (length X_transformed) ->
  Z.of_nat (length X_transformed) < 2 ^ 64 ->
  returns (mc_tm_transform X X_transformed invert number_of_examples) w (fun out w' =>
    out = rows (machines w) X (transform_pos (mc_tm w)) invert (Z.to_nat number_of_examples)
          ++ drop (Z.to_nat (Z.max 0 number_of_examples * (number_of_classes (mc_tm w) * ncl)))
               X_transformed /\
    (forall l : nat,
       Z.of_nat (length (row (machines w) X (transform_pos (mc_tm w)) invert l))
       = number_of_classes (mc_tm w) * ncl) /\
    w' = with_machines
           ((fun tm => scored tm X (transform_pos (mc_tm w)) (Z.to_nat number_of_examples))
              <$> machines w) w).
Proof.
  intros Hwf Hkeep Hall Hncl Hlen Hmax.
  set (m := mc_tm w). set (pos := transform_pos m).
  set (nc := number_of_classes m) in *.
  assert (Hnc : nc = Z.of_nat (length (machines w))) by exact Hwf.
  assert (Hrow : forall l : nat,
            Z.of_nat (length (row (machines w) X pos invert l)) = nc * ncl).
  { intros l. unfold row. rewrite length_join.
    rewrite (sum_list_fmap_same (Z.to_nat ncl)).
    - rewrite length_fmap. nia.
    - apply Forall_fmap. eapply Forall_impl; [exact Hall|]. intros tm Htm.
      unfold compose.
      apply (scored_holds_clauses _ _ X pos (Datatypes.S l) Hkeep) in Htm as [Htm _].
      pose proof (length_cells invert (scored tm X pos (Datatypes.S l))). lia. }
  assert (Hrows : forall l : nat,
            Z.of_nat (length (rows (machines w) X pos invert l)) = Z.of_nat l * (nc * ncl)).
  { induction l as [|l IH]; [done|].
    rewrite rows_S, length_app, Nat2Z.inj_add, IH, Hrow. lia. }
  unfold mc_tm_transform.
  apply returns_bind. eapply returns_Ok; [reflexivity|]. fold m.
  apply returns_bind.
  destruct (decide (number_of_examples <= 0)) as [Hn|Hn].
  { eapply returns_Ok; [by apply for_loop_empty|]. apply returns_ret.
    replace (Z.to_nat number_of_examples) with 0%nat by lia.
    replace (Z.max 0 number_of_examples) with 0 by lia.
    repeat split; simpl; try done.
    by rewrite list_fmap_id, with_machines_same. }
  replace (Z.max 0 number_of_examples) with number_of_examples in * by lia.
  pose (K := fun (l : Z) (r : list Z * Z * Z) (w' : world) =>
    emitted_so_far X_transformed (rows (machines w) X pos invert (Z.to_nat l)) (fst r) /\
    snd r = pos (Z.to_nat l) /\
    w' = with_machines ((fun tm => scored tm X pos (Z.to_nat l)) <$> machines w) w).
  eapply returns_mono.
  - apply (returns_for_loop K); [lia| |].
    + repeat split; simpl. by rewrite list_fmap_id, with_machines_same.
    + intros l [out p] w' Hl (Hout & Hp & ->). simpl in Hout, Hp. subst p.
      apply returns_bind. eapply returns_Ok; [reflexivity|].
      apply returns_bind. eapply returns_mono.
      * apply (transform_row X_transformed
                 (rows (machines w) X pos invert (Z.to_nat l)) out invert X pos
                 (Z.to_nat l) (machines w) _ ncl); try done.
        -- apply well_formed_with_machines; [by rewrite length_fmap|done].
        -- rewrite Hrows, Z2Nat.id, <- Hnc by lia.
           assert (0 <= nc * ncl) by nia.
           assert ((l + 1) * (nc * ncl) <= number_of_examples * (nc * ncl))
             by (apply Z.mul_le_mono_nonneg_r; lia).
           unfold nc, m in *. lia.
      * intros out' w' (-> & Hout' & _). apply returns_ret.
        unfold K. simpl. rewrite with_machines_twice.
        replace (Z.to_nat (l + 1)) with (Datatypes.S (Z.to_nat l)) by lia.
        repeat split.
        -- rewrite rows_S. apply Hout'.
        -- rewrite rows_S. apply Hout'.
        -- apply transform_pos_next.
  - intros [out p] w' ([Hout _] & _ & ->). simpl in Hout.
    apply returns_ret. repeat split; [|done].
    simpl. rewrite Hout. do 2 f_equal.
    apply Nat2Z.inj. rewrite Hrows. lia.
Qed.

Lemma fmap_join {A B} (f : A -> B) (ls : list (list A)) :
  f <$> mjoin ls = mjoin (fmap f <$> ls).
Proof. induction ls as [|l ls IH]; [done|]. simpl. by rewrite fmap_app, IH. Qed.

Lemma emitted_inverted fires : emitted fires 1 = 1 - emitted fires 0.
Proof. by destruct fires. Qed.

Lemma emitted_binary fires invert : emitted fires invert = 0 \/ emitted fires invert = 1.
Proof. unfold emitted. destruct (xorb _ _); auto. Qed.

Lemma rows_inverted engines X pos n :
  rows engines X pos 1 n = (fun v => 1 - v) <$> rows engines X pos 0 n.
Proof.
  unfold rows. rewrite fmap_join, <- list_fmap_compose. f_equal.
  apply list_fmap_ext. intros _ l _. unfold compose, row.
  rewrite fmap_join, <- list_fmap_compose. f_equal.
  apply list_fmap_ext. intros _ tm _. unfold compose, cells.
  rewrite <- list_fmap_compose. apply list_fmap_ext. intros _ j _.
  unfold compose. apply emitted_inverted.
Qed.

Lemma rows_binary engines X pos invert n :
  Forall (fun v => v = 0 \/ v = 1) (rows engines X pos invert n).
Proof.
  unfold rows. apply Forall_join, Forall_fmap, Forall_forall. intros l _.
  unfold compose, row. apply Forall_join, Forall_fmap, Forall_forall. intros tm _.
  unfold compose, cells. apply Forall_fmap, Forall_forall. intros j _.
  apply emitted_binary.
Qed.

(** C7.  [mc_tm_transform] returns whenever the buffer has room for one
    entry per example, class and clause, every engine has the same number
    of clauses with a [clause_output] bit for each, and scoring keeps it
    so.  The buffer then starts with the rows of the examples, in example
    order; a row is the entries of the classes, in class order, and has
    [number_of_classes * number_of_clauses] entries; the entries of a
    class are those of its clauses, in clause order.  The entry of example
    [l], class [i] and clause [j] is 1 exactly when the [clause_output]
    bit of clause [j], as left by scoring engine [i] on example [l],
    differs from [invert], and 0 otherwise.  The rest of the buffer is
    untouched. *)
Theorem transform_layout_and_entries
    (X X_transformed : list Z) (invert number_of_examples : Z) (w : world) (ncl : Z) :
  well_formed w ->
  score_keeps_clauses ncl ->
  Forall (holds_clauses ncl) (machines w) ->
  0 <= ncl ->
  Z.max 0 number_of_examples * (number_of_classes (mc_tm w) * ncl)
    <= Z.of_nat (length X_transformed) ->
  Z.of_nat (length X_transformed) < 2 ^ 64 ->
  returns (mc_tm_transform X X_transformed invert number_of_examples) w (fun out w' =>
    out = rows (machines w) X (transform_pos (mc_tm w)) invert (Z.to_nat number_of_examples)
          ++ drop (Z.to_nat (Z.max 0 number_of_examples * (number_of_classes (mc_tm w) * ncl)))
               X_transformed /\
    (forall l : nat,
       Z.of_nat (length (row (machines w) X (transform_pos (mc_tm w)) invert l))
       = number_of_classes (mc_tm w) * ncl) /\
    (forall (l i j : nat) (tm : TsetlinMachine),
       Z.of_nat l < number_of_examples ->
       machines w !! i = Some tm ->
       Z.of_nat j < ncl ->
       out !! (l * (length (machines w) * Z.to_nat ncl) + (i * Z.to_nat ncl + j))%nat
       = Some (emitted
                 (clause_fires (scored tm X (transform_pos (mc_tm w)) (Datatypes.S l))
                    (Z.of_nat j))
                 invert)) /\
    w' = with_machines
           ((fun tm => scored tm X (transform_pos (mc_tm w)) (Z.to_nat number_of_examples))
              <$> machines w) w).
Proof.
  intros Hwf Hkeep Hall Hncl Hlen Hmax.
  eapply returns_mono; [by apply (transform_writes_rows _ _ _ _ _ ncl)|].
  intros out w' (-> & Hrow & ->). repeat split; try done.
  intros l i j tm Hl Htm Hj.
  set (pos := transform_pos (mc_tm w)) in *.
  assert (Hnc : number_of_classes (mc_tm w) = Z.of_nat (length (machines w))) by exact Hwf.
  pose proof (lookup_lt_Some _ _ _ Htm) as Hi.
  assert (Hin : (i * Z.to_nat ncl + j < length (machines w) * Z.to_nat ncl)%nat) by nia.
  assert (Hcells : cells invert (scored tm X pos (Datatypes.S l)) !! j
                   = Some (emitted (clause_fires (scored tm X pos (Datatypes.S l))
                                      (Z.of_nat j)) invert)).
  { unfold cells. rewrite list_lookup_fmap.
    rewrite (proj2 (lookup_seqZ 0 _ j (Z.of_nat j))); [done|]. split; [lia|].
    eapply (proj1 (Forall_lookup _ _) Hall) in Htm.
    apply (scored_holds_clauses _ _ X pos (Datatypes.S l) Hkeep) in Htm as [-> _]. lia. }
  assert (Hrowl : row (machines w) X pos invert l !! (i * Z.to_nat ncl + j)%nat
                  = Some (emitted (clause_fires (scored tm X pos (Datatypes.S l))
                                     (Z.of_nat j)) invert)).
  { unfold row. apply join_lookup_Some_same_length'; [|lia|].
    - apply Forall_fmap. eapply Forall_impl; [exact Hall|]. intros tm' Htm'.
      unfold compose.
      apply (scored_holds_clauses _ _ X pos (Datatypes.S l) Hkeep) in Htm' as [Htm' _].
      pose proof (length_cells invert (scored tm' X pos (Datatypes.S l))). lia.
    - eexists. split; [|exact Hcells]. by rewrite list_lookup_fmap, Htm. }
  assert (Hrows : rows (machines w) X pos invert (Z.to_nat number_of_examples)
                    !! (l * (length (machines w) * Z.to_nat ncl) + (i * Z.to_nat ncl + j))%nat
                  = Some (emitted (clause_fires (scored tm X pos (Datatypes.S l))
                                     (Z.of_nat j)) invert)).
  { unfold rows. apply join_lookup_Some_same_length'; [|lia|].
    - apply Forall_fmap, Forall_forall. intros l' _. unfold compose.
      specialize (Hrow l'). nia.
    - eexists. split; [|exact Hrowl].
      rewrite list_lookup_fmap, lookup_seq_lt by lia. done. }
  by rewrite (lookup_app_l_Some _ _ _ _ Hrows).
Qed.

(** C6.  Under the conditions of C7, the runs of [mc_tm_transform] with
    [invert = 0] and with [invert = 1] from one state both return, leave
    the same state, and write complementary entries: at every written
    position one buffer holds 1 and the other 0.  Past the written part
    both buffers are as the caller's. *)
Theorem transform_inverted_is_complement
    (X X_transformed : list Z) (number_of_examples : Z) (w : world) (ncl : Z) :
  well_formed w ->
  score_keeps_clauses ncl ->
  Forall (holds_clauses ncl) (machines w) ->
  0 <= ncl ->
  Z.max 0 number_of_examples * (number_of_classes (mc_tm w) * ncl)
    <= Z.of_nat (length X_transformed) ->
  Z.of_nat (length X_transformed) < 2 ^ 64 ->
  exists out0 out1 w',
    mc_tm_transform X X_transformed 0 number_of_examples w = Ok (out0, w') /\
    mc_tm_transform X X_transformed 1 number_of_examples w = Ok (out1, w') /\
    (forall k : nat,
       Z.of_nat k < Z.max 0 number_of_examples * (number_of_classes (mc_tm w) * ncl) ->
       exists a b,
         out0 !! k = Some a /\ out1 !! k = Some b /\
         (a = 1 /\ b = 0 \/ a = 0 /\ b = 1)) /\
    (forall k : nat,
       Z.max 0 number_of_examples * (number_of_classes (mc_tm w) * ncl) <= Z.of_nat k ->
       out0 !! k = X_transformed !! k /\ out1 !! k = X_transformed !! k).
Proof.
  intros Hwf Hkeep Hall Hncl Hlen Hmax.
  destruct (transform_writes_rows X X_transformed 0 number_of_examples w ncl)
    as (out0 & w0 & Hrun0 & -> & Hrow0 & ->); try done.
  destruct (transform_writes_rows X X_transformed 1 number_of_examples w ncl)
    as (out1 & w1 & Hrun1 & -> & Hrow1 & ->); try done.
  eexists _, _, _. split; [exact Hrun0|]. split; [exact Hrun1|].
  set (pos := transform_pos (mc_tm w)) in *.
  set (total := Z.max 0 number_of_examples * (number_of_classes (mc_tm w) * ncl)) in *.
  set (R0 := rows (machines w) X pos 0 (Z.to_nat number_of_examples)).
  assert (Hlen0 : Z.of_nat (length R0) = total).
  { unfold R0, rows. rewrite length_join.
    rewrite (sum_list_fmap_same (Z.to_nat (number_of_classes (mc_tm w) * ncl))).
    - rewrite length_fmap, length_seq. unfold total.
      assert (0 <= number_of_classes (mc_tm w) * ncl).
      { unfold well_formed in Hwf. rewrite Hwf. nia. }
      nia.
    - apply Forall_fmap, Forall_forall. intros l' _. unfold compose.
      specialize (Hrow0 l'). fold pos in Hrow0. lia. }
  rewrite rows_inverted. fold R0. split.
  - intros k Hk.
    destruct (lookup_lt_is_Some_2 R0 k) as [a Ha]; [lia|].
    exists a, (1 - a). repeat split.
    + by apply lookup_app_l_Some.
    + apply lookup_app_l_Some. by rewrite list_lookup_fmap, Ha.
    + pose proof (rows_binary (machines w) X pos 0 (Z.to_nat number_of_examples)) as Hb.
      fold R0 in Hb. eapply (proj1 (Forall_lookup _ _) Hb) in Ha. lia.
  - intros k Hk.
    rewrite !lookup_app_r by (rewrite ?length_fmap; lia).
    rewrite !lookup_drop, length_fmap. split; f_equal; lia.
Qed.

(** C10.  [mc_tm_transform] reads [invert] as a truth value: a run with
    any [invert] other than 0 is the run with [invert = 1]. *)
Theorem transform_invert_is_boolean
    (X X_transformed : list Z) (invert number_of_examples : Z) (w : world) :
  invert <> 0 ->
  mc_tm_transform X X_transformed invert number_of_examples w
  = mc_tm_transform X X_transformed 1 number_of_examples w.
Proof.
  intros Hinvert. unfold mc_tm_transform, transform_class, transform_clause.
  replace (truth invert) with (truth 1); [done|].
  unfold truth. by rewrite (proj2 (Z.eqb_neq invert 0) Hinvert).
Qed.

End Transform.

(** ** Creation *)

Section Create.

Context {P : Platform} {E : Engine}.

Lemma create_engines (tm : TsetlinMachine) (number_of_classes : Z) (heap : list bool) :
  for_loop 0 number_of_classes (fun _ engines => ret (engines ++ [tm])) [] heap
  = Ok (replicate (Z.to_nat number_of_classes) tm, heap).
Proof.
  destruct (decide (number_of_classes <= 0)) as [Hn|Hn].
  { rewrite for_loop_empty by done. by replace (Z.to_nat number_of_classes) with 0%nat by lia. }
  destruct (returns_for_loop
              (fun i engines heap' => engines = replicate (Z.to_nat i) tm /\ heap' = heap)
              0 number_of_classes
              (fun _ engines => ret (engines ++ [tm])) [] heap)
    as (engines & heap' & -> & -> & ->); [lia|done| |done].
  intros i engines heap' Hi [-> ->]. simpl. apply returns_ret. split; [|done].
  replace (Z.to_nat (i + 1)) with (Datatypes.S (Z.to_nat i)) by lia.
  by rewrite replicate_S_end.
Qed.

(** C9, amended.  When both allocations succeed,
    [CreateMultiClassTsetlinMachine] returns an ensemble with exactly
    [number_of_classes] engines (none for a count that is not positive),
    each the result of its own [CreateTsetlinMachine] call on the same
    configuration arguments.  Neither allocation is tested: when the
    allocation of the ensemble fails, or that of the engine array fails
    and there is at least one class, the function writes through the null
    pointer, which is undefined behaviour and not a reported error. *)
Theorem create_builds_one_engine_per_class
    (number_of_classes number_of_clauses number_of_features number_of_patches
     number_of_ta_chunks number_of_state_bits T s s_range
     boost_true_positive_feedback weighted_clauses
     clause_drop_p literal_drop_p : Z) (heap : list bool) :
  let create :=
    CreateMultiClassTsetlinMachine number_of_classes number_of_clauses
      number_of_features number_of_patches number_of_ta_chunks number_of_state_bits
      T s s_range boost_true_positive_feedback weighted_clauses
      clause_drop_p literal_drop_p in
  let engine :=
    CreateTsetlinMachine number_of_clauses number_of_features number_of_patches
      number_of_ta_chunks number_of_state_bits T s s_range
      boost_true_positive_feedback weighted_clauses in
  create (true :: true :: heap)
    = Ok (mkMC number_of_classes (replicate (Z.to_nat number_of_classes) engine)
            number_of_patches number_of_ta_chunks number_of_state_bits
            clause_drop_p literal_drop_p, heap) /\
  create (false :: heap) = Undefined NullDereference /\
  (1 <= number_of_classes ->
   create (true :: false :: heap) = Undefined NullDereference).
Proof.
  intros create engine. unfold create, CreateMultiClassTsetlinMachine. repeat split.
  - unfold bind. simpl. fold engine. by rewrite create_engines.
  - intros Hn. unfold bind. simpl. rewrite for_loop_first by lia. done.
Qed.

End Create.

(** ** Storing and loading of state *)

Section State.

Context {P : Platform} {E : Engine}.

Lemma bulk_copy_all (n : Z) (src dst : list Z) :
  Z.of_nat (length src) = Z.max 0 n ->
  Z.of_nat (length dst) = Z.max 0 n ->
  bulk_copy n src dst = Ok src.
Proof.
  intros Hsrc Hdst. unfold bulk_copy. case_decide as Hn.
  - destruct src; [|simpl in Hsrc; lia]. destruct dst; [done|simpl in Hdst; lia].
  - rewrite decide_True by lia.
    by rewrite take_ge, drop_ge, app_nil_r by lia.
Qed.

Lemma mc_tm_get_state_Ok class (w : world) tm :
  0 <= class -> machines w !! Z.to_nat class = Some tm -> state_fits tm ->
  mc_tm_get_state class
    (replicate (Z.to_nat (TM.number_of_clauses tm)) 0)
    (replicate (Z.to_nat (TM.number_of_clauses tm * TM.number_of_ta_chunks tm
                          * TM.number_of_state_bits tm)) 0) w
  = Ok ((TM.clause_weights tm, TM.ta_state tm), w).
Proof.
  intros Hc Htm [Hta Hcw]. unfold mc_tm_get_state, bind.
  rewrite (tm_at_Ok class w tm) by done.
  unfold tm_get_ta_state, tm_get_clause_weights, lift.
  rewrite bulk_copy_all; [|done|rewrite length_replicate; lia].
  rewrite (tm_at_Ok class w tm) by done.
  rewrite bulk_copy_all; [done|done|rewrite length_replicate; lia].
Qed.

Lemma mc_tm_set_state_Ok class (w : world) tm (clause_weights ta_state : list Z) :
  0 <= class -> machines w !! Z.to_nat class = Some tm -> state_fits tm ->
  length ta_state = length (TM.ta_state tm) ->
  length clause_weights = length (TM.clause_weights tm) ->
  mc_tm_set_state class clause_weights ta_state w
  = Ok (tt, with_machines
              (<[Z.to_nat class :=
                   TM.set_clause_weights clause_weights (TM.set_ta_state ta_state tm)]>
                 (machines w)) w).
Proof.
  intros Hc Htm [Hta Hcw] Hlta Hlcw. unfold mc_tm_set_state, bind.
  pose proof (lookup_lt_Some _ _ _ Htm) as Hlt.
  rewrite (tm_at_Ok class w tm) by done.
  unfold tm_set_ta_state, lift. rewrite bulk_copy_all by (rewrite ?Hlta; done).
  rewrite set_tm_Ok by lia.
  rewrite (tm_at_Ok class _ (TM.set_ta_state ta_state tm)); [|done|].
  - unfold tm_set_clause_weights. simpl TM.number_of_clauses.
    simpl TM.clause_weights. rewrite bulk_copy_all by (rewrite ?Hlcw; done).
    rewrite set_tm_Ok by (rewrite machines_with_machines, length_insert; lia).
    by rewrite machines_with_machines, with_machines_twice, list_insert_insert_eq.
  - rewrite machines_with_machines. by apply list_lookup_insert_eq.
Qed.

(** The engine that [transfer_state] leaves in the class. *)
Lemma transfer_state_Ok hyperparameters (source w : world) class tm_s tm :
  0 <= class ->
  machines source !! Z.to_nat class = Some tm_s ->
  machines w !! Z.to_nat class = Some tm ->
  same_configuration hyperparameters tm_s tm -> state_fits tm_s -> state_fits tm ->
  transfer_state source class w
  = Ok (tt, with_machines
              (<[Z.to_nat class :=
                   TM.set_clause_weights (TM.clause_weights tm_s)
                     (TM.set_ta_state (TM.ta_state tm_s) tm)]>
                 (machines w)) w).
Proof.
  intros Hc Hs Htm (Hncl & _ & _ & Hnch & Hnsb & _) Hfs Hft. unfold transfer_state.
  rewrite (tm_at_Ok class source tm_s) by done.
  rewrite mc_tm_get_state_Ok by done.
  destruct Hfs as [Hs1 Hs2]. pose proof Hft as [Ht1 Ht2].
  apply mc_tm_set_state_Ok; try done.
  - apply Nat2Z.inj. rewrite Hs1, Ht1. by rewrite Hncl, Hnch, Hnsb.
  - apply Nat2Z.inj. rewrite Hs2, Ht2. by rewrite Hncl.
Qed.

Lemma transferred_alike hyperparameters tm_s tm :
  same_configuration hyperparameters tm_s tm -> same_masks tm_s tm ->
  alike hyperparameters tm_s
    (TM.set_clause_weights (TM.clause_weights tm_s)
       (TM.set_ta_state (TM.ta_state tm_s) tm)).
Proof. intros Hc Hm. by repeat split; try apply Hc; try apply Hm. Qed.

Lemma transfer_every_class hyperparameters (source w : world) :
  well_formed source ->
  number_of_classes (mc_tm w) = number_of_classes (mc_tm source) ->
  Forall2 (same_configuration hyperparameters) (machines source) (machines w) ->
  Forall2 same_masks (machines source) (machines w) ->
  Forall state_fits (machines source) ->
  Forall state_fits (machines w) ->
  exists engines,
    for_each 0 (number_of_classes (mc_tm source)) (transfer_state source) w
      = Ok (tt, with_machines engines w) /\
    Forall2 (alike hyperparameters) (machines source) engines.
Proof.
  intros Hwf Hnc Hconf Hmasks Hfs Hft.
  set (moved := zip_with
         (fun tm_s tm => TM.set_clause_weights (TM.clause_weights tm_s)
                           (TM.set_ta_state (TM.ta_state tm_s) tm))
         (machines source) (machines w)).
  pose proof (Forall2_length _ _ _ Hconf) as Hlen.
  assert (Hmoved : length moved = length (machines w)).
  { unfold moved. rewrite length_zip_with. lia. }
  exists moved. split.
  - unfold for_each.
    destruct (returns_for_loop
                (fun i (_ : unit) w' =>
                   w' = with_machines (take (Z.to_nat i) moved ++ drop (Z.to_nat i) (machines w)) w)
                0 (number_of_classes (mc_tm source))
                (fun i _ => transfer_state source i) tt w)
      as ([] & w' & -> & ->).
    + unfold well_formed in Hwf. lia.
    + simpl. by rewrite drop_0, with_machines_same.
    + intros i [] w' Hi ->. unfold well_formed in Hwf.
      destruct (lookup_lt_is_Some_2 (machines source) (Z.to_nat i)) as [tm_s Hs]; [lia|].
      destruct (lookup_lt_is_Some_2 (machines w) (Z.to_nat i)) as [tm Htm]; [lia|].
      eapply returns_Ok.
      * apply (transfer_state_Ok hyperparameters source _ i tm_s tm); [lia|done| | | |].
        -- rewrite machines_with_machines, lookup_take_drop by lia. done.
        -- by eapply Forall2_lookup_lr.
        -- by eapply (proj1 (Forall_lookup _ _) Hfs).
        -- by eapply (proj1 (Forall_lookup _ _) Hft).
      * rewrite machines_with_machines, with_machines_twice. f_equal.
        replace (Z.to_nat (i + 1)) with (Datatypes.S (Z.to_nat i)) by lia.
        apply insert_take_drop; [done|].
        unfold moved. rewrite lookup_zip_with, Hs. simpl. by rewrite Htm.
    + do 3 f_equal. unfold well_formed in Hwf.
      by rewrite take_ge, drop_ge, app_nil_r by lia.
  - unfold moved. clear -Hconf Hmasks. revert Hmasks.
    induction Hconf as [|tm_s tm ls lw Hc _ IH]; simpl; intros Hmasks.
    + constructor.
    + apply Forall2_cons_1 in Hmasks as [Hm Hmasks].
      constructor; [by apply transferred_alike|by apply IH].
Qed.

Lemma first_maximum_unique sums c1 c2 :
  first_maximum sums c1 -> first_maximum sums c2 -> c1 = c2.
Proof.
  intros (v1 & Hc1 & Hv1 & Hle1 & Hlt1) (v2 & Hc2 & Hv2 & Hle2 & Hlt2).
  destruct (Z.lt_trichotomy c1 c2) as [Hlt|[Heq|Hgt]]; [|done|].
  - pose proof (Hlt2 _ _ Hv1 ltac:(lia)). pose proof (Hle1 _ _ Hv2). lia.
  - pose proof (Hlt1 _ _ Hv2 ltac:(lia)). pose proof (Hle2 _ _ Hv1). lia.
Qed.

Lemma scored_alike hyperparameters tm1 tm2 X pos l :
  score_reads_learned_state hyperparameters -> alike hyperparameters tm1 tm2 ->
  alike hyperparameters (scored tm1 X pos l) (scored tm2 X pos l).
Proof.
  intros Hscore Halike. induction l as [|l IH]; [done|]. simpl. by apply Hscore.
Qed.

Lemma class_sums_alike hyperparameters engines1 engines2 X pos l :
  score_reads_learned_state hyperparameters ->
  Forall2 (alike hyperparameters) engines1 engines2 ->
  (fun tm => class_sum tm X pos l) <$> engines1
  = (fun tm => class_sum tm X pos l) <$> engines2.
Proof.
  intros Hscore Hall. induction Hall as [|tm1 tm2 l1 l2 Htm _ IH]; [done|].
  simpl. f_equal; [|done]. unfold class_sum. by apply Hscore, scored_alike.
Qed.

Lemma predictions_alike hyperparameters (w1 w2 : world) (X y : list Z)
    (number_of_examples : Z) :
  score_reads_learned_state hyperparameters ->
  well_formed w1 -> well_formed w2 ->
  1 <= number_of_classes (mc_tm w1) ->
  number_of_classes (mc_tm w2) = number_of_classes (mc_tm w1) ->
  number_of_patches (mc_tm w2) = number_of_patches (mc_tm w1) ->
  number_of_ta_chunks (mc_tm w2) = number_of_ta_chunks (mc_tm w1) ->
  Forall2 (alike hyperparameters) (machines w1) (machines w2) ->
  number_of_examples <= Z.of_nat (length y) ->
  exists y',
    predictions X y number_of_examples w1 = Some y' /\
    predictions X y number_of_examples w2 = Some y'.
Proof.
  intros Hscore Hwf1 Hwf2 Hnc Hnc2 Hnp Hnch Hall Hy.
  destruct (mc_tm_predict_returns X y number_of_examples w1)
    as (y1 & w1' & Hrun1 & Hlen1 & Hdone1 & Hrest1 & _); [done..|].
  destruct (mc_tm_predict_returns X y number_of_examples w2)
    as (y2 & w2' & Hrun2 & Hlen2 & Hdone2 & Hrest2 & _); [done|lia|done|].
  exists y1. unfold predictions. rewrite Hrun1, Hrun2. split; [done|]. f_equal.
  apply list_eq. intros l.
  destruct (decide (Z.of_nat l < number_of_examples)) as [Hl|Hl].
  - destruct (Hdone1 l Hl) as (c1 & -> & Hc1).
    destruct (Hdone2 l Hl) as (c2 & -> & Hc2). f_equal.
    assert (Hpos : predict_pos (mc_tm w2) = predict_pos (mc_tm w1)).
    { unfold predict_pos. by rewrite Hnp, Hnch. }
    rewrite Hpos in Hc2.
    rewrite <- (class_sums_alike hyperparameters _ _ X _ l Hscore Hall) in Hc2.
    by eapply first_maximum_unique.
  - rewrite Hrest1, Hrest2 by lia. done.
Qed.

(** C8, amended.  Take two well-formed ensembles of one configuration,
    with at least one class, whose engines hold the same dropout masks,
    class by class, and automaton state and clause weights of the extents
    that the accessors copy; the first may have been trained, the second
    is fresh.  Take an engine whose score is decided by its
    configuration, automaton state, clause weights and dropout masks,
    whatever else it keeps and changes.  Reading the state of every class
    out of the first ensemble with [mc_tm_get_state] and writing it into
    the same class of the second with [mc_tm_set_state] succeeds, and
    afterwards [mc_tm_predict] writes the same class ids for both, on
    every input. *)
Theorem transferred_state_reproduces_predictions
    (hyperparameters : list Z -> list Z) (source w : world) :
  score_reads_learned_state hyperparameters ->
  well_formed source -> well_formed w ->
  1 <= number_of_classes (mc_tm source) ->
  number_of_classes (mc_tm w) = number_of_classes (mc_tm source) ->
  number_of_patches (mc_tm w) = number_of_patches (mc_tm source) ->
  number_of_ta_chunks (mc_tm w) = number_of_ta_chunks (mc_tm source) ->
  Forall2 (same_configuration hyperparameters) (machines source) (machines w) ->
  Forall2 same_masks (machines source) (machines w) ->
  Forall state_fits (machines source) ->
  Forall state_fits (machines w) ->
  exists w',
    for_each 0 (number_of_classes (mc_tm source)) (transfer_state source) w = Ok (tt, w') /\
    forall (X y : list Z) (number_of_examples : Z),
      number_of_examples <= Z.of_nat (length y) ->
      exists y',
        predictions X y number_of_examples source = Some y' /\
        predictions X y number_of_examples w' = Some y'.
Proof.
  intros Hscore Hwfs Hwf Hnc Hnc' Hnp Hnch Hconf Hmasks Hfs Hft.
  destruct (transfer_every_class hyperparameters source w)
    as (engines & Hrun & Halike); try done.
  exists (with_machines engines w). split; [done|].
  intros X y number_of_examples Hy.
  apply (predictions_alike hyperparameters); try done.
  apply well_formed_with_machines; [|done].
  rewrite <- (Forall2_length _ _ _ Halike). apply (Forall2_length _ _ _ Hconf).
Qed.

End State.

(** * Runs on the toy engine *)

Section Runs.

#[local] Existing Instance Glibc.platform.
#[local] Existing Instance Toy.engine.

Lemma Toy_update_keeps_masks : update_keeps_masks.
Proof. intros tm Xi pos target rs Hfit. exact Hfit. Qed.

Lemma Toy_score_keeps_clauses ncl : score_keeps_clauses ncl.
Proof.
  intros tm X pos [Hn Hfit]. split; simpl; [done|]. by rewrite length_replicate.
Qed.


(** [Toy.machine] is what creation and initialisation build. *)
Example Toy_machine_created :
  CreateMultiClassTsetlinMachine 3 4 2 1 1 2 10 0 0 0 0 Glibc.half_f Glibc.zero_f
    [true; true]
  = Ok (mkMC 3 (replicate 3 (Toy.Create 4 2 1 1 2 10 0 0 0 0)) 1 1 2
          Glibc.half_f Glibc.zero_f, []) /\
  mc_tm_initialize
    (mkWorld [] (mkMC 3 (replicate 3 (Toy.Create 4 2 1 1 2 10 0 0 0 0)) 1 1 2
                   Glibc.half_f Glibc.zero_f))
  = Ok (tt, Toy.start []).
Proof. split; vm_compute; reflexivity. Qed.

(** [Toy.trained] is reached by one update towards class 2. *)
Example Toy_trained_by_update :
  mc_tm_update [15] 0 2 (Toy.start [0; 0; 0]) = Ok (tt, Toy.trained []).
Proof. vm_compute. reflexivity. Qed.

(** Three classes with equal sums: the lowest index is written. *)
Example Toy_predict_tie :
  predictions [5; 3; 0] [9; 9; 9; 9] 3 (Toy.start []) = Some [0; 0; 0; 9].
Proof. vm_compute. reflexivity. Qed.

Example Toy_predict_trained :
  predictions [5; 3; 0] [9; 9; 9; 9] 3 (Toy.trained []) = Some [2; 2; 0; 9].
Proof. vm_compute. reflexivity. Qed.

(** *** C1 *)

(** C1, counterexample.  With no epoch to run, [mc_tm_fit] returns and
    the bits that were set in the masks at the call are still set. *)
Lemma fit_without_epochs_keeps_stale_masks :
  mc_tm_fit [5; 3; 0] [0; 1; 2] 3 0 (Toy.stale Toy.stream)
    = Ok (tt, Toy.stale Toy.stream) /\
  ~ Forall dropout_off (machines (Toy.stale Toy.stream)).
Proof.
  split; [vm_compute; reflexivity|].
  intros Hoff. apply Forall_inv in Hoff as [Hclause _].
  apply Forall_inv in Hclause. discriminate Hclause.
Qed.

Lemma fit_leaves_dropout_off_witness :
  exists w',
    mc_tm_fit [5; 3; 0] [0; 1; 2] 3 2 (Toy.stale Toy.stream) = Ok (tt, w') /\
    (1 <= 2 -> Forall dropout_off (machines w')) /\
    (2 <= 0 -> w' = Toy.stale Toy.stream).
Proof.
  eexists. split; [vm_compute; reflexivity|].
  apply (fit_leaves_dropout_off [5; 3; 0] [0; 1; 2] 3 2 (Toy.stale Toy.stream)).
  - exact Toy_update_keeps_masks.
  - split; [reflexivity|]. repeat constructor.
  - vm_compute. reflexivity.
Defined.

(** *** C2 *)



(** Beyond the bound the product is rounded: with 8388611 classes the
    draw 1909806421 has the exact quotient 7460184 - 1/2^31, and line 126
    gives it the class 7460184. *)
Example large_products_are_rounded :
  8388611 * 1909806421 = 7460184 * 2 ^ 31 - 1 /\
  class_of_draw 8388611 1909806421 = 7460184.
Proof. split; vm_compute; reflexivity. Qed.

(** At the ends of the runs of three classes, the double arithmetic and
    the integer quotient agree. *)
Example small_products_are_exact :
  (fun r => int_of_double (rounded_quotient 3 r 2147483648))
    <$> [0; 715827882; 715827883; 1431655765; 1431655766; 2147483647]
  = (fun r => (3 * r) `div` 2147483648)
    <$> [0; 715827882; 715827883; 1431655765; 1431655766; 2147483647].
Proof. vm_compute. reflexivity. Qed.

Example Toy_update :
  mc_tm_update [15] 0 1 (Toy.start Toy.stream)
  = Ok (tt,
        mkWorld (drop 3 Toy.stream)
          (set_tsetlin_machines
             ((fun weight =>
                 TM.set_clause_weights (replicate 4 weight)
                   (Toy.initialize (Toy.Create 4 2 1 1 2 10 0 0 0 0))) <$> [0; 2; 1])
             Toy.machine)).
Proof. vm_compute. reflexivity. Qed.

(** *** C3 *)

Lemma predict_lowest_index_of_largest_sum_witness :
  returns (mc_tm_predict [5; 3; 0] [9; 9; 9; 9] 3) (Toy.start []) (fun y' w' =>
    length y' = length [9; 9; 9; 9] /\
    (forall l : nat, Z.of_nat l < 3 ->
       exists c, y' !! l = Some c /\
         first_maximum
           ((fun tm => class_sum tm [5; 3; 0] (predict_pos Toy.machine) l)
              <$> machines (Toy.start [])) c) /\
    (forall l : nat, 3 <= Z.of_nat l -> y' !! l = [9; 9; 9; 9] !! l) /\
    w' = with_machines
           ((fun tm => scored tm [5; 3; 0] (predict_pos Toy.machine) (Z.to_nat 3))
              <$> machines (Toy.start [])) (Toy.start [])).
Proof.
  apply (predict_lowest_index_of_largest_sum [5; 3; 0] [9; 9; 9; 9] 3 (Toy.start [])).
  - reflexivity.
  - simpl. lia.
  - simpl. lia.
Defined.

(** *** C4 *)

Lemma shuffle_yields_permutation_witness :
  for_loop 0 5 (fun i index => store index i i) (replicate (Z.to_nat 5) 0)
    (Toy.start Toy.stream)
  = Ok (seqZ 0 5, Toy.start Toy.stream) /\
  returns (shuffle [0; 1; 2; 3; 4] (to_size_t 5)) (Toy.start Toy.stream)
    (fun index' w' =>
       index' ≡ₚ seqZ 0 5 /\
       Z.of_nat (length index') = 5 /\
       (forall k, 0 <= k < 5 -> count_occ Z.eq_dec index' k = 1%nat) /\
       (forall k, k ∈ index' -> 0 <= k < 5) /\
       draws w' = drop (Z.to_nat (5 - 1)) (draws (Toy.start Toy.stream)) /\
       mc_tm w' = mc_tm (Toy.start Toy.stream)).
Proof.
  apply (shuffle_yields_permutation 5 [0; 1; 2; 3; 4] (Toy.start Toy.stream)).
  - simpl. lia.
  - lia.
  - reflexivity.
  - simpl. lia.
  - unfold valid_draw. simpl. repeat constructor; lia.
Defined.

Example Toy_shuffle :
  shuffle [0; 1; 2; 3; 4] (to_size_t 5) (Toy.start Toy.stream)
  = Ok ([2; 1; 4; 3; 0], Toy.start (drop 4 Toy.stream)).
Proof. vm_compute. reflexivity. Qed.

(** *** C5 *)

(** C5.  The call of [mc_tm_fit] with no example and one epoch, which
    the claim has return with nothing changed, does not return: the epoch
    loop enters [shuffle] with [n = 0], whose loop has no guard for it,
    the [size_t] bound [n - 1] wraps around to 2^64 - 1, and the first
    turn divides [RAND_MAX] by [n - i = 0]. *)
Theorem fit_without_examples_divides_by_zero :
  shuffle [] (to_size_t 0) (Toy.start Toy.stream) = Undefined DivisionByZero /\
  mc_tm_fit [] [] 0 1 (Toy.start Toy.stream) = Undefined DivisionByZero.
Proof. split; vm_compute; reflexivity. Qed.

(** *** C6, C7 and C10 *)

Lemma Toy_holds_clauses : Forall (holds_clauses 4) (machines (Toy.start [])).
Proof. repeat (constructor; [split; [reflexivity|simpl; lia]|]). constructor. Qed.

Lemma transform_layout_and_entries_witness :
  returns (mc_tm_transform [5; 3; 0] (replicate 40 7) 0 3) (Toy.start []) (fun out w' =>
    out = rows (machines (Toy.start [])) [5; 3; 0] (transform_pos Toy.machine) 0 (Z.to_nat 3)
          ++ drop (Z.to_nat (Z.max 0 3 * (3 * 4))) (replicate 40 7) /\
    (forall l : nat,
       Z.of_nat (length (row (machines (Toy.start [])) [5; 3; 0]
                           (transform_pos Toy.machine) 0 l))
       = 3 * 4) /\
    (forall (l i j : nat) (tm : TsetlinMachine),
       Z.of_nat l < 3 ->
       machines (Toy.start []) !! i = Some tm ->
       Z.of_nat j < 4 ->
       out !! (l * (length (machines (Toy.start [])) * Z.to_nat 4) + (i * Z.to_nat 4 + j))%nat
       = Some (emitted
                 (clause_fires (scored tm [5; 3; 0] (transform_pos Toy.machine) (Datatypes.S l))
                    (Z.of_nat j))
                 0)) /\
    w' = with_machines
           ((fun tm => scored tm [5; 3; 0] (transform_pos Toy.machine) (Z.to_nat 3))
              <$> machines (Toy.start [])) (Toy.start [])).
Proof.
  apply (transform_layout_and_entries [5; 3; 0] (replicate 40 7) 0 3 (Toy.start []) 4).
  - reflexivity.
  - apply Toy_score_keeps_clauses.
  - exact Toy_holds_clauses.
  - lia.
  - simpl. lia.
  - simpl. lia.
Defined.

Example Toy_transform :
  mc_tm_transform [5; 3; 0] (replicate 40 7) 0 3 (Toy.start [])
  = Ok ([1; 0; 1; 0; 1; 0; 1; 0; 1; 0; 1; 0;
         1; 1; 0; 0; 1; 1; 0; 0; 1; 1; 0; 0;
         0; 0; 0; 0; 0; 0; 0; 0; 0; 0; 0; 0;
         7; 7; 7; 7],
        with_machines ((fun tm => fst (Toy.score tm [0] 0)) <$> machines (Toy.start []))
          (Toy.start [])).
Proof. vm_compute. reflexivity. Qed.

Lemma transform_inverted_is_complement_witness :
  exists out0 out1 w',
    mc_tm_transform [5; 3; 0] (replicate 40 7) 0 3 (Toy.start []) = Ok (out0, w') /\
    mc_tm_transform [5; 3; 0] (replicate 40 7) 1 3 (Toy.start []) = Ok (out1, w') /\
    (forall k : nat,
       Z.of_nat k < Z.max 0 3 * (3 * 4) ->
       exists a b,
         out0 !! k = Some a /\ out1 !! k = Some b /\
         (a = 1 /\ b = 0 \/ a = 0 /\ b = 1)) /\
    (forall k : nat,
       Z.max 0 3 * (3 * 4) <= Z.of_nat k ->
       out0 !! k = replicate 40 7 !! k /\ out1 !! k = replicate 40 7 !! k).
Proof.
  apply (transform_inverted_is_complement [5; 3; 0] (replicate 40 7) 3 (Toy.start []) 4).
  - reflexivity.
  - apply Toy_score_keeps_clauses.
  - exact Toy_holds_clauses.
  - lia.
  - simpl. lia.
  - simpl. lia.
Defined.

Lemma transform_invert_is_boolean_witness :
  mc_tm_transform [5; 3; 0] (replicate 40 7) 2 3 (Toy.start [])
  = mc_tm_transform [5; 3; 0] (replicate 40 7) 1 3 (Toy.start []).
Proof.
  apply (transform_invert_is_boolean [5; 3; 0] (replicate 40 7) 2 3 (Toy.start [])).
  lia.
Defined.

(** *** C9 *)

(** C9, counterexample.  When the allocation of the ensemble fails, the
    run is undefined behaviour, a write through the null pointer, and not
    a failure that is reported to the caller. *)
Lemma create_writes_through_null :
  CreateMultiClassTsetlinMachine 3 4 2 1 1 2 10 0 0 0 0 Glibc.half_f Glibc.zero_f
    [false; true]
  = Undefined NullDereference.
Proof. vm_compute. reflexivity. Qed.

Lemma create_builds_one_engine_per_class_witness :
  CreateMultiClassTsetlinMachine 3 4 2 1 1 2 10 0 0 0 0 Glibc.half_f Glibc.zero_f
    [true; true]
  = Ok (mkMC 3 (replicate (Z.to_nat 3) (CreateTsetlinMachine 4 2 1 1 2 10 0 0 0 0))
          1 1 2 Glibc.half_f Glibc.zero_f, []) /\
  CreateMultiClassTsetlinMachine 3 4 2 1 1 2 10 0 0 0 0 Glibc.half_f Glibc.zero_f [false]
  = Undefined NullDereference /\
  (1 <= 3 ->
   CreateMultiClassTsetlinMachine 3 4 2 1 1 2 10 0 0 0 0 Glibc.half_f Glibc.zero_f
     [true; false]
   = Undefined NullDereference).
Proof.
  exact (create_builds_one_engine_per_class 3 4 2 1 1 2 10 0 0 0 0
           Glibc.half_f Glibc.zero_f []).
Defined.

End Runs.

(** * Runs on the masked engine *)

Section MaskedRuns.

#[local] Existing Instance Glibc.platform.
#[local] Existing Instance Masked.engine.

Lemma Masked_score_reads_learned_state :
  score_reads_learned_state Masked.hyperparameters.
Proof.
  intros tm1 tm2 X pos (Hconf & Hta & Hcw & Hdc & Hdl). split.
  - simpl. by rewrite Hcw, Hdc.
  - repeat split; simpl; try done; apply Hconf.
Qed.

(** [Masked.start] is what creation and initialisation build. *)
Example Masked_machine_created :
  exists m,
    CreateMultiClassTsetlinMachine 3 4 2 1 1 2 10 0 0 0 0 Glibc.half_f Glibc.zero_f
      [true; true] = Ok (m, []) /\
    mc_tm_initialize (mkWorld [] m) = Ok (tt, Masked.start []).
Proof. eexists. split; vm_compute; reflexivity. Qed.

(** [Masked.trained] is reached by one update towards class 2; the
    engines of the classes 2 and 0 have counted it. *)
Example Masked_trained_by_update :
  mc_tm_update [15] 0 2 (Masked.start [0; 0; 0]) = Ok (tt, Masked.trained []) /\
  TM.rest <$> machines (Masked.trained []) <> TM.rest <$> machines (Masked.start []).
Proof. split; [vm_compute; reflexivity|discriminate]. Qed.

(** *** C8 *)

(** C8, counterexample.  The trained ensemble predicts class 2 on the
    example 15.  A fresh ensemble that receives the state of class 0
    alone predicts class 1: its classes 1 and 2 are still as
    initialisation left them.  And when the trained ensemble has the
    clauses of class 2 masked, it predicts class 1, while a fresh ensemble
    that receives the state of every class predicts class 2: the masks
    are no part of the state that is moved. *)
Lemma partial_or_masked_transfer_changes_predictions :
  (exists w',
     transfer_state (Masked.trained []) 0 (Masked.start []) = Ok (tt, w') /\
     predictions [15] [0] 1 (Masked.trained []) = Some [2] /\
     predictions [15] [0] 1 w' = Some [1]) /\
  (exists w',
     for_each 0 3 (transfer_state (Masked.stale [])) (Masked.start []) = Ok (tt, w') /\
     predictions [15] [0] 1 (Masked.stale []) = Some [1] /\
     predictions [15] [0] 1 w' = Some [2]).
Proof. split; eexists; repeat split; vm_compute; reflexivity. Qed.

Lemma transferred_state_reproduces_predictions_witness :
  exists w',
    for_each 0 3 (transfer_state (Masked.trained [])) (Masked.start []) = Ok (tt, w') /\
    forall (X y : list Z) (number_of_examples : Z),
      number_of_examples <= Z.of_nat (length y) ->
      exists y',
        predictions X y number_of_examples (Masked.trained []) = Some y' /\
        predictions X y number_of_examples w' = Some y'.
Proof.
  apply (transferred_state_reproduces_predictions Masked.hyperparameters
           (Masked.trained []) (Masked.start [])).
  - exact Masked_score_reads_learned_state.
  - reflexivity.
  - reflexivity.
  - simpl. lia.
  - reflexivity.
  - reflexivity.
  - reflexivity.
  - repeat constructor.
  - repeat constructor.
  - repeat constructor.
  - repeat constructor.
Defined.

End MaskedRuns.

(** * Further properties of the layer *)

(** ** What every operation leaves alone *)

Section Header.

Context {P : Platform} {E : Engine}.

Lemma for_loop_split {S A} lo mid hi (body : Z -> A -> M S A) a s :
  lo <= mid <= hi ->
  for_loop lo hi body a s
  = bind (for_loop lo mid body a) (fun a' => for_loop mid hi body a') s.
Proof.
  intros Hm. rewrite for_loop_range.
  replace (Z.to_nat (hi - lo)) with (Z.to_nat (mid - lo) + Z.to_nat (hi - mid))%nat by lia.
  rewrite for_range_add. unfold bind. rewrite <- for_loop_range.
  destruct (for_loop lo mid body a s) as [[a' s']| |]; [|done..].
  rewrite for_loop_range. f_equal. lia.
Qed.

Lemma header_draws rs rs' m : header (mkWorld rs m) = header (mkWorld rs' m).
Proof. done. Qed.

Lemma keeps_header_rand h : keeps (fun w => header w = h) rand.
Proof.
  intros [rs m] Hw r w'. unfold rand. simpl. destruct rs as [|r' rs]; [done|].
  by intros [= <- <-].
Qed.

Lemma keeps_header_tm_at h i : keeps (fun w => header w = h) (tm_at i).
Proof. by intros w Hw tm w' (_ & _ & ->)%tm_at_inv. Qed.

Lemma keeps_header_set_tm h i tm : keeps (fun w => header w = h) (set_tm i tm).
Proof.
  intros w Hw u w' (Hi & ->)%set_tm_inv. rewrite <- Hw.
  unfold header. rewrite machines_with_machines, length_insert. done.
Qed.

Lemma keeps_header_lift {A} h (o : outcome A) : keeps (fun w => header w = h) (lift o).
Proof. intros w Hw a w'. unfold lift. destruct o; [|done..]. by intros [= <- <-]. Qed.

Lemma keeps_header_tm_score_at h i X pos :
  keeps (fun w => header w = h) (tm_score_at i X pos).
Proof.
  unfold tm_score_at. apply keeps_bind; [apply keeps_header_tm_at|]. intros tm.
  destruct (tm_score tm X pos) as [tm' class_sum].
  apply keeps_bind; [apply keeps_header_set_tm|]. intros _. apply keeps_ret.
Qed.

Lemma keeps_header_tm_update_at h i Xi pos target :
  keeps (fun w => header w = h) (tm_update_at i Xi pos target).
Proof.
  unfold tm_update_at. apply keeps_bind; [apply keeps_header_tm_at|].
  intros tm w Hw u w'.
  destruct (tm_update tm Xi pos target (draws w)) as [tm' rs].
  apply (keeps_header_set_tm h i tm'). exact Hw.
Qed.

Create HintDb header.

#[local] Hint Resolve keeps_ret keeps_load keeps_store keeps_get_mc
  keeps_remaining_draws keeps_crash keeps_starve keeps_header_rand
  keeps_header_tm_at keeps_header_set_tm keeps_header_lift
  keeps_header_tm_score_at keeps_header_tm_update_at : header.

Ltac keeps_header :=
  repeat first
    [ progress auto with header
    | apply keeps_bind
    | apply keeps_for_each
    | apply keeps_for_loop
    | match goal with |- forall _ : _ * _, _ => intros [? ?] end
    | match goal with |- forall _, _ => intro end
    | match goal with |- keeps _ (if ?b then _ else _) => destruct b end
    | match goal with |- keeps _ (let '(_, _) := ?p in _) => destruct p end ].

Lemma keeps_header_initialize h : keeps (fun w => header w = h) mc_tm_initialize.
Proof. unfold mc_tm_initialize, tm_initialize_at. keeps_header. Qed.

Lemma keeps_header_predict h X y n : keeps (fun w => header w = h) (mc_tm_predict X y n).
Proof. unfold mc_tm_predict, largest_class. keeps_header. Qed.

Lemma keeps_header_redraw h fuel target_class c :
  keeps (fun w => header w = h) (redraw fuel target_class c).
Proof.
  revert c. induction fuel as [|fuel IH]; intros c; simpl; unfold draw_class;
    keeps_header.
Qed.

Lemma keeps_header_update h Xi pos target_class :
  keeps (fun w => header w = h) (mc_tm_update Xi pos target_class).
Proof.
  unfold mc_tm_update, draw_class. pose proof (keeps_header_redraw h). keeps_header.
Qed.

Lemma keeps_header_fit h X y n epochs :
  keeps (fun w => header w = h) (mc_tm_fit X y n epochs).
Proof.
  pose proof (keeps_header_update h).
  unfold mc_tm_fit, epoch, shuffle, regenerate_dropout, turn_off_dropout,
    clear_drop_clause, draw_drop_clause, clear_drop_literal, draw_drop_literal,
    drop_clause_load, drop_clause_store, drop_literal_load, drop_literal_store.
  keeps_header.
Qed.

Lemma keeps_header_transform h X X_transformed invert n :
  keeps (fun w => header w = h) (mc_tm_transform X X_transformed invert n).
Proof. unfold mc_tm_transform, transform_class, transform_clause. keeps_header. Qed.

Lemma keeps_header_set_state h class clause_weights ta_state :
  keeps (fun w => header w = h) (mc_tm_set_state class clause_weights ta_state).
Proof. unfold mc_tm_set_state. keeps_header. Qed.

(** X1.  No training, scoring or loading call adds or removes an engine or
    changes a hyperparameter of the ensemble; in particular a well-formed
    ensemble stays well-formed. *)
Theorem operations_keep_the_header (w : world) :
  ensures mc_tm_initialize w (fun _ w' => header w' = header w) /\
  (forall X y n, ensures (mc_tm_predict X y n) w (fun _ w' => header w' = header w)) /\
  (forall Xi pos target_class,
     ensures (mc_tm_update Xi pos target_class) w (fun _ w' => header w' = header w)) /\
  (forall X y n epochs,
     ensures (mc_tm_fit X y n epochs) w (fun _ w' => header w' = header w)) /\
  (forall X X_transformed invert n,
     ensures (mc_tm_transform X X_transformed invert n) w
       (fun _ w' => header w' = header w)) /\
  (forall class clause_weights ta_state,
     ensures (mc_tm_set_state class clause_weights ta_state) w
       (fun _ w' => header w' = header w)) /\
  (forall w', header w' = header w -> well_formed w -> well_formed w').
Proof.
  repeat split.
  - by apply keeps_header_initialize.
  - intros. by apply keeps_header_predict.
  - intros. by apply keeps_header_update.
  - intros. by apply keeps_header_fit.
  - intros. by apply keeps_header_transform.
  - intros. by apply keeps_header_set_state.
  - unfold well_formed. intros w' [= Hnc Hlen _ _ _ _ _] Hwf. by rewrite Hnc, Hlen.
Qed.

End Header.

(** ** Initialisation and prediction *)

Section FreshEnsembles.

Context {P : Platform} {E : Engine}.

(** The loop of lines 66-68 over the first [n] engines. *)
Lemma initialize_prefix (w : world) (n : Z) :
  0 <= n <= Z.of_nat (length (machines w)) ->
  for_each 0 n tm_initialize_at w
  = Ok (tt, with_machines
              (take (Z.to_nat n) (tm_initialize <$> machines w)
               ++ drop (Z.to_nat n) (machines w)) w).
Proof.
  intros Hn. unfold for_each.
  destruct (returns_for_loop
              (fun i (_ : unit) w' =>
                 w' = with_machines
                        (take (Z.to_nat i) (tm_initialize <$> machines w)
                         ++ drop (Z.to_nat i) (machines w)) w)
              0 n (fun i _ => tm_initialize_at i) tt w)
    as ([] & w' & -> & ->); [lia| | |done].
  - simpl. by rewrite drop_0, with_machines_same.
  - intros i [] w' Hi ->.
    destruct (lookup_lt_is_Some_2 (machines w) (Z.to_nat i)) as [tm Htm]; [lia|].
    eapply returns_Ok.
    + unfold tm_initialize_at, bind. rewrite (tm_at_Ok i _ tm); [|lia|].
      * apply set_tm_Ok. rewrite machines_with_machines, length_app, length_take,
          length_drop, length_fmap. lia.
      * rewrite machines_with_machines, lookup_take_drop by (rewrite length_fmap; lia).
        done.
    + rewrite machines_with_machines, with_machines_twice. f_equal.
      replace (Z.to_nat (i + 1)) with (Datatypes.S (Z.to_nat i)) by lia.
      apply insert_take_drop; [by rewrite length_fmap|].
      by rewrite list_lookup_fmap, Htm.
Qed.

Lemma mc_tm_initialize_Ok (w : world) :
  well_formed w ->
  mc_tm_initialize w = Ok (tt, with_machines (tm_initialize <$> machines w) w).
Proof.
  intros Hwf. unfold well_formed in Hwf. unfold mc_tm_initialize, bind. simpl.
  rewrite initialize_prefix by lia. rewrite Hwf, Nat2Z.id.
  by rewrite take_ge, drop_ge, app_nil_r by (rewrite ?length_fmap; lia).
Qed.

(** X2.  [mc_tm_initialize] initialises the engines that the class count
    covers, each once, and nothing else; a class count beyond the engine
    array makes it read past the array. *)
Theorem initialize_every_engine (w : world) :
  (number_of_classes (mc_tm w) <= Z.of_nat (length (machines w)) ->
   mc_tm_initialize w
   = Ok (tt, with_machines
               (take (Z.to_nat (number_of_classes (mc_tm w))) (tm_initialize <$> machines w)
                ++ drop (Z.to_nat (number_of_classes (mc_tm w))) (machines w)) w)) /\
  (well_formed w ->
   mc_tm_initialize w = Ok (tt, with_machines (tm_initialize <$> machines w) w)) /\
  (Z.of_nat (length (machines w)) < number_of_classes (mc_tm w) ->
   mc_tm_initialize w = Undefined OutOfBounds).
Proof.
  split; [|split].
  - intros Hnc. unfold mc_tm_initialize, bind. simpl.
    destruct (decide (number_of_classes (mc_tm w) <= 0)) as [Hn|Hn].
    + unfold for_each. rewrite for_loop_empty by done.
      replace (Z.to_nat (number_of_classes (mc_tm w))) with 0%nat by lia.
      simpl. by rewrite drop_0, with_machines_same.
    + apply initialize_prefix. lia.
  - apply mc_tm_initialize_Ok.
  - intros Hnc. unfold mc_tm_initialize, bind. simpl. unfold for_each.
    rewrite (for_loop_split 0 (Z.of_nat (length (machines w)))) by lia.
    unfold bind. fold (for_each 0 (Z.of_nat (length (machines w))) tm_initialize_at).
    rewrite initialize_prefix by lia. rewrite for_loop_first by lia.
    unfold bind, tm_initialize_at, bind, tm_at, load.
    rewrite decide_True by lia. fold (machines (with_machines
      (take (Z.to_nat (Z.of_nat (length (machines w)))) (tm_initialize <$> machines w)
       ++ drop (Z.to_nat (Z.of_nat (length (machines w)))) (machines w)) w)).
    rewrite machines_with_machines, lookup_ge_None_2; [done|].
    rewrite length_app, length_take, length_drop, length_fmap. lia.
Qed.

Lemma first_maximum_of_equal_sums (k : nat) (v c : Z) :
  first_maximum (replicate k v) c -> c = 0.
Proof.
  intros (v' & Hc & Hv & _ & Hlt).
  destruct (decide (c = 0)) as [|Hne]; [done|].
  pose proof (lookup_lt_Some _ _ _ Hv) as Hk. rewrite length_replicate in Hk.
  apply lookup_replicate in Hv as [-> _].
  assert (H0 : replicate k v !! 0%nat = Some v) by (apply lookup_replicate_2; lia).
  specialize (Hlt _ _ H0). lia.
Qed.

(** When all engines of an ensemble are equal, [mc_tm_predict] writes
    class 0 for every example: the sums tie and the strict comparison of
    line 100 never replaces the first class. *)
Lemma equal_engines_predict_class_0 (tm : TsetlinMachine) (k : nat)
    (X y : list Z) (number_of_examples : Z) (w : world) :
  well_formed w ->
  machines w = replicate k tm ->
  (1 <= k)%nat ->
  0 <= number_of_examples <= Z.of_nat (length y) ->
  predictions X y number_of_examples w
  = Some (replicate (Z.to_nat number_of_examples) 0 ++ drop (Z.to_nat number_of_examples) y).
Proof.
  intros Hwf Hms Hk Hn.
  destruct (mc_tm_predict_returns X y number_of_examples w)
    as (y' & w' & Hrun & Hlen & Hdone & Hrest & _); [done| |lia|].
  { unfold well_formed in Hwf. rewrite Hwf, Hms, length_replicate. lia. }
  unfold predictions. rewrite Hrun. f_equal. apply list_eq. intros l.
  destruct (decide (Z.of_nat l < number_of_examples)) as [Hl|Hl].
  - destruct (Hdone l Hl) as (c & -> & Hc).
    rewrite Hms, fmap_replicate in Hc. apply first_maximum_of_equal_sums in Hc as ->.
    rewrite lookup_app_l by (rewrite length_replicate; lia).
    symmetry. apply lookup_replicate_2. lia.
  - rewrite Hrest by lia.
    rewrite lookup_app_r by (rewrite length_replicate; lia).
    rewrite length_replicate, lookup_drop. f_equal. lia.
Qed.

(** X3.  An ensemble that has just been created and initialised predicts
    class 0 for every example: its engines are built by identical calls,
    so their sums tie. *)
Theorem fresh_ensemble_predicts_class_0
    (number_of_classes number_of_clauses number_of_features number_of_patches
     number_of_ta_chunks number_of_state_bits T s s_range
     boost_true_positive_feedback weighted_clauses
     clause_drop_p literal_drop_p : Z) (heap : list bool) (rs : list Z)
    (X y : list Z) (number_of_examples : Z) :
  1 <= number_of_classes ->
  0 <= number_of_examples <= Z.of_nat (length y) ->
  exists m w,
    CreateMultiClassTsetlinMachine number_of_classes number_of_clauses
      number_of_features number_of_patches number_of_ta_chunks number_of_state_bits
      T s s_range boost_true_positive_feedback weighted_clauses
      clause_drop_p literal_drop_p (true :: true :: heap) = Ok (m, heap) /\
    mc_tm_initialize (mkWorld rs m) = Ok (tt, w) /\
    predictions X y number_of_examples w
    = Some (replicate (Z.to_nat number_of_examples) 0
            ++ drop (Z.to_nat number_of_examples) y).
Proof.
  intros Hnc Hn.
  set (tm := CreateTsetlinMachine number_of_clauses number_of_features number_of_patches
               number_of_ta_chunks number_of_state_bits T s s_range
               boost_true_positive_feedback weighted_clauses).
  set (m := mkMC number_of_classes (replicate (Z.to_nat number_of_classes) tm)
              number_of_patches number_of_ta_chunks number_of_state_bits
              clause_drop_p literal_drop_p).
  assert (Hwf : well_formed (mkWorld rs m)).
  { unfold well_formed, machines. simpl. rewrite length_replicate. lia. }
  exists m, (with_machines (tm_initialize <$> machines (mkWorld rs m)) (mkWorld rs m)).
  split; [|split].
  - unfold CreateMultiClassTsetlinMachine, bind. simpl. fold tm.
    by rewrite create_engines.
  - by apply mc_tm_initialize_Ok.
  - apply (equal_engines_predict_class_0 (tm_initialize tm) (Z.to_nat number_of_classes)).
    + apply well_formed_with_machines; [by rewrite length_fmap|done].
    + rewrite machines_with_machines. unfold machines. simpl. by rewrite fmap_replicate.
    + lia.
    + done.
Qed.

(** X4.  Every class id that [mc_tm_predict] writes is a valid class id. *)
Theorem predicted_classes_are_class_ids
    (X y : list Z) (number_of_examples : Z) (w : world) :
  well_formed w ->
  1 <= number_of_classes (mc_tm w) ->
  number_of_examples <= Z.of_nat (length y) ->
  exists y',
    predictions X y number_of_examples w = Some y' /\
    length y' = length y /\
    forall l : nat, Z.of_nat l < number_of_examples ->
      exists c, y' !! l = Some c /\ 0 <= c < number_of_classes (mc_tm w).
Proof.
  intros Hwf Hnc Hy.
  destruct (mc_tm_predict_returns X y number_of_examples w)
    as (y' & w' & Hrun & Hlen & Hdone & _); [done..|].
  exists y'. unfold predictions. rewrite Hrun. repeat split; [done|].
  intros l Hl. destruct (Hdone l Hl) as (c & Hc & v & Hc0 & Hv & _).
  exists c. split; [done|]. apply lookup_lt_Some in Hv. rewrite length_fmap in Hv.
  unfold well_formed in Hwf. lia.
Qed.

(** X5.  Line 96 scores engine 0 before it looks at the class count: on an
    ensemble without engines, predicting even one example reads past the
    engine array. *)
Theorem predict_without_engines_is_undefined
    (X y : list Z) (number_of_examples : Z) (w : world) :
  machines w = [] ->
  1 <= number_of_examples ->
  mc_tm_predict X y number_of_examples w = Undefined OutOfBounds.
Proof.
  intros Hms Hn. unfold mc_tm_predict, bind. simpl.
  rewrite for_loop_first by lia. unfold bind, largest_class, bind. simpl.
  unfold tm_score_at, bind, tm_at. fold (machines w). by rewrite Hms.
Qed.

End FreshEnsembles.

(** ** The sampling of the other class *)

Section SamplingFacts.

Context {P : Platform} {E : Engine}.

(** X9.  Line 126 maps the values of [rand()] onto the class ids: the class of
    a draw is a class id, and, when there are no more classes than values
    of [rand()], every class id is the class of some draw.  The bound on
    the product keeps the double arithmetic of the line exact, for a
    [RAND_MAX + 1] that is a power of two. *)
Theorem class_of_draw_covers_the_classes (nc : Z) :
  0 < RAND_MAX < 2 ^ 31 ->
  1 <= nc < 2 ^ 31 ->
  nc * RAND_MAX < 2 ^ 53 ->
  (forall r, valid_draw r -> 0 <= class_of_draw nc r < nc) /\
  (nc <= RAND_MAX + 1 ->
   forall c, 0 <= c < nc -> exists r, valid_draw r /\ class_of_draw nc r = c).
Proof.
  intros Hmax Hnc Hexact. split.
  - intros r Hr. by apply class_of_draw_in_range.
  - intros Hle c Hc.
    set (M := RAND_MAX + 1).
    set (r := (c * M + nc - 1) `div` nc).
    assert (Hlo : c * M <= nc * r).
    { unfold r. pose proof (Z.div_mod (c * M + nc - 1) nc ltac:(lia)) as Hdm.
      pose proof (Z.mod_pos_bound (c * M + nc - 1) nc ltac:(lia)). lia. }
    assert (Hhi : nc * r <= c * M + nc - 1).
    { unfold r. apply Z.mul_div_le. lia. }
    assert (Hr0 : 0 <= r) by (unfold r; apply Z.div_pos; nia).
    assert (Hr : r <= RAND_MAX).
    { assert (nc * r < nc * M) by nia. unfold M in *. nia. }
    exists r. split; [split; lia|].
    rewrite class_of_draw_floor by (done || split; lia). fold M.
    symmetry. apply (Z.div_unique _ _ _ (nc * r - c * M)); unfold M in *; lia.
Qed.

(** X10.  With a single class the loop of lines 127-129 has no way out: every
    value of [rand()] is of class 0, the target, so the call uses up any
    supply of draws without returning. *)
Theorem update_with_one_class_never_returns
    (Xi : list Z) (pos : Z) (w : world) (tm : TsetlinMachine) :
  0 < RAND_MAX < 2 ^ 31 ->
  number_of_classes (mc_tm w) = 1 ->
  machines w !! 0%nat = Some tm ->
  Forall valid_draw (snd (tm_update tm Xi pos 1 (draws w))) ->
  mc_tm_update Xi pos 0 w = Starved.
Proof.
  intros Hmax Hnc Htm Hvalid.
  rewrite (mc_tm_update_unfold _ _ _ _ tm) by (lia || done). cbv zeta.
  rewrite Hnc.
  assert (Hnone : forall rs, Forall valid_draw rs -> first_other_class 1 0 rs = None).
  { induction 1 as [|r rs Hr _ IH]; [done|]. simpl.
    assert (0 <= class_of_draw 1 r < 1) by (apply class_of_draw_in_range; (done || lia)).
    rewrite decide_True; [done|]. rewrite to_uint_small by lia. lia. }
  by rewrite Hnone.
Qed.

(** X11.  A target class that is not an index of the engine array makes
    [mc_tm_update] read past the array, before any engine is trained. *)
Theorem update_with_a_target_out_of_range_is_undefined
    (Xi : list Z) (pos target_class : Z) (w : world) :
  ~ (0 <= target_class < Z.of_nat (length (machines w))) ->
  mc_tm_update Xi pos target_class w = Undefined OutOfBounds.
Proof.
  intros Ht. unfold mc_tm_update, bind, tm_update_at, bind, tm_at, load.
  case_decide as H0; [|done]. fold (machines w).
  rewrite lookup_ge_None_2; [done|]. lia.
Qed.

End SamplingFacts.

(** ** Fitting without examples *)

Section EmptyFit.

Context {P : Platform} {E : Engine}.

Lemma to_size_t_negative (n : Z) :
  - 2 ^ 64 <= n < 0 -> to_size_t n = 2 ^ 64 + n.
Proof.
  intros Hn. unfold to_size_t. symmetry. apply (Z.mod_unique _ _ (-1)); lia.
Qed.

(** [shuffle] has no guard for [n = 0]: its bound [n - 1] wraps around
    and the first turn divides by [n - i = 0]. *)
Lemma shuffle_of_nothing (array : list Z) (w : world) :
  draws w <> [] -> shuffle array 0 w = Undefined DivisionByZero.
Proof.
  intros Hrs. unfold shuffle.
  rewrite (to_size_t_negative (0 - 1)) by lia.
  rewrite for_loop_first by lia.
  unfold bind, rand. destruct (draws w) as [|r rs]; [done|].
  by rewrite decide_True by done.
Qed.

(** A negative count reaches [shuffle] as a huge [size_t]: the first turn
    reads the array, which has no storage. *)
Lemma shuffle_of_a_negative_count (n : Z) (w : world) :
  0 < RAND_MAX < 2 ^ 31 ->
  - 2 ^ 31 <= n < 0 ->
  draws w <> [] ->
  shuffle [] (to_size_t n) w = Undefined OutOfBounds.
Proof.
  intros Hmax Hn Hrs. unfold shuffle.
  rewrite (to_size_t_negative n) by lia.
  rewrite (to_size_t_small (2 ^ 64 + n - 1)) by lia.
  rewrite for_loop_first by lia.
  unfold bind, rand. destruct (draws w) as [|r rs]; [done|].
  rewrite Z.sub_0_r, (to_size_t_small (2 ^ 64 + n)) by lia.
  rewrite decide_False by lia.
  rewrite (to_size_t_small RAND_MAX) by lia.
  rewrite (Z.div_small RAND_MAX) by lia.
  rewrite (to_size_t_small (0 + 1)) by lia. rewrite decide_False by lia.
  unfold load. case_decide; [|done]. by rewrite lookup_nil.
Qed.

(** X12.  With no example and at least one epoch to run, [mc_tm_fit] does not
    return once [rand()] has answered: the bound [n - 1] of the first
    [shuffle] wraps around and its first turn divides by [n - i = 0]. *)
Theorem fit_without_examples_is_undefined
    (X y : list Z) (epochs : Z) (w : world) :
  1 <= epochs ->
  draws w <> [] ->
  mc_tm_fit X y 0 epochs w = Undefined DivisionByZero.
Proof.
  intros He Hrs. unfold mc_tm_fit. unfold bind at 1.
  rewrite index_initialised.
  unfold bind at 1. rewrite for_loop_first by lia.
  unfold bind at 1. unfold epoch. unfold bind at 1.
  change (to_size_t 0) with 0. by rewrite shuffle_of_nothing.
Qed.

(** X13.  With a negative count of examples and at least one epoch to run,
    [mc_tm_fit] reads through the [index] array that [malloc] could not
    give: the count reaches [shuffle] as a huge [size_t]. *)
Theorem fit_with_a_negative_count_is_undefined
    (X y : list Z) (number_of_examples epochs : Z) (w : world) :
  0 < RAND_MAX < 2 ^ 31 ->
  - 2 ^ 31 <= number_of_examples < 0 ->
  1 <= epochs ->
  draws w <> [] ->
  mc_tm_fit X y number_of_examples epochs w = Undefined OutOfBounds.
Proof.
  intros Hmax Hn He Hrs. unfold mc_tm_fit. unfold bind at 1.
  rewrite index_initialised, seqZ_nil by lia.
  unfold bind at 1. rewrite for_loop_first by lia.
  unfold bind at 1. unfold epoch. unfold bind at 1.
  by rewrite shuffle_of_a_negative_count by (done || lia).
Qed.

End EmptyFit.

(** ** The masks drawn at the start of an epoch *)

Section DrawnMasks.

Context {P : Platform} {E : Engine}.

Lemma mask_bit_zeros (n : nat) (q : Z) : mask_bit (replicate n 0) q = false.
Proof.
  unfold mask_bit. destruct (replicate n 0 !! Z.to_nat (q `div` 32)) as [v|] eqn:Hv.
  - apply lookup_replicate in Hv as [-> _]. apply Z.bits_0.
  - apply Z.bits_0.
Qed.

(** [mask[j / 32] |= 1 << (j % 32)] sets bit [j] and no other. *)
Lemma mask_bit_set (mask : list Z) (j q : Z) :
  0 <= j -> (Z.to_nat (j `div` 32) < length mask)%nat -> 0 <= q ->
  mask_bit (<[Z.to_nat (j `div` 32) :=
               Z.lor (default 0 (mask !! Z.to_nat (j `div` 32)))
                     (to_uint (1 ≪ (j `mod` 32)))]> mask) q
  = mask_bit mask q || (q =? j).
Proof.
  intros Hj Hlen Hq. unfold mask_bit.
  assert (Hjm : 0 <= j `mod` 32 < 32) by (apply Z.mod_pos_bound; lia).
  assert (Hqm : 0 <= q `mod` 32 < 32) by (apply Z.mod_pos_bound; lia).
  pose proof (Z.div_mod j 32 ltac:(lia)) as Hjd.
  pose proof (Z.div_mod q 32 ltac:(lia)) as Hqd.
  assert (0 <= j `div` 32) by (apply Z.div_pos; lia).
  assert (0 <= q `div` 32) by (apply Z.div_pos; lia).
  destruct (decide (q `div` 32 = j `div` 32)) as [Heq|Hne].
  - rewrite Heq, list_lookup_insert_eq by done. unfold default at 1, from_option at 1, id.
    rewrite Z.lor_spec. f_equal.
    rewrite Z.shiftl_1_l, to_uint_small.
    + rewrite Z.pow2_bits_eqb by lia.
      destruct (Z.eqb_spec (j `mod` 32) (q `mod` 32)), (Z.eqb_spec q j); lia.
    + split; [lia|]. apply Z.pow_lt_mono_r; lia.
  - rewrite list_lookup_insert_ne by lia.
    destruct (Z.eqb_spec q j) as [->|_]; [done|]. by rewrite orb_false_r.
Qed.

Lemma words_set (mask : list Z) (j : Z) :
  0 <= j -> words mask ->
  words (<[Z.to_nat (j `div` 32) :=
            Z.lor (default 0 (mask !! Z.to_nat (j `div` 32)))
                  (to_uint (1 ≪ (j `mod` 32)))]> mask).
Proof.
  intros Hj Hw. apply Forall_insert; [done|].
  assert (Hjm : 0 <= j `mod` 32 < 32) by (apply Z.mod_pos_bound; lia).
  assert (Hold : 0 <= default 0 (mask !! Z.to_nat (j `div` 32)) < 2 ^ 32).
  { destruct (mask !! Z.to_nat (j `div` 32)) as [v|] eqn:Hv; simpl; [|lia].
    eapply Forall_lookup_1 in Hw; eauto. }
  rewrite Z.shiftl_1_l, to_uint_small
    by (split; [lia|apply Z.pow_lt_mono_r; lia]).
  split.
  - apply Z.lor_nonneg. lia.
  - apply Z.log2_lt_pow2.
    + assert (0 <= Z.lor (default 0 (mask !! Z.to_nat (j `div` 32))) (2 ^ (j `mod` 32)))
        by (apply Z.lor_nonneg; lia).
      assert (Z.lor (default 0 (mask !! Z.to_nat (j `div` 32))) (2 ^ (j `mod` 32)) <> 0).
      { intros H0. apply Z.lor_eq_0_iff in H0 as [_ H0].
        pose proof (Z.pow_pos_nonneg 2 (j `mod` 32)). lia. }
      lia.
    + rewrite Z.log2_lor by lia.
      apply Z.max_lub_lt.
      * destruct (decide (default 0 (mask !! Z.to_nat (j `div` 32)) = 0)) as [->|Hn];
          [done|]. apply Z.log2_lt_pow2; lia.
      * rewrite Z.log2_pow2; lia.
Qed.

Lemma drop_clause_load_Ok i j w tm :
  0 <= i -> machines w !! Z.to_nat i = Some tm -> 0 <= j ->
  (Z.to_nat j < length (TM.drop_clause tm))%nat ->
  drop_clause_load i j w = Ok (default 0 (TM.drop_clause tm !! Z.to_nat j), w).
Proof.
  intros Hi Htm Hj Hlen. unfold drop_clause_load, bind.
  rewrite (tm_at_Ok i w tm) by done. unfold load. rewrite decide_True by done.
  apply lookup_lt_is_Some_2 in Hlen as [v Hv]. by rewrite Hv.
Qed.

Lemma drop_literal_load_Ok i k w tm :
  0 <= i -> machines w !! Z.to_nat i = Some tm -> 0 <= k ->
  (Z.to_nat k < length (TM.drop_literal tm))%nat ->
  drop_literal_load i k w = Ok (default 0 (TM.drop_literal tm !! Z.to_nat k), w).
Proof.
  intros Hi Htm Hk Hlen. unfold drop_literal_load, bind.
  rewrite (tm_at_Ok i w tm) by done. unfold load. rewrite decide_True by done.
  apply lookup_lt_is_Some_2 in Hlen as [v Hv]. by rewrite Hv.
Qed.

Lemma dropped_next p rs j q :
  0 <= j -> 0 <= q ->
  (q <? j + 1) && dropped p rs q
  = (q <? j) && dropped p rs q || (q =? j) && dropped p rs j.
Proof.
  intros Hj Hq.
  destruct (Z.ltb_spec q (j + 1)), (Z.ltb_spec q j), (Z.eqb_spec q j);
    subst; try lia; simpl; try done.
  by rewrite orb_false_r.
Qed.

(** The loop of lines 169-175 on a cleared mask: bit [q] ends up set
    exactly when the draw number [q] passes the test. *)
Lemma draw_drop_clause_Ok i w tm rs rest :
  0 <= i -> machines w !! Z.to_nat i = Some tm ->
  0 <= TM.number_of_clauses tm < 2 ^ 31 ->
  TM.number_of_clauses tm <= 32 * Z.of_nat (length (TM.drop_clause tm)) ->
  words (TM.drop_clause tm) ->
  (forall q, mask_bit (TM.drop_clause tm) q = false) ->
  draws w = rs ++ rest -> length rs = Z.to_nat (TM.number_of_clauses tm) ->
  exists mask,
    draw_drop_clause i w
    = Ok (tt, mkWorld rest
                (set_tsetlin_machines
                   (<[Z.to_nat i := TM.set_drop_clause mask tm]> (machines w)) (mc_tm w))) /\
    length mask = length (TM.drop_clause tm) /\ words mask /\
    forall q, 0 <= q -> mask_bit mask q = dropped (clause_drop_p (mc_tm w)) rs q.
Proof.
  intros Hi Htm Hn Hfit Hw Hz Hrs Hlen.
  unfold draw_drop_clause, bind. rewrite (tm_at_Ok i w tm) by done.
  unfold for_each.
  pose (J := fun (j : Z) (_ : unit) (w' : world) =>
    exists mask,
      w' = mkWorld (drop (Z.to_nat j) rs ++ rest)
             (set_tsetlin_machines
                (<[Z.to_nat i := TM.set_drop_clause mask tm]> (machines w)) (mc_tm w)) /\
      length mask = length (TM.drop_clause tm) /\ words mask /\
      forall q, 0 <= q ->
        mask_bit mask q = (q <? j) && dropped (clause_drop_p (mc_tm w)) rs q).
  assert (Hloop : returns (for_loop 0 (TM.number_of_clauses tm) (fun j (_ : unit) =>
      let* r := rand in
      let* m := get_mc in
      if float_ratio_lt r (clause_drop_p m) then
        let clause_chunk := to_uint (j `quot` 32) in
        let clause_chunk_pos := to_uint (j `rem` 32) in
        let* old := drop_clause_load i clause_chunk in
        drop_clause_store i clause_chunk (Z.lor old (to_uint (1 ≪ clause_chunk_pos)))
      else ret tt) tt) w (J (TM.number_of_clauses tm))).
  { apply returns_for_loop; [lia| |].
    - exists (TM.drop_clause tm). split; [|split; [done|split; [done|]]].
      + change (Z.to_nat 0) with 0%nat. rewrite drop_0, <- Hrs.
        replace (TM.set_drop_clause (TM.drop_clause tm) tm) with tm by by destruct tm.
        rewrite list_insert_id by done. by destruct w as [ds []].
      + intros q Hq. rewrite Hz. by destruct (Z.ltb_spec q 0); [lia|].
    - intros j [] w' Hj (mask & -> & Hml & Hmw & Hbits).
      assert (Hr : exists r, rs !! Z.to_nat j = Some r)
        by (apply lookup_lt_is_Some_2; lia).
      destruct Hr as [r Hr].
      assert (Hd : drop (Z.to_nat j) rs = r :: drop (Z.to_nat (j + 1)) rs).
      { replace (Z.to_nat (j + 1)) with (Datatypes.S (Z.to_nat j)) by lia.
        by apply drop_S. }
      assert (Hdr : dropped (clause_drop_p (mc_tm w)) rs j
                    = float_ratio_lt r (clause_drop_p (mc_tm w)))
        by (unfold dropped; by rewrite Hr).
      unfold returns. unfold bind at 1. unfold rand. cbn [draws]. rewrite Hd. cbn [app].
      unfold bind at 1, get_mc. cbn [mc_tm clause_drop_p set_tsetlin_machines].
      destruct (float_ratio_lt r (clause_drop_p (mc_tm w))) eqn:Hlt.
      + rewrite Z.quot_div_nonneg, Z.rem_mod_nonneg by lia.
        assert (Hjm : 0 <= j `mod` 32 < 32) by (apply Z.mod_pos_bound; lia).
        assert (Hjd : 0 <= j `div` 32 < Z.of_nat (length mask)).
        { split; [apply Z.div_pos; lia|].
          apply Z.div_lt_upper_bound; lia. }
        assert (j `div` 32 < 2 ^ 32) by (apply Z.div_lt_upper_bound; lia).
        rewrite (to_uint_small (j `div` 32)), (to_uint_small (j `mod` 32)) by lia.
        set (w1 := mkWorld _ _).
        assert (Htm1 : machines w1 !! Z.to_nat i = Some (TM.set_drop_clause mask tm)).
        { apply list_lookup_insert_eq. by apply lookup_lt_Some in Htm. }
        unfold bind. rewrite (drop_clause_load_Ok i _ w1 _ Hi Htm1) by (simpl; lia).
        rewrite (drop_clause_store_Ok i _ _ w1 _ Hi Htm1) by (simpl; lia).
        eexists tt, _. split; [done|].
        eexists. split; [|split; [|split]].
        * unfold w1, with_machines, machines. cbn. rewrite list_insert_insert_eq.
          reflexivity.
        * by rewrite length_insert.
        * cbn [TM.drop_clause TM.set_drop_clause]. apply words_set; [lia|done].
        * intros q Hq. cbn [TM.drop_clause TM.set_drop_clause].
          rewrite mask_bit_set by lia.
          rewrite Hbits, dropped_next, Hdr by lia. by rewrite andb_true_r.
      + eexists tt, _. split; [done|]. exists mask. split; [done|].
        split; [done|split; [done|]]. intros q Hq.
        rewrite Hbits, dropped_next, Hdr by lia.
        by rewrite andb_false_r, orb_false_r. }
  destruct Hloop as ([] & w' & Hrun & mask & -> & Hml & Hmw & Hbits).
  exists mask. split; [|split; [done|split; [done|]]].
  - etransitivity; [exact Hrun|]. by rewrite drop_ge by lia.
  - intros q Hq. rewrite Hbits by done.
    destruct (Z.ltb_spec q (TM.number_of_clauses tm)); [done|].
    unfold dropped. by rewrite lookup_ge_None_2 by lia.
Qed.

(** The loop of lines 185-191 on a cleared mask: bit [q] ends up set
    exactly when the draw number [q] passes the test. *)
Lemma draw_drop_literal_Ok i w tm rs rest :
  0 <= i -> machines w !! Z.to_nat i = Some tm ->
  0 <= TM.number_of_features tm < 2 ^ 31 ->
  TM.number_of_features tm <= 32 * Z.of_nat (length (TM.drop_literal tm)) ->
  words (TM.drop_literal tm) ->
  (forall q, mask_bit (TM.drop_literal tm) q = false) ->
  draws w = rs ++ rest -> length rs = Z.to_nat (TM.number_of_features tm) ->
  exists mask,
    draw_drop_literal i w
    = Ok (tt, mkWorld rest
                (set_tsetlin_machines
                   (<[Z.to_nat i := TM.set_drop_literal mask tm]> (machines w)) (mc_tm w))) /\
    length mask = length (TM.drop_literal tm) /\ words mask /\
    forall q, 0 <= q -> mask_bit mask q = dropped (literal_drop_p (mc_tm w)) rs q.
Proof.
  intros Hi Htm Hn Hfit Hw Hz Hrs Hlen.
  unfold draw_drop_literal, bind. rewrite (tm_at_Ok i w tm) by done.
  unfold for_each.
  pose (J := fun (j : Z) (_ : unit) (w' : world) =>
    exists mask,
      w' = mkWorld (drop (Z.to_nat j) rs ++ rest)
             (set_tsetlin_machines
                (<[Z.to_nat i := TM.set_drop_literal mask tm]> (machines w)) (mc_tm w)) /\
      length mask = length (TM.drop_literal tm) /\ words mask /\
      forall q, 0 <= q ->
        mask_bit mask q = (q <? j) && dropped (literal_drop_p (mc_tm w)) rs q).
  assert (Hloop : returns (for_loop 0 (TM.number_of_features tm) (fun k (_ : unit) =>
      let* r := rand in
      let* m := get_mc in
      if float_ratio_lt r (literal_drop_p m) then
        let ta_chunk := to_uint (k `quot` 32) in
        let ta_chunk_pos := to_uint (k `rem` 32) in
        let* old := drop_literal_load i ta_chunk in
        drop_literal_store i ta_chunk (Z.lor old (to_uint (1 ≪ ta_chunk_pos)))
      else ret tt) tt) w (J (TM.number_of_features tm))).
  { apply returns_for_loop; [lia| |].
    - exists (TM.drop_literal tm). split; [|split; [done|split; [done|]]].
      + change (Z.to_nat 0) with 0%nat. rewrite drop_0, <- Hrs.
        replace (TM.set_drop_literal (TM.drop_literal tm) tm) with tm by by destruct tm.
        rewrite list_insert_id by done. by destruct w as [ds []].
      + intros q Hq. rewrite Hz. by destruct (Z.ltb_spec q 0); [lia|].
    - intros j [] w' Hj (mask & -> & Hml & Hmw & Hbits).
      assert (Hr : exists r, rs !! Z.to_nat j = Some r)
        by (apply lookup_lt_is_Some_2; lia).
      destruct Hr as [r Hr].
      assert (Hd : drop (Z.to_nat j) rs = r :: drop (Z.to_nat (j + 1)) rs).
      { replace (Z.to_nat (j + 1)) with (Datatypes.S (Z.to_nat j)) by lia.
        by apply drop_S. }
      assert (Hdr : dropped (literal_drop_p (mc_tm w)) rs j
                    = float_ratio_lt r (literal_drop_p (mc_tm w)))
        by (unfold dropped; by rewrite Hr).
      unfold returns. unfold bind at 1. unfold rand. cbn [draws]. rewrite Hd. cbn [app].
      unfold bind at 1, get_mc. cbn [mc_tm literal_drop_p set_tsetlin_machines].
      destruct (float_ratio_lt r (literal_drop_p (mc_tm w))) eqn:Hlt.
      + rewrite Z.quot_div_nonneg, Z.rem_mod_nonneg by lia.
        assert (Hjm : 0 <= j `mod` 32 < 32) by (apply Z.mod_pos_bound; lia).
        assert (Hjd : 0 <= j `div` 32 < Z.of_nat (length mask)).
        { split; [apply Z.div_pos; lia|].
          apply Z.div_lt_upper_bound; lia. }
        assert (j `div` 32 < 2 ^ 32) by (apply Z.div_lt_upper_bound; lia).
        rewrite (to_uint_small (j `div` 32)), (to_uint_small (j `mod` 32)) by lia.
        set (w1 := mkWorld _ _).
        assert (Htm1 : machines w1 !! Z.to_nat i = Some (TM.set_drop_literal mask tm)).
        { apply list_lookup_insert_eq. by apply lookup_lt_Some in Htm. }
        unfold bind. rewrite (drop_literal_load_Ok i _ w1 _ Hi Htm1) by (simpl; lia).
        rewrite (drop_literal_store_Ok i _ _ w1 _ Hi Htm1) by (simpl; lia).
        eexists tt, _. split; [done|].
        eexists. split; [|split; [|split]].
        * unfold w1, with_machines, machines. cbn. rewrite list_insert_insert_eq.
          reflexivity.
        * by rewrite length_insert.
        * cbn [TM.drop_literal TM.set_drop_literal]. apply words_set; [lia|done].
        * intros q Hq. cbn [TM.drop_literal TM.set_drop_literal].
          rewrite mask_bit_set by lia.
          rewrite Hbits, dropped_next, Hdr by lia. by rewrite andb_true_r.
      + eexists tt, _. split; [done|]. exists mask. split; [done|].
        split; [done|split; [done|]]. intros q Hq.
        rewrite Hbits, dropped_next, Hdr by lia.
        by rewrite andb_false_r, orb_false_r. }
  destruct Hloop as ([] & w' & Hrun & mask & -> & Hml & Hmw & Hbits).
  exists mask. split; [|split; [done|split; [done|]]].
  - etransitivity; [exact Hrun|]. by rewrite drop_ge by lia.
  - intros q Hq. rewrite Hbits by done.
    destruct (Z.ltb_spec q (TM.number_of_features tm)); [done|].
    unfold dropped. by rewrite lookup_ge_None_2 by lia.
Qed.

(** X14.  The body of the loop of lines 158-192 draws the two masks of engine
    [i] afresh: it takes one draw per clause and then one per feature,
    bit [q] of the clause mask is set exactly when the draw of clause [q]
    passes the test against [clause_drop_p], bit [q] of the literal mask
    exactly when the draw of feature [q] passes the test against
    [literal_drop_p], whatever the masks held before, and nothing else
    of the ensemble changes. *)
Theorem regenerate_dropout_draws_both_masks
    (i : Z) (w : world) (tm : TsetlinMachine) (rs_c rs_l rest : list Z) :
  0 <= i -> machines w !! Z.to_nat i = Some tm -> masks_fit tm ->
  0 <= TM.number_of_clauses tm < 2 ^ 31 ->
  TM.number_of_clauses tm <= 32 * TM.number_of_clause_chunks tm ->
  0 <= TM.number_of_features tm < 2 ^ 31 ->
  TM.number_of_features tm <= 32 * TM.number_of_ta_chunks tm ->
  draws w = rs_c ++ rs_l ++ rest ->
  length rs_c = Z.to_nat (TM.number_of_clauses tm) ->
  length rs_l = Z.to_nat (TM.number_of_features tm) ->
  exists drop_clause drop_literal,
    regenerate_dropout i w
    = Ok (tt, mkWorld rest
                (set_tsetlin_machines
                   (<[Z.to_nat i :=
                        TM.set_drop_literal drop_literal
                          (TM.set_drop_clause drop_clause tm)]> (machines w))
                   (mc_tm w))) /\
    length drop_clause = length (TM.drop_clause tm) /\
    length drop_literal = length (TM.drop_literal tm) /\
    (forall q, 0 <= q ->
       mask_bit drop_clause q = dropped (clause_drop_p (mc_tm w)) rs_c q) /\
    (forall q, 0 <= q ->
       mask_bit drop_literal q = dropped (literal_drop_p (mc_tm w)) rs_l q).
Proof.
  intros Hi Htm [Hfc Hfl] Hnc Hncc Hnf Hnfc Hrs Hlc Hll.
  assert (Hi' : (Z.to_nat i < length (machines w))%nat) by by apply lookup_lt_Some in Htm.
  unfold regenerate_dropout.
  (* the clause mask is cleared *)
  unfold bind at 1. rewrite (clear_drop_clause_Ok i w tm) by done.
  set (tm1 := TM.set_drop_clause _ tm). set (w1 := with_machines _ w).
  assert (Htm1 : machines w1 !! Z.to_nat i = Some tm1) by by apply list_lookup_insert_eq.
  (* and drawn *)
  destruct (draw_drop_clause_Ok i w1 tm1 rs_c (rs_l ++ rest)) as (dc & Hrun & Hdl & _ & Hdc);
    try done.
  { cbn. rewrite length_replicate. lia. }
  { apply Forall_replicate. lia. }
  { intros q. apply mask_bit_zeros. }
  unfold bind at 1. rewrite Hrun. clear Hrun.
  cbn [TM.drop_clause tm1 TM.set_drop_clause] in Hdl. rewrite length_replicate in Hdl.
  set (w2 := mkWorld _ _).
  set (tm2 := TM.set_drop_clause dc tm).
  assert (Htm2 : machines w2 !! Z.to_nat i = Some tm2).
  { unfold w2, machines. cbn. apply list_lookup_insert_eq. by rewrite length_insert. }
  (* the literal mask is cleared *)
  unfold bind at 1. rewrite (clear_drop_literal_Ok i w2 tm2) by (done || split; cbn; lia).
  set (tm3 := TM.set_drop_literal _ tm2). set (w3 := with_machines _ w2).
  assert (Htm3 : machines w3 !! Z.to_nat i = Some tm3).
  { unfold w3. rewrite machines_with_machines. apply list_lookup_insert_eq.
    unfold w2, machines. cbn. by rewrite !length_insert. }
  (* and drawn *)
  destruct (draw_drop_literal_Ok i w3 tm3 rs_l rest) as (dl & Hrun & Hdll & _ & Hdlit);
    try done.
  { cbn. rewrite length_replicate. lia. }
  { apply Forall_replicate. lia. }
  { intros q. apply mask_bit_zeros. }
  cbn [TM.drop_literal tm3 TM.set_drop_literal] in Hdll. rewrite length_replicate in Hdll.
  exists dc, dl. split; [|split; [done|split; [done|split; [done|done]]]].
  rewrite Hrun. do 3 f_equal.
  unfold w3, w2, w1, with_machines, machines. cbn.
  rewrite !list_insert_insert_eq. reflexivity.
Qed.

End DrawnMasks.

(** ** Prediction and transformation side by side *)

Section PredictAndTransform.

Context {P : Platform} {E : Engine}.

Lemma scored_ext tm X (pos pos' : nat -> Z) (n : nat) :
  (forall l, (l < n)%nat -> pos l = pos' l) ->
  scored tm X pos n = scored tm X pos' n.
Proof.
  induction n as [|n IH]; intros Hpos; [done|].
  simpl. rewrite IH by (intros; apply Hpos; lia). by rewrite Hpos by lia.
Qed.

(** X8.  [mc_tm_predict] steps through [X] with an [unsigned int] and
    [mc_tm_transform] with an [unsigned long].  As long as the offset of
    the last example is below 2^32, the two functions score the same
    examples on the same engines: run from one state, both return and
    leave the same state. *)
Theorem predict_and_transform_leave_the_same_engines
    (X y X_transformed : list Z) (invert number_of_examples : Z) (w : world) (ncl : Z) :
  well_formed w ->
  1 <= number_of_classes (mc_tm w) ->
  number_of_examples <= Z.of_nat (length y) ->
  score_keeps_clauses ncl ->
  Forall (holds_clauses ncl) (machines w) ->
  0 <= ncl ->
  Z.max 0 number_of_examples * (number_of_classes (mc_tm w) * ncl)
    <= Z.of_nat (length X_transformed) ->
  Z.of_nat (length X_transformed) < 2 ^ 64 ->
  (number_of_examples - 1)
    * to_uint (number_of_patches (mc_tm w) * number_of_ta_chunks (mc_tm w)) < 2 ^ 32 ->
  exists y' out w',
    mc_tm_predict X y number_of_examples w = Ok (y', w') /\
    mc_tm_transform X X_transformed invert number_of_examples w = Ok (out, w').
Proof.
  intros Hwf Hnc Hy Hkeep Hall Hncl Hroom Hmax Hpos.
  destruct (mc_tm_predict_returns X y number_of_examples w Hwf Hnc Hy)
    as (y' & w1 & Hp & _ & _ & _ & ->).
  destruct (transform_writes_rows X X_transformed invert number_of_examples w ncl
              Hwf Hkeep Hall Hncl Hroom Hmax) as (out & w2 & Ht & _ & _ & ->).
  exists y', out. eexists. split; [exact Hp|]. rewrite Ht. do 3 f_equal.
  apply list_fmap_ext. intros _ tm _. symmetry. apply scored_ext.
  intros l Hl. unfold predict_pos, transform_pos.
  set (step := to_uint _) in *.
  assert (0 <= step) by (apply Z.mod_pos_bound; lia).
  assert (Z.of_nat l * step <= (number_of_examples - 1) * step) by nia.
  rewrite to_uint_small, to_ulong_small; lia.
Qed.

(** X6.  The output array is written at every index below
    [number_of_examples]: when it is shorter than that, [mc_tm_predict]
    writes past its end. *)
Theorem predict_into_a_short_array_is_undefined
    (X y : list Z) (number_of_examples : Z) (w : world) :
  well_formed w ->
  1 <= number_of_classes (mc_tm w) ->
  Z.of_nat (length y) < number_of_examples ->
  mc_tm_predict X y number_of_examples w = Undefined OutOfBounds.
Proof.
  intros Hwf Hnc Hy.
  destruct (mc_tm_predict_returns X y (Z.of_nat (length y)) w Hwf Hnc ltac:(lia))
    as (y' & w' & Hp & Hlen & _ & _ & Hw').
  unfold mc_tm_predict in *. unfold bind at 1 in Hp. unfold bind at 1.
  unfold get_mc in *.
  apply bind_Ok in Hp as ([y1 pos1] & w1 & Hloop & Hret).
  injection Hret as -> ->.
  unfold bind at 1.
  rewrite (for_loop_split 0 (Z.of_nat (length y)) number_of_examples) by lia.
  unfold bind at 1. rewrite Hloop.
  rewrite for_loop_first by lia. unfold bind at 1. unfold bind at 1.
  assert (Hwf' : well_formed w').
  { rewrite Hw'. apply well_formed_with_machines; [|done]. by rewrite length_fmap. }
  destruct (largest_class_first_maximum X (fun _ => pos1) 0 (machines w') w' Hwf')
    as (c & w2 & Hc & _).
  { rewrite Hw', machines_with_machines, length_fmap. unfold well_formed in Hwf. lia. }
  { simpl. by rewrite list_fmap_id. }
  rewrite Hc. unfold bind at 1, store. by rewrite decide_False by lia.
Qed.

End PredictAndTransform.

(** ** Inspection *)

Section InspectionFacts.

Context {P : Platform} {E : Engine} {I : EngineInspection}.

Lemma tm_at_missing class (w : world) :
  ~ (0 <= class < Z.of_nat (length (machines w))) ->
  tm_at class w = Undefined OutOfBounds.
Proof.
  intros Hc. unfold tm_at, load. case_decide; [|done]. fold (machines w).
  rewrite lookup_ge_None_2; [done|]. lia.
Qed.

(** The loop of lines 231-233 over the first [n] entries of a buffer
    that has them. *)
Lemma clause_configuration_loop class clause (buffer : list Z) (w : world) tm (n : Z) :
  0 <= class -> machines w !! Z.to_nat class = Some tm ->
  n <= Z.of_nat (length buffer) ->
  for_loop 0 n (fun k clause_configuration =>
    let* tm := tm_at class in
    store clause_configuration k (to_uint (tm_ta_action tm clause k))) buffer w
  = Ok (((fun k => to_uint (tm_ta_action tm clause k)) <$> seqZ 0 n)
          ++ drop (Z.to_nat n) buffer, w).
Proof.
  intros Hc Htm Hn.
  destruct (decide (n <= 0)) as [H0|H0].
  { rewrite for_loop_empty by done. rewrite seqZ_nil by done.
    by replace (Z.to_nat n) with 0%nat by lia. }
  pose (J := fun (k : Z) (b : list Z) (w' : world) =>
    w' = w /\
    b = ((fun k => to_uint (tm_ta_action tm clause k)) <$> seqZ 0 k)
          ++ drop (Z.to_nat k) buffer).
  assert (Hloop : returns (for_loop 0 n (fun k clause_configuration =>
      let* tm := tm_at class in
      store clause_configuration k (to_uint (tm_ta_action tm clause k))) buffer) w (J n)).
  { apply returns_for_loop; [lia|by split|].
    intros k b w' Hk [-> ->]. unfold returns, bind.
    rewrite (tm_at_Ok class w tm) by done. unfold store.
    rewrite decide_True
      by (rewrite length_app, length_fmap, length_seqZ, length_drop; lia).
    eexists _, _. split; [done|]. split; [done|].
    rewrite (seqZ_app 0 k 1) by lia.
    rewrite (seqZ_cons (0 + k) 1), (seqZ_nil _ (Z.pred 1)), Z.add_0_l by lia.
    rewrite fmap_app, <- app_assoc. simpl.
    rewrite insert_app_r_alt by (rewrite length_fmap, length_seqZ; lia).
    rewrite length_fmap, length_seqZ.
    replace (Z.to_nat k - Z.to_nat k)%nat with 0%nat by lia.
    destruct (drop (Z.to_nat k) buffer) as [|v rest] eqn:Hd.
    { apply (f_equal length) in Hd. rewrite length_drop in Hd. simpl in Hd. lia. }
    simpl. do 2 f_equal.
    replace (Z.to_nat (k + 1)) with (Z.to_nat k + 1)%nat by lia.
    by rewrite <- drop_drop, Hd. }
  by destruct Hloop as (b & w' & Hrun & -> & ->).
Qed.

(** X15.  [mc_tm_clause_configuration] overwrites the first
    [number_of_features] entries of the caller's buffer with the actions
    of the automata of the clause, in feature order, each converted to
    [unsigned int]; the rest of the buffer and the ensemble are left as
    they were.  A buffer with fewer entries than the engine has features
    is written past its end. *)
Theorem clause_configuration_fills_one_entry_per_feature
    (class clause : Z) (buffer : list Z) (w : world) (tm : TsetlinMachine) :
  0 <= class -> machines w !! Z.to_nat class = Some tm ->
  (TM.number_of_features tm <= Z.of_nat (length buffer) ->
   mc_tm_clause_configuration class clause buffer w
   = Ok (((fun k => to_uint (tm_ta_action tm clause k))
            <$> seqZ 0 (TM.number_of_features tm))
           ++ drop (Z.to_nat (TM.number_of_features tm)) buffer, w)) /\
  (Z.of_nat (length buffer) < TM.number_of_features tm ->
   mc_tm_clause_configuration class clause buffer w = Undefined OutOfBounds).
Proof.
  intros Hc Htm. unfold mc_tm_clause_configuration. split; intros Hlen.
  - unfold bind. rewrite (tm_at_Ok class w tm) by done.
    by apply clause_configuration_loop.
  - unfold bind at 1. rewrite (tm_at_Ok class w tm) by done.
    rewrite (for_loop_split 0 (Z.of_nat (length buffer))) by lia.
    unfold bind at 1.
    rewrite (clause_configuration_loop class clause buffer w tm) by (done || lia).
    rewrite for_loop_first by lia. unfold bind at 1. unfold bind at 1.
    rewrite (tm_at_Ok class w tm) by done. unfold store.
    rewrite decide_False; [done|].
    rewrite length_app, length_fmap, length_seqZ, length_drop. lia.
Qed.

(** X16.  Every function that takes a class id reads the engine array at that
    id first: with an id that is not an index of the array, the
    inspection functions and the state accessors are undefined, whatever
    their other arguments. *)
Theorem class_id_out_of_range_is_undefined
    (class clause ta : Z) (buffer clause_weights ta_state : list Z) (w : world) :
  ~ (0 <= class < Z.of_nat (length (machines w))) ->
  mc_tm_ta_state class clause ta w = Undefined OutOfBounds /\
  mc_tm_ta_action class clause ta w = Undefined OutOfBounds /\
  mc_tm_clause_configuration class clause buffer w = Undefined OutOfBounds /\
  mc_tm_get_state class clause_weights ta_state w = Undefined OutOfBounds /\
  mc_tm_set_state class clause_weights ta_state w = Undefined OutOfBounds.
Proof.
  intros Hc.
  unfold mc_tm_ta_state, mc_tm_ta_action, mc_tm_clause_configuration,
    mc_tm_get_state, mc_tm_set_state.
  repeat split; unfold bind at 1; by rewrite tm_at_missing.
Qed.

End InspectionFacts.

(** ** Calls without examples *)

Section NoExamples.

Context {P : Platform} {E : Engine}.

(** X7.  With a count of examples that is not positive, [mc_tm_predict] and
    [mc_tm_transform] return at once: no engine is scored, not even on
    an ensemble without engines, and the output arrays are left as they
    were. *)
Theorem no_examples_no_effect
    (X y X_transformed : list Z) (invert number_of_examples : Z) (w : world) :
  number_of_examples <= 0 ->
  mc_tm_predict X y number_of_examples w = Ok (y, w) /\
  mc_tm_transform X X_transformed invert number_of_examples w = Ok (X_transformed, w).
Proof.
  intros Hn. unfold mc_tm_predict, mc_tm_transform, bind, get_mc.
  by rewrite !for_loop_empty by done.
Qed.

End NoExamples.

(** ** More runs of the toy engine *)

Section MoreRuns.

#[local] Existing Instance Glibc.platform.
#[local] Existing Instance Toy.engine.
#[local] Existing Instance ToyInspection.inspection.

Lemma operations_keep_the_header_witness :
  exists w',
    mc_tm_fit [5; 3; 0] [0; 1; 2] 3 2 (Toy.stale Toy.stream) = Ok (tt, w') /\
    header w' = header (Toy.stale Toy.stream).
Proof.
  assert (Hrun : exists w',
    mc_tm_fit [5; 3; 0] [0; 1; 2] 3 2 (Toy.stale Toy.stream) = Ok (tt, w'))
    by (eexists; vm_compute; reflexivity).
  destruct Hrun as [w' Hrun]. exists w'. split; [exact Hrun|].
  destruct (operations_keep_the_header (Toy.stale Toy.stream)) as (_ & _ & _ & Hfit & _).
  exact (Hfit _ _ _ _ _ _ Hrun).
Defined.

Lemma initialize_every_engine_witness :
  mc_tm_initialize (Toy.start [])
  = Ok (tt, with_machines (tm_initialize <$> machines (Toy.start [])) (Toy.start [])) /\
  mc_tm_initialize (mkWorld [] (set_tsetlin_machines [] Toy.machine))
  = Undefined OutOfBounds.
Proof.
  split.
  - apply (initialize_every_engine (Toy.start [])). reflexivity.
  - apply (initialize_every_engine (mkWorld [] (set_tsetlin_machines [] Toy.machine))).
    simpl. lia.
Defined.

Lemma fresh_ensemble_predicts_class_0_witness :
  exists m w,
    CreateMultiClassTsetlinMachine 3 4 2 1 1 2 10 0 0 0 0 Glibc.half_f Glibc.zero_f
      [true; true] = Ok (m, []) /\
    mc_tm_initialize (mkWorld [] m) = Ok (tt, w) /\
    predictions [5; 3; 0] [9; 9; 9; 9] 3 w
    = Some (replicate (Z.to_nat 3) 0 ++ drop (Z.to_nat 3) [9; 9; 9; 9]).
Proof.
  apply (fresh_ensemble_predicts_class_0 3 4 2 1 1 2 10 0 0 0 0
           Glibc.half_f Glibc.zero_f [] [] [5; 3; 0] [9; 9; 9; 9] 3).
  - lia.
  - simpl. lia.
Defined.

Lemma predicted_classes_are_class_ids_witness :
  exists y',
    predictions [5; 3; 0] [9; 9; 9; 9] 3 (Toy.trained []) = Some y' /\
    length y' = 4%nat /\
    forall l : nat, Z.of_nat l < 3 -> exists c, y' !! l = Some c /\ 0 <= c < 3.
Proof.
  apply (predicted_classes_are_class_ids [5; 3; 0] [9; 9; 9; 9] 3 (Toy.trained [])).
  - reflexivity.
  - simpl. lia.
  - simpl. lia.
Defined.

Lemma predict_without_engines_is_undefined_witness :
  mc_tm_predict [5; 3; 0] [9; 9; 9; 9] 3
    (mkWorld [] (set_tsetlin_machines [] Toy.machine))
  = Undefined OutOfBounds.
Proof.
  apply predict_without_engines_is_undefined.
  - reflexivity.
  - lia.
Defined.

Lemma class_of_draw_covers_the_classes_witness :
  (forall r, valid_draw r -> 0 <= class_of_draw 3 r < 3) /\
  (forall c, 0 <= c < 3 -> exists r, valid_draw r /\ class_of_draw 3 r = c).
Proof.
  destruct (class_of_draw_covers_the_classes 3) as [Hrange Hcover].
  - simpl. lia.
  - lia.
  - simpl. lia.
  - split; [exact Hrange|]. apply Hcover. simpl. lia.
Defined.

Lemma update_with_one_class_never_returns_witness :
  mc_tm_update [15] 0 0 (ToyInspection.single [5; 7; 11]) = Starved.
Proof.
  apply (update_with_one_class_never_returns [15] 0 (ToyInspection.single [5; 7; 11])
           (Toy.initialize (Toy.Create 4 2 1 1 2 10 0 0 0 0))).
  - simpl. lia.
  - reflexivity.
  - reflexivity.
  - simpl. repeat constructor; simpl; lia.
Defined.

Lemma update_with_a_target_out_of_range_is_undefined_witness :
  mc_tm_update [15] 0 3 (Toy.start [0; 0; 0]) = Undefined OutOfBounds.
Proof.
  apply update_with_a_target_out_of_range_is_undefined. simpl. lia.
Defined.

Lemma fit_without_examples_is_undefined_witness :
  mc_tm_fit [] [] 0 1 (Toy.start [7]) = Undefined DivisionByZero.
Proof.
  apply fit_without_examples_is_undefined.
  - lia.
  - discriminate.
Defined.

Lemma fit_with_a_negative_count_is_undefined_witness :
  mc_tm_fit [] [] (-1) 1 (Toy.start [7]) = Undefined OutOfBounds.
Proof.
  apply fit_with_a_negative_count_is_undefined.
  - simpl. lia.
  - lia.
  - lia.
  - discriminate.
Defined.

Lemma regenerate_dropout_draws_both_masks_witness :
  exists drop_clause drop_literal,
    regenerate_dropout 0 (Toy.stale [0; 2000000000; 17; 2000000000; 1; 2; 42])
    = Ok (tt, mkWorld [42]
                (set_tsetlin_machines
                   (<[0%nat :=
                        TM.set_drop_literal drop_literal
                          (TM.set_drop_clause drop_clause
                             (TM.set_drop_clause [5]
                                (Toy.initialize (Toy.Create 4 2 1 1 2 10 0 0 0 0))))]>
                      (machines (Toy.stale [])))
                   (mc_tm (Toy.stale [])))) /\
    length drop_clause = 1%nat /\
    length drop_literal = 1%nat /\
    (forall q, 0 <= q ->
       mask_bit drop_clause q = dropped Glibc.half_f [0; 2000000000; 17; 2000000000] q) /\
    (forall q, 0 <= q ->
       mask_bit drop_literal q = dropped Glibc.zero_f [1; 2] q).
Proof.
  apply (regenerate_dropout_draws_both_masks 0
           (Toy.stale [0; 2000000000; 17; 2000000000; 1; 2; 42])
           (TM.set_drop_clause [5] (Toy.initialize (Toy.Create 4 2 1 1 2 10 0 0 0 0)))
           [0; 2000000000; 17; 2000000000] [1; 2] [42]).
  - lia.
  - reflexivity.
  - split; reflexivity.
  - vm_compute. split; [discriminate|reflexivity].
  - vm_compute. discriminate.
  - vm_compute. split; [discriminate|reflexivity].
  - vm_compute. discriminate.
  - reflexivity.
  - reflexivity.
  - reflexivity.
Defined.

(** The draws 0 and 17, those of the clauses 1 and 2, fall below one
    half: the stale word 5 of the clause mask is replaced by 6.  No draw
    is below the literal probability 0. *)
Example Toy_regenerate_dropout :
  regenerate_dropout 0 (Toy.stale [2000000000; 0; 17; 2000000000; 1; 2; 42])
  = Ok (tt, mkWorld [42]
              (set_tsetlin_machines
                 (<[0%nat := TM.set_drop_clause [6]
                               (Toy.initialize (Toy.Create 4 2 1 1 2 10 0 0 0 0))]>
                    (machines (Toy.stale [])))
                 (mc_tm (Toy.stale [])))).
Proof. vm_compute. reflexivity. Qed.

Lemma predict_and_transform_leave_the_same_engines_witness :
  exists y' out w',
    mc_tm_predict [5; 3; 0] [9; 9; 9; 9] 3 (Toy.start []) = Ok (y', w') /\
    mc_tm_transform [5; 3; 0] (replicate 40 7) 0 3 (Toy.start []) = Ok (out, w').
Proof.
  apply (predict_and_transform_leave_the_same_engines
           [5; 3; 0] [9; 9; 9; 9] (replicate 40 7) 0 3 (Toy.start []) 4).
  - reflexivity.
  - simpl. lia.
  - simpl. lia.
  - apply Toy_score_keeps_clauses.
  - exact Toy_holds_clauses.
  - lia.
  - simpl. lia.
  - simpl. lia.
  - vm_compute. reflexivity.
Defined.

Lemma predict_into_a_short_array_is_undefined_witness :
  mc_tm_predict [5; 3; 0] [9] 3 (Toy.start []) = Undefined OutOfBounds.
Proof.
  apply predict_into_a_short_array_is_undefined.
  - reflexivity.
  - simpl. lia.
  - simpl. lia.
Defined.

Lemma clause_configuration_fills_one_entry_per_feature_witness :
  mc_tm_clause_configuration 1 0 [7; 7; 7] (Toy.start [])
  = Ok (((fun k => to_uint (tm_ta_action
                              (Toy.initialize (Toy.Create 4 2 1 1 2 10 0 0 0 0)) 0 k))
           <$> seqZ 0 2) ++ drop (Z.to_nat 2) [7; 7; 7], Toy.start []) /\
  mc_tm_clause_configuration 1 0 [7] (Toy.start []) = Undefined OutOfBounds.
Proof.
  split.
  - apply (clause_configuration_fills_one_entry_per_feature 1 0 [7; 7; 7] (Toy.start [])
             (Toy.initialize (Toy.Create 4 2 1 1 2 10 0 0 0 0))).
    + lia.
    + reflexivity.
    + simpl. lia.
  - apply (clause_configuration_fills_one_entry_per_feature 1 0 [7] (Toy.start [])
             (Toy.initialize (Toy.Create 4 2 1 1 2 10 0 0 0 0))).
    + lia.
    + reflexivity.
    + simpl. lia.
Defined.

Example Toy_clause_configuration :
  mc_tm_clause_configuration 1 0 [7; 7; 7] (Toy.start []) = Ok ([1; 0; 7], Toy.start []).
Proof. vm_compute. reflexivity. Qed.

Lemma class_id_out_of_range_is_undefined_witness :
  mc_tm_ta_state 3 0 0 (Toy.start []) = Undefined OutOfBounds /\
  mc_tm_ta_action 3 0 0 (Toy.start []) = Undefined OutOfBounds /\
  mc_tm_clause_configuration 3 0 [7; 7; 7] (Toy.start []) = Undefined OutOfBounds /\
  mc_tm_get_state 3 [0; 0; 0; 0] [0; 0; 0; 0; 0; 0; 0; 0] (Toy.start [])
  = Undefined OutOfBounds /\
  mc_tm_set_state 3 [0; 0; 0; 0] [0; 0; 0; 0; 0; 0; 0; 0] (Toy.start [])
  = Undefined OutOfBounds.
Proof.
  apply class_id_out_of_range_is_undefined. simpl. lia.
Defined.

Lemma no_examples_no_effect_witness :
  mc_tm_predict [5; 3; 0] [9; 9; 9; 9] 0 (Toy.start []) = Ok ([9; 9; 9; 9], Toy.start []) /\
  mc_tm_transform [5; 3; 0] (replicate 40 7) 1 0 (Toy.start [])
  = Ok (replicate 40 7, Toy.start []).
Proof.
  apply no_examples_no_effect. lia.
Defined.

End MoreRuns.

(** ** Transformation into a buffer that is too short *)

Section ShortBuffer.

Context {P : Platform} {E : Engine}.

Lemma only_out_of_bounds_ret {S A} (a : A) : only_out_of_bounds (ret a : M S A).
Proof. by intros s. Qed.

Lemma only_out_of_bounds_bind {S A B} (c : M S A) (k : A -> M S B) :
  only_out_of_bounds c -> (forall a, only_out_of_bounds (k a)) ->
  only_out_of_bounds (bind c k).
Proof.
  intros Hc Hk s. unfold bind. specialize (Hc s).
  destruct (c s) as [[a s']| |]; [apply Hk|done..].
Qed.

Lemma only_out_of_bounds_for_loop {S A} lo hi (body : Z -> A -> M S A) a :
  (forall i a, only_out_of_bounds (body i a)) ->
  only_out_of_bounds (for_loop lo hi body a).
Proof.
  intros Hbody s. rewrite for_loop_range.
  generalize (Z.to_nat (hi - lo)). intros n. revert lo a s.
  induction n as [|n IH]; intros lo a s; simpl; [done|].
  apply only_out_of_bounds_bind; [apply Hbody|]. intros a' s'. apply IH.
Qed.

Lemma only_out_of_bounds_load {S A} (l : list A) i : only_out_of_bounds (load l i : M S A).
Proof. intros s. unfold load. case_decide; [|done]. by destruct (l !! Z.to_nat i). Qed.

Lemma only_out_of_bounds_store {S A} (l : list A) i v :
  only_out_of_bounds (store l i v : M S (list A)).
Proof. intros s. unfold store. by case_decide. Qed.

Lemma only_out_of_bounds_tm_at i : only_out_of_bounds (tm_at i).
Proof. intros w. unfold tm_at. apply only_out_of_bounds_load. Qed.

Lemma only_out_of_bounds_set_tm i tm : only_out_of_bounds (set_tm i tm).
Proof. intros w. unfold set_tm, store. by case_decide. Qed.

Lemma only_out_of_bounds_tm_score_at i X pos : only_out_of_bounds (tm_score_at i X pos).
Proof.
  unfold tm_score_at. apply only_out_of_bounds_bind; [apply only_out_of_bounds_tm_at|].
  intros tm. destruct (tm_score tm X pos) as [tm' class_sum].
  apply only_out_of_bounds_bind; [apply only_out_of_bounds_set_tm|].
  intros _. apply only_out_of_bounds_ret.
Qed.

Lemma only_out_of_bounds_transform X X_transformed invert number_of_examples :
  only_out_of_bounds (mc_tm_transform X X_transformed invert number_of_examples).
Proof.
  unfold mc_tm_transform.
  apply only_out_of_bounds_bind; [by intros w|]. intros m.
  apply only_out_of_bounds_bind; [|intros [out pos]; apply only_out_of_bounds_ret].
  apply only_out_of_bounds_for_loop. intros l [out pos].
  apply only_out_of_bounds_bind; [by intros w|]. intros m'.
  apply only_out_of_bounds_bind; [|intros out'; apply only_out_of_bounds_ret].
  apply only_out_of_bounds_for_loop. intros i out'. unfold transform_class.
  apply only_out_of_bounds_bind; [apply only_out_of_bounds_tm_score_at|]. intros _.
  apply only_out_of_bounds_bind; [apply only_out_of_bounds_tm_at|]. intros tm.
  apply only_out_of_bounds_for_loop. intros j [buffer tf]. unfold transform_clause.
  apply only_out_of_bounds_bind; [apply only_out_of_bounds_tm_at|]. intros tm'.
  apply only_out_of_bounds_bind; [apply only_out_of_bounds_load|]. intros word.
  apply only_out_of_bounds_bind; [|intros buffer'; apply only_out_of_bounds_ret].
  repeat case_match; apply only_out_of_bounds_store.
Qed.

Lemma transform_clause_counts nc ncl room count i j invert out (w : world) :
  room < 2 ^ 64 -> 0 <= count ->
  fit_for nc ncl w -> counted room count out ->
  ensures (transform_clause i j invert out) w (fun out' w' =>
    fit_for nc ncl w' /\ counted room (count + 1) out').
Proof.
  intros Hroom Hc Hw (Hlen & Htf & Hle). destruct out as [buffer tf]. simpl in *. subst tf.
  unfold transform_clause. apply ensures_bind.
  intros tm w1 (_ & _ & ->)%tm_at_inv. apply ensures_bind.
  intros word w1 (_ & _ & Hw1)%load_Ok. simpl in Hw1. subst w1.
  apply ensures_bind.
  assert (Hstore : forall v,
    ensures (store buffer count v : Run (list Z)) w (fun buffer' w' =>
      w' = w /\ Z.of_nat (length buffer') = room /\ count + 1 <= room)).
  { intros v buffer' w' (Hin & Hb & Hw')%store_Ok. simpl in *. subst.
    rewrite length_insert. repeat split; lia. }
  eapply ensures_mono; [repeat case_match; apply Hstore|].
  intros buffer' w' (-> & Hlen' & Hle'). apply ensures_ret.
  split; [done|]. repeat split; simpl; [done| |done].
  apply to_ulong_small. lia.
Qed.

Lemma transform_class_counts nc ncl room count X pos invert i out (w : world) :
  score_keeps_clauses ncl -> 0 <= ncl ->
  room < 2 ^ 64 -> 0 <= count ->
  fit_for nc ncl w -> counted room count out ->
  ensures (transform_class X pos invert i out) w (fun out' w' =>
    fit_for nc ncl w' /\ counted room (count + ncl) out').
Proof.
  intros Hkeep Hncl Hroom Hc [Hnc Hall] Hout. unfold transform_class.
  apply ensures_bind. intros class_sum w1 Hscore.
  assert (Hw1 : fit_for nc ncl w1).
  { unfold tm_score_at in Hscore.
    apply bind_Ok in Hscore as (tm & w0 & (_ & Htm & ->)%tm_at_inv & Hscore).
    pose proof (Hkeep tm X pos (proj1 (Forall_lookup _ _) Hall _ _ Htm)) as Htm'.
    destruct (tm_score tm X pos) as [tm' s]. simpl in Htm'.
    apply bind_Ok in Hscore as ([] & w2 & (_ & ->)%set_tm_inv & [= _ <-]).
    split; [done|]. rewrite machines_with_machines. by apply Forall_insert. }
  apply ensures_bind. intros tm w2 (_ & Htm & ->)%tm_at_inv.
  destruct Hw1 as [Hnc1 Hall1].
  pose proof (proj1 (Forall_lookup _ _) Hall1 _ _ Htm) as [Hcl _]. rewrite Hcl.
  eapply ensures_mono.
  - apply (ensures_for_loop (fun j out' w' =>
             fit_for nc ncl w' /\ counted room (count + j) out'));
      [done| |].
    + split; [done|]. by rewrite Z.add_0_r.
    + intros j out' w' Hj [Hw' Hout']. rewrite Z.add_assoc.
      apply transform_clause_counts; [done|lia|done..].
  - by intros out' w' H.
Qed.

Lemma transform_counts
    (X X_transformed : list Z) (invert number_of_examples : Z) (w : world) (ncl : Z) :
  score_keeps_clauses ncl ->
  Forall (holds_clauses ncl) (machines w) ->
  0 <= ncl -> 0 <= number_of_classes (mc_tm w) -> 0 <= number_of_examples ->
  Z.of_nat (length X_transformed) < 2 ^ 64 ->
  ensures (mc_tm_transform X X_transformed invert number_of_examples) w (fun _ _ =>
    number_of_examples * (number_of_classes (mc_tm w) * ncl)
      <= Z.of_nat (length X_transformed)).
Proof.
  intros Hkeep Hall Hncl Hnc Hn Hroom.
  set (nc := number_of_classes (mc_tm w)) in *.
  set (room := Z.of_nat (length X_transformed)) in *.
  unfold mc_tm_transform. apply ensures_bind. intros m w0 [= <- <-].
  apply ensures_bind. eapply ensures_mono.
  - apply (ensures_for_loop (fun l (r : list Z * Z * Z) w' =>
             fit_for nc ncl w' /\ counted room (l * (nc * ncl)) (fst r))); [done| |].
    + split; [by split|]. repeat split; simpl; lia.
    + intros l [out pos] w' Hl [Hw' Hout]. simpl in Hout.
      apply ensures_bind. intros m' w1 [= <- <-].
      apply ensures_bind. eapply ensures_mono.
      * apply (ensures_for_loop (fun i out' w'' =>
                 fit_for nc ncl w'' /\ counted room (l * (nc * ncl) + i * ncl) out')).
        -- destruct Hw' as [-> _]. done.
        -- split; [done|]. by rewrite Z.add_0_r.
        -- intros i out' w'' Hi [Hw'' Hout'].
           replace (l * (nc * ncl) + (i + 1) * ncl)
             with (l * (nc * ncl) + i * ncl + ncl) by lia.
           apply transform_class_counts; [done..|nia|done|done].
      * intros out' w'' [Hw'' Hout']. apply ensures_ret. split; [done|]. simpl.
        destruct Hw' as [Hnc' _]. rewrite Hnc' in Hout'.
        by replace ((l + 1) * (nc * ncl)) with (l * (nc * ncl) + nc * ncl) by lia.
  - intros [out pos] w' [_ (_ & _ & Hle)]. by apply ensures_ret.
Qed.

(** X17.  [mc_tm_transform] writes one entry per example, class and
    clause: with a buffer that has fewer entries than that, it does not
    stop at the end of the buffer, and the call is undefined. *)
Theorem transform_into_a_short_array_is_undefined
    (X X_transformed : list Z) (invert number_of_examples : Z) (w : world) (ncl : Z) :
  score_keeps_clauses ncl ->
  Forall (holds_clauses ncl) (machines w) ->
  0 <= ncl -> 0 <= number_of_examples ->
  Z.of_nat (length X_transformed) < 2 ^ 64 ->
  Z.of_nat (length X_transformed)
    < number_of_examples * (number_of_classes (mc_tm w) * ncl) ->
  mc_tm_transform X X_transformed invert number_of_examples w = Undefined OutOfBounds.
Proof.
  intros Hkeep Hall Hncl Hn Hroom Hshort.
  assert (Hnc : 0 <= number_of_classes (mc_tm w)) by nia.
  pose proof (transform_counts X X_transformed invert number_of_examples w ncl
                Hkeep Hall Hncl Hnc Hn Hroom) as Hcount.
  pose proof (only_out_of_bounds_transform X X_transformed invert number_of_examples w)
    as Honly.
  destruct (mc_tm_transform X X_transformed invert number_of_examples w)
    as [[out w']|f|] eqn:Hrun.
  - specialize (Hcount out w' Hrun). simpl in Hcount. lia.
  - by subst f.
  - done.
Qed.

End ShortBuffer.

Section ShortBufferRuns.

#[local] Existing Instance Glibc.platform.
#[local] Existing Instance Toy.engine.

Lemma transform_into_a_short_array_is_undefined_witness :
  mc_tm_transform [5; 3; 0] (replicate 10 7) 0 3 (Toy.start []) = Undefined OutOfBounds.
Proof.
  apply (transform_into_a_short_array_is_undefined
           [5; 3; 0] (replicate 10 7) 0 3 (Toy.start []) 4).
  - apply Toy_score_keeps_clauses.
  - exact Toy_holds_clauses.
  - lia.
  - lia.
  - simpl. lia.
  - simpl. lia.
Defined.

End ShortBufferRuns.
